(** * natsmicromw: middleware chains, envelopes, error normalisation and
    the compression middleware, as a shallow embedding of the Go sources.

    Definitions:
    - [Json]        : the string encoder of encoding/json and the marshalling
                      of [HandlerError] (handlererror.go);
    - [Header]      : the header map operations of nats.Header;
    - [Store], [M]  : the objects that the Go code reaches through pointers
                      at dispatch time (Go maps, requests, replies, the
                      package variable compressMin, the trace of transport
                      calls), and computations over them that return or
                      panic;
    - [Request], [MicroRequest], [MicroReply] : the envelope types
                      (request.go, microrequest.go, microreply.go);
    - [Slice]       : Go slices over shared backing arrays, with [append];
    - [wrapHandler], [wrapContextHandler], [Service], [Group] : the chain
                      builder and the middleware accumulation (natsmicromw.go);
    - [Compression] : middleware/compression.go, over the codecs of
                      compress/gzip and compress/flate as parameters;
    - [JsonSpec]    : the strings of RFC 8259 and the well-formed UTF-8 of
                      RFC 3629, which the error payload is stated against.

    Properties: the fold of the chain builder (C1, C2), error normalisation
    (C3), sharing of backing arrays between derived services and groups
    (C8), [WithContext] (C7), header accessors on nil maps (C10), and the
    compression middleware (C4, C5, C6, C9). *)

From Stdlib Require Import ZArith.
From Stdlib.Strings Require Import Ascii String Byte.
From stdpp Require Import gmap strings list.


(* ===================================================================== *)
(** ** Errors (handlererror.go) *)
(* ===================================================================== *)

(** [type HandlerError struct { Description string; Code string }] *)
Record HandlerError := mkHandlerError {
  Description : string;
  Code : string
}.

(** A non-nil value of Go's [error] interface. Its dynamic type is
    [*HandlerError], the one type the dispatcher asserts on, and then the
    pointer it holds points to a value or is nil (an interface that holds a
    nil pointer is not a nil interface); or it is another type, and the
    error is kept by the text its [Error()] method renders. *)
Inductive error :=
| ErrHandler (e : HandlerError)
| ErrHandlerNil
| ErrOther (msg : string).

(** [func (e *HandlerError) Error() string { return e.Description }], which
    dereferences its receiver ([None]: the panic on a nil one), and the
    rendered text for the other errors. *)
Definition error_Error (e : error) : option string :=
  match e with
  | ErrHandler he => Some (Description he)
  | ErrHandlerNil => None
  | ErrOther msg => Some msg
  end.

(** The release of Go that builds the package: the workflow tests under
    1.20, 1.21 and 1.22. Of what the package uses, one thing differs
    between them: encoding/json writes a backspace and a form feed inside
    a string as [\u0008] and [\u000c] up to 1.21, and as [\b] and [\f]
    from 1.22. *)
Class GoRelease := { shortEscapes : bool }.

Definition go1_21 : GoRelease := {| shortEscapes := false |}.
Definition go1_22 : GoRelease := {| shortEscapes := true |}.

(** Results of the fallible functions that return [(value, error)]. *)
Inductive result (A : Type) :=
| Ok (a : A)
| Err (e : error).
Arguments Ok {A} a.
Arguments Err {A} e.

(* ===================================================================== *)
(** ** encoding/json on a struct of two strings *)
(* ===================================================================== *)

Module Json.

Definition dquote : ascii := ascii_of_nat 34.
Definition backslash : ascii := ascii_of_nat 92.

Definition hex_digit (n : N) : ascii :=
  match n with
  | 0 => "0" | 1 => "1" | 2 => "2" | 3 => "3" | 4 => "4" | 5 => "5"
  | 6 => "6" | 7 => "7" | 8 => "8" | 9 => "9" | 10 => "a" | 11 => "b"
  | 12 => "c" | 13 => "d" | 14 => "e" | _ => "f"
  end%N%char.

(** [htmlSafeSet]: the ASCII bytes that are written as they are. *)
Definition htmlSafe (b : N) : bool :=
  (32 <=? b)%N && (b <? 128)%N
  && negb (b =? 34)%N && negb (b =? 38)%N && negb (b =? 60)%N
  && negb (b =? 62)%N && negb (b =? 92)%N.

(** The escape written for an ASCII byte outside [htmlSafeSet]: the
    short forms, those for backspace and form feed from Go 1.22 only, and
    the generic [\u00XX] form for the rest. *)
Definition escapeASCII `{GoRelease} (c : ascii) : string :=
  let b := N_of_ascii c in
  if (b =? 92)%N || (b =? 34)%N then String backslash (String c EmptyString)
  else if shortEscapes && (b =? 8)%N then String backslash "b"
  else if shortEscapes && (b =? 12)%N then String backslash "f"
  else if (b =? 10)%N then String backslash "n"
  else if (b =? 13)%N then String backslash "r"
  else if (b =? 9)%N then String backslash "t"
  else String backslash
         (String "u" (String "0" (String "0"
            (String (hex_digit (b / 16)) (String (hex_digit (b mod 16)) EmptyString))))).

Definition in_range (lo hi : N) (c : ascii) : bool :=
  let b := N_of_ascii c in (lo <=? b)%N && (b <=? hi)%N.

Definition cont (c : ascii) : bool := in_range 128 191 c.

(** [utf8.DecodeRuneInString] on a lead byte [>= 0x80] and the bytes after
    it: the size of the encoding when it is well formed, [None] for
    [(RuneError, 1)]. *)
Definition runeSize (lead : ascii) (rest : string) : option nat :=
  let b := N_of_ascii lead in
  let second lo hi :=
    match rest with String c _ => in_range lo hi c | EmptyString => false end in
  let third :=
    match rest with String _ (String c _) => cont c | _ => false end in
  let fourth :=
    match rest with String _ (String _ (String c _)) => cont c | _ => false end in
  if (b <? 194)%N then None
  else if (b <? 224)%N then if second 128%N 191%N then Some 2 else None
  else if (b =? 224)%N then if second 160%N 191%N && third then Some 3 else None
  else if (b =? 237)%N then if second 128%N 159%N && third then Some 3 else None
  else if (b <? 240)%N then if second 128%N 191%N && third then Some 3 else None
  else if (b =? 240)%N then
    if second 144%N 191%N && third && fourth then Some 4 else None
  else if (b <? 244)%N then
    if second 128%N 191%N && third && fourth then Some 4 else None
  else if (b =? 244)%N then
    if second 128%N 143%N && third && fourth then Some 4 else None
  else None.

(** U+2028 and U+2029 (E2 80 A8, E2 80 A9) are always escaped. *)
Definition lineSep (lead : ascii) (rest : string) : option ascii :=
  match rest with
  | String c2 (String c3 _) =>
      if (N_of_ascii lead =? 226)%N && (N_of_ascii c2 =? 128)%N then
        if (N_of_ascii c3 =? 168)%N then Some "8"%char
        else if (N_of_ascii c3 =? 169)%N then Some "9"%char
        else None
      else None
  | _ => None
  end.

(** Continuation bytes of the rune being written: still to copy, or still
    to skip (after an escape that stands for the whole rune). *)
Inductive pending :=
| Copy (k : nat)
| Skip (k : nat).

(** The body of [appendString] with [escapeHTML] set, between the two
    quotes. *)
Fixpoint encodeFrom `{GoRelease} (p : pending) (src : string) : string :=
  match src with
  | EmptyString => EmptyString
  | String c rest =>
      match p with
      | Copy (S k) => String c (encodeFrom (Copy k) rest)
      | Skip (S k) => encodeFrom (Skip k) rest
      | _ =>
          if (N_of_ascii c <? 128)%N then
            if htmlSafe (N_of_ascii c) then String c (encodeFrom (Copy 0) rest)
            else escapeASCII c +:+ encodeFrom (Copy 0) rest
          else
            match runeSize c rest with
            | None =>
                String backslash "ufffd" +:+ encodeFrom (Copy 0) rest
            | Some size =>
                match lineSep c rest with
                | Some d =>
                    String backslash "u202" +:+ String d (encodeFrom (Skip 2) rest)
                | None => String c (encodeFrom (Copy (size - 1)) rest)
                end
            end
      end
  end.

Definition appendString `{GoRelease} (src : string) : string :=
  String dquote (encodeFrom (Copy 0) src +:+ String dquote EmptyString).

(** [json.Marshal(handlerErr)] for
    [struct { Description string `json:"description"`; Code string `json:"code"` }]:
    the fields in declaration order under their tags, no white space. *)
Definition Marshal `{GoRelease} (e : HandlerError) : list byte :=
  list_byte_of_string
    ("{" +:+ appendString "description" +:+ ":" +:+ appendString (Description e)
     +:+ "," +:+ appendString "code" +:+ ":" +:+ appendString (Code e) +:+ "}").

(** [json.Marshal] on a [*HandlerError]: a nil pointer is written as
    [null]. *)
Definition MarshalPtr `{GoRelease} (p : option HandlerError) : list byte :=
  match p with
  | Some e => Marshal e
  | None => list_byte_of_string "null"
  end.

End Json.

(* ===================================================================== *)
(** ** nats.Header: the header map operations *)
(* ===================================================================== *)

(** [type Header map[string][]string]; the operations below are the
    library's, on the contents of one (non-nil) map. A key bound to a nil
    slice reads like an absent key under each of them, and is kept
    as absent; a key bound to an empty, non-nil slice is [Some []]. *)
Module Header.

Abbreviation t := (gmap string (list string)).

(** [h[key] = append(h[key], value)] *)
Definition Add (h : t) (key value : string) : t :=
  <[key := default [] (h !! key) ++ [value]]> h.

(** [h[key] = []string{value}] *)
Definition Set_ (h : t) (key value : string) : t :=
  <[key := [value]]> h.

(** [if v := h[key]; v != nil { return v[0] }; return ""]: indexing an
    empty non-nil slice is a run-time panic ([None]). *)
Definition Get (h : t) (key : string) : option string :=
  match h !! key with
  | None => Some ""
  | Some [] => None
  | Some (v :: _) => Some v
  end.

(** [return h[key]] *)
Definition Values (h : t) (key : string) : list string :=
  default [] (h !! key).

(** [delete(h, key)] *)
Definition Del (h : t) (key : string) : t :=
  delete key h.

End Header.

(* ===================================================================== *)
(** ** Values and objects *)
(* ===================================================================== *)

(** [context.Context], as the chain the package builds with
    [context.Background()] and [context.WithValue]. *)
Inductive context_Context :=
| Background
| WithValue (parent : context_Context) (key val : string).

(** [ctx.Value(key)]: the innermost binding of [key]. *)
Fixpoint context_Value (c : context_Context) (k : string) : option string :=
  match c with
  | Background => None
  | WithValue parent key val =>
      if decide (key = k) then Some val else context_Value parent k
  end.

(** A reference to a Go map in the store; [None] in a field of type
    [micro.Headers] is the nil map. *)
Abbreviation mapref := nat.

(** What [micro.Request], the transport's view of one delivery, answers to
    [Subject()], [Reply()], [Headers()] and [Data()]. *)
Record micro_Request := mkMicroReq {
  micro_Subject : string;
  micro_Reply : string;
  micro_Headers : option mapref;
  micro_Data : list byte
}.

(** [type Request struct { micro.Request; ctx context.Context }]
    (request.go); a nil [ctx] is [None]. *)
Record Request := mkRequest {
  Request_Request : micro_Request;
  Request_ctx : option context_Context
}.

(** [type MicroRequest struct { Subject, Reply string; Headers micro.Headers;
    Data []byte; ctx context.Context }] (microrequest.go). *)
Record MicroRequest := mkMicroRequest {
  req_Subject : string;
  req_Reply : string;
  req_Headers : option mapref;
  req_Data : list byte;
  req_ctx : option context_Context
}.

(** [type MicroReply struct { Headers micro.Headers; Data []byte }]
    (microreply.go). *)
Record MicroReply := mkMicroReply {
  rep_Headers : option mapref;
  rep_Data : list byte
}.

(** What a delivery does to the outside: the calls on the transport's
    request ([Respond], [Error]) and, for instrumented runs, marks left by
    middleware and handlers. *)
Inductive Event :=
| EvRespond (req : micro_Request) (data : list byte)
| EvError (req : micro_Request) (code description : string) (data : list byte)
| EvMark (label : string).

(* ===================================================================== *)
(** ** The dispatch-time store and the outcome monad *)
(* ===================================================================== *)

(** Everything a handler can reach and change: the Go maps and the envelope
    objects behind pointers (a pointer is an index; an index out of range
    is a nil or dangling pointer), the package variable [compressMin] of the
    middleware package, and the trace of outside effects. *)
Record Store := mkStore {
  hmaps : list Header.t;
  requests : list Request;
  mrequests : list MicroRequest;
  mreplies : list MicroReply;
  compressMin : Z;
  trace : list Event
}.

(** [var compressMin = 1000] *)
Definition init_Store : Store := mkStore [] [] [] [] 1000 [].

Inductive outcome (A : Type) :=
| Ret (a : A) (s : Store)
| Panic.
Arguments Ret {A} a s.
Arguments Panic {A}.

(** A computation over the store that returns or panics. *)
Definition M (A : Type) : Type := Store -> outcome A.

Definition M_ret {A} (a : A) : M A := fun s => Ret a s.

Definition M_bind {A B} (c : M A) (k : A -> M B) : M B :=
  fun s => match c s with
           | Ret a s' => k a s'
           | Panic => Panic
           end.

Definition M_panic {A} : M A := fun _ => Panic.

Declare Scope M_scope.
Delimit Scope M_scope with M.
Notation "x <- c ;; k" := (M_bind c (fun x => k))
  (at level 100, c at next level, k at level 200, right associativity) : M_scope.
Notation "c ;;; k" := (M_bind c (fun _ => k))
  (at level 100, k at level 200, right associativity) : M_scope.
Local Open Scope M_scope.

Definition of_option {A} (o : option A) : M A :=
  match o with Some a => M_ret a | None => M_panic end.

(** Field updates of the store. *)
Definition with_hmaps (f : list Header.t -> list Header.t) (s : Store) : Store :=
  mkStore (f (hmaps s)) (requests s) (mrequests s) (mreplies s) (compressMin s) (trace s).
Definition with_requests (f : list Request -> list Request) (s : Store) : Store :=
  mkStore (hmaps s) (f (requests s)) (mrequests s) (mreplies s) (compressMin s) (trace s).
Definition with_mrequests (f : list MicroRequest -> list MicroRequest) (s : Store) : Store :=
  mkStore (hmaps s) (requests s) (f (mrequests s)) (mreplies s) (compressMin s) (trace s).
Definition with_mreplies (f : list MicroReply -> list MicroReply) (s : Store) : Store :=
  mkStore (hmaps s) (requests s) (mrequests s) (f (mreplies s)) (compressMin s) (trace s).
Definition with_compressMin (n : Z) (s : Store) : Store :=
  mkStore (hmaps s) (requests s) (mrequests s) (mreplies s) n (trace s).
Definition with_trace (f : list Event -> list Event) (s : Store) : Store :=
  mkStore (hmaps s) (requests s) (mrequests s) (mreplies s) (compressMin s) (f (trace s)).

(** The Go map behind a reference, and its update in place. *)
Definition map_load (h : mapref) : M Header.t :=
  fun s => of_option (hmaps s !! h) s.
Definition map_store (h : mapref) (m : Header.t) : M unit :=
  fun s => match hmaps s !! h with
           | Some _ => Ret tt (with_hmaps (fun l => <[h := m]> l) s)
           | None => Panic
           end.
(** [nats.Header{}]: a new, empty map. *)
Definition map_new : M mapref :=
  fun s => Ret (length (hmaps s)) (with_hmaps (fun l => l ++ [∅]) s).

(** The transport calls, as the dispatcher sees them: one event each. *)
Definition emit (e : Event) : M unit :=
  fun s => Ret tt (with_trace (fun t => t ++ [e]) s).

(** Pointers to the envelope objects. *)
Abbreviation ptr := nat.

Definition request_load (p : ptr) : M Request :=
  fun s => of_option (requests s !! p) s.
Definition request_new (r : Request) : M ptr :=
  fun s => Ret (length (requests s)) (with_requests (fun l => l ++ [r]) s).

Definition req_load (p : ptr) : M MicroRequest :=
  fun s => of_option (mrequests s !! p) s.
Definition req_store (p : ptr) (r : MicroRequest) : M unit :=
  fun s => match mrequests s !! p with
           | Some _ => Ret tt (with_mrequests (fun l => <[p := r]> l) s)
           | None => Panic
           end.
Definition req_new (r : MicroRequest) : M ptr :=
  fun s => Ret (length (mrequests s)) (with_mrequests (fun l => l ++ [r]) s).

Definition rep_load (p : ptr) : M MicroReply :=
  fun s => of_option (mreplies s !! p) s.
Definition rep_store (p : ptr) (r : MicroReply) : M unit :=
  fun s => match mreplies s !! p with
           | Some _ => Ret tt (with_mreplies (fun l => <[p := r]> l) s)
           | None => Panic
           end.
Definition rep_new (r : MicroReply) : M ptr :=
  fun s => Ret (length (mreplies s)) (with_mreplies (fun l => l ++ [r]) s).

(** Assignments to one field through a pointer. *)
Definition req_set_Headers (p : ptr) (h : option mapref) : M unit :=
  o <- req_load p ;;
  req_store p (mkMicroRequest (req_Subject o) (req_Reply o) h (req_Data o) (req_ctx o)).
Definition req_set_Data (p : ptr) (d : list byte) : M unit :=
  o <- req_load p ;;
  req_store p (mkMicroRequest (req_Subject o) (req_Reply o) (req_Headers o) d (req_ctx o)).
Definition rep_set_Headers (p : ptr) (h : option mapref) : M unit :=
  o <- rep_load p ;;
  rep_store p (mkMicroReply h (rep_Data o)).
Definition rep_set_Data (p : ptr) (d : list byte) : M unit :=
  o <- rep_load p ;;
  rep_store p (mkMicroReply (rep_Headers o) d).

(* ===================================================================== *)
(** ** request.go: [Request] *)
(* ===================================================================== *)

Module Request.

(** [func (r *Request) Context() context.Context { return r.ctx }] *)
Definition Context (r : ptr) : M (option context_Context) :=
  o <- request_load r ;;
  M_ret (Request_ctx o).

(** [func (r *Request) WithContext(ctx) *Request
     { return &Request{ r.Request, ctx } }] *)
Definition WithContext (r : ptr) (ctx : option context_Context) : M ptr :=
  o <- request_load r ;;
  request_new (mkRequest (Request_Request o) ctx).

End Request.

(* ===================================================================== *)
(** ** microrequest.go: [MicroRequest] *)
(* ===================================================================== *)

Module MicroRequest.

(** [newMicroRequest(req micro.Request, ctx context.Context)] *)
Definition newMicroRequest (req : micro_Request) (ctx : option context_Context) : M ptr :=
  req_new (mkMicroRequest (micro_Subject req) (micro_Reply req)
                          (micro_Headers req) (micro_Data req) ctx).

Definition Context (r : ptr) : M (option context_Context) :=
  o <- req_load r ;;
  M_ret (req_ctx o).

(** [return &MicroRequest{ r.Subject, r.Reply, r.Headers, r.Data, ctx }] *)
Definition WithContext (r : ptr) (ctx : option context_Context) : M ptr :=
  o <- req_load r ;;
  req_new (mkMicroRequest (req_Subject o) (req_Reply o) (req_Headers o) (req_Data o) ctx).

(** [h := nats.Header(r.Headers); if h == nil { h = nats.Header{} };
     h.Add(key, value); r.Headers = micro.Headers(h)] *)
Definition HeaderAdd (r : ptr) (key value : string) : M unit :=
  o <- req_load r ;;
  h <- match req_Headers o with
       | Some h => M_ret h
       | None => map_new
       end ;;
  m <- map_load h ;;
  map_store h (Header.Add m key value) ;;;
  req_set_Headers r (Some h).

Definition HeaderSet (r : ptr) (key value : string) : M unit :=
  o <- req_load r ;;
  h <- match req_Headers o with
       | Some h => M_ret h
       | None => map_new
       end ;;
  m <- map_load h ;;
  map_store h (Header.Set_ m key value) ;;;
  req_set_Headers r (Some h).

(** [return nats.Header(r.Headers).Get(key)]; the library answers the
    empty string on a nil map before it looks the key up. *)
Definition HeaderGet (r : ptr) (key : string) : M string :=
  o <- req_load r ;;
  match req_Headers o with
  | None => M_ret ""
  | Some h => m <- map_load h ;; of_option (Header.Get m key)
  end.

(** [return r.Headers.Values(key)]: reading a nil map yields the nil
    slice. *)
Definition HeaderValues (r : ptr) (key : string) : M (list string) :=
  o <- req_load r ;;
  match req_Headers o with
  | None => M_ret []
  | Some h => m <- map_load h ;; M_ret (Header.Values m key)
  end.

(** [if r.Headers == nil { return }; h := nats.Header(r.Headers);
     delete(h, key); r.Headers = micro.Headers(h)] *)
Definition HeaderDel (r : ptr) (key : string) : M unit :=
  o <- req_load r ;;
  match req_Headers o with
  | None => M_ret tt
  | Some h =>
      m <- map_load h ;;
      map_store h (Header.Del m key) ;;;
      req_set_Headers r (Some h)
  end.

End MicroRequest.

(* ===================================================================== *)
(** ** microreply.go: [MicroReply] *)
(* ===================================================================== *)

Module MicroReply.

(** [return &MicroReply{ Headers: micro.Headers{}, Data: data }] *)
Definition NewMicroReply (data : list byte) : M ptr :=
  h <- map_new ;;
  rep_new (mkMicroReply (Some h) data).

(** [h := nats.Header{}; for k, v := range req.Headers { h[k] = v }]:
    ranging over a nil map runs no iteration. *)
Definition NewMicroReplyFromRequest (data : list byte) (req : ptr) : M ptr :=
  h <- map_new ;;
  o <- req_load req ;;
  src <- match req_Headers o with
         | None => M_ret ∅
         | Some rh => map_load rh
         end ;;
  map_store h src ;;;
  rep_new (mkMicroReply (Some h) data).

Definition HeaderAdd (r : ptr) (key value : string) : M unit :=
  o <- rep_load r ;;
  h <- match rep_Headers o with
       | Some h => M_ret h
       | None => map_new
       end ;;
  m <- map_load h ;;
  map_store h (Header.Add m key value) ;;;
  rep_set_Headers r (Some h).

Definition HeaderSet (r : ptr) (key value : string) : M unit :=
  o <- rep_load r ;;
  h <- match rep_Headers o with
       | Some h => M_ret h
       | None => map_new
       end ;;
  m <- map_load h ;;
  map_store h (Header.Set_ m key value) ;;;
  rep_set_Headers r (Some h).

Definition HeaderGet (r : ptr) (key : string) : M string :=
  o <- rep_load r ;;
  match rep_Headers o with
  | None => M_ret ""
  | Some h => m <- map_load h ;; of_option (Header.Get m key)
  end.

Definition HeaderValues (r : ptr) (key : string) : M (list string) :=
  o <- rep_load r ;;
  match rep_Headers o with
  | None => M_ret []
  | Some h => m <- map_load h ;; M_ret (Header.Values m key)
  end.

Definition HeaderDel (r : ptr) (key : string) : M unit :=
  o <- rep_load r ;;
  match rep_Headers o with
  | None => M_ret tt
  | Some h =>
      m <- map_load h ;;
      map_store h (Header.Del m key) ;;;
      rep_set_Headers r (Some h)
  end.

End MicroReply.

(* ===================================================================== *)
(** ** Go slices: headers over shared backing arrays *)
(* ===================================================================== *)

(** The run-time's choice of a new capacity when [append] must reallocate
    (old capacity, needed length); the language only promises a
    sufficiently large array. *)
Class Runtime := { growcap : nat -> nat -> nat }.

Module Slice.

(** A slice header: the backing array it points into, its length and its
    capacity. The nil slice has length and capacity 0. *)
Record t := mk {
  array : nat;
  len : nat;
  cap : nat
}.

Definition nil : t := mk 0 0 0.

(** The backing arrays, by address. Of each array the cells written so
    far are kept; every slice handed out by [append] is no longer than
    that. *)
Abbreviation heap A := (list (list A)).

(** The elements [s[0], ..., s[len(s)-1]] as the heap has them now. *)
Definition view {A} (h : heap A) (s : t) : list A :=
  take (len s) (default [] (h !! array s)).

(** [copy(cells[at:], xs)], growing the written part when needed. *)
Definition write {A} (at_ : nat) (xs : list A) (cells : list A) : list A :=
  take at_ cells ++ xs ++ drop (at_ + length xs) cells.

(** [append(s, xs...)]: when [len(s) + len(xs)] fits the capacity of [s]
    the elements are written into the array [s] points into, behind its
    length, and the result shares that array; otherwise a new array is
    allocated, the elements of [s] are copied and [xs] written after
    them. *)
Definition append `{Runtime} {A} (s : t) (xs : list A) (h : heap A) : t * heap A :=
  if decide (len s + length xs <= cap s) then
    (mk (array s) (len s + length xs) (cap s),
     alter (write (len s) xs) (array s) h)
  else
    (mk (length h) (len s + length xs) (growcap (cap s) (len s + length xs)),
     h ++ [view h s ++ xs]).

End Slice.

(** The capacity Go's run-time picks ([nextslicecap] in runtime/slice.go)
    for old capacities under 256 elements, before rounding up to an
    allocation size class: the needed length when that is more than double
    the old capacity, double the old capacity otherwise. *)
Definition go_growcap (oldCap newLen : nat) : nat :=
  if decide (oldCap + oldCap < newLen) then newLen else oldCap + oldCap.

(** The least the language allows: exactly the needed length. *)
Definition exact_growcap (oldCap newLen : nat) : nat := newLen.

(* ===================================================================== *)
(** ** natsmicromw.go: the chain builder *)
(* ===================================================================== *)

(** [micro.Handler]: [Handle(micro.Request)], acting on the store. *)
Definition Handler : Type := micro_Request -> M unit.

(** [type MiddlewareFunc func(micro.Handler) micro.Handler] *)
Definition MiddlewareFunc : Type := Handler -> Handler.

(** [type ContextHandlerFunc func(r *Request) error]; [None] is a nil
    error. *)
Definition ContextHandlerFunc : Type := ptr -> M (option error).

(** [type ContextMiddlewareFunc func(ContextHandlerFunc) ContextHandlerFunc] *)
Definition ContextMiddlewareFunc : Type := ContextHandlerFunc -> ContextHandlerFunc.

(** [for i := len(mws) - 1; i >= 0; i-- { wrapped = mws[i](wrapped) }],
    with [n] standing for [i + 1]; the index is within the sequence on
    every round. *)
Fixpoint wrap_loop {H : Type} (mws : list (H -> H)) (n : nat) (wrapped : H) : H :=
  match n with
  | 0 => wrapped
  | S i =>
      match mws !! i with
      | Some m => wrap_loop mws i (m wrapped)
      | None => wrapped
      end
  end.

(** [func wrapHandler(handler micro.Handler, mws ...MiddlewareFunc) micro.Handler] *)
Definition wrapHandler (handler : Handler) (mws : list MiddlewareFunc) : Handler :=
  wrap_loop mws (length mws) handler.

(** [handlerErr, ok := err.(type *HandlerError); if !ok { handlerErr =
    &HandlerError{ Description: err.Error(), Code: "500" } }]: the pointer
    the dispatcher goes on with. The assertion succeeds on every error of
    that dynamic type, on one that holds a nil pointer too, and then the
    pointer is nil ([None]). *)
Definition normalise (err : error) : M (option HandlerError) :=
  match err with
  | ErrHandler he => M_ret (Some he)
  | ErrHandlerNil => M_ret None
  | ErrOther _ =>
      description <- of_option (error_Error err) ;;
      M_ret (Some (mkHandlerError description "500"))
  end.

(** [req.Error(code, description, data)] on the transport's request: the
    call and its three arguments are recorded; what the transport does with
    them, and the error it may return, which the dispatcher drops, are the
    transport's. *)
Definition micro_Error (req : micro_Request) (code description : string)
    (data : list byte) : M unit :=
  emit (EvError req code description data).

(** [req.Respond(data)] on the transport's request. *)
Definition micro_Respond (req : micro_Request) (data : list byte) : M unit :=
  emit (EvRespond req data).

(** The body of the [micro.HandlerFunc] that [wrapContextHandler] returns,
    given the context middleware [cmw] that the service holds when the
    delivery arrives. The arguments of [req.Error] are evaluated after
    [json.Marshal] has returned, and [handlerErr.Code], the first of them,
    dereferences the pointer: a nil one panics there. *)
Definition contextDispatch `{GoRelease} (defaultCtx : option context_Context)
    (cmw : list ContextMiddlewareFunc) (handler : ContextHandlerFunc) : Handler :=
  fun req =>
    let ctx := match defaultCtx with
               | Some c => c
               | None => Background
               end in
    ctxReq <- request_new (mkRequest req (Some ctx)) ;;
    let wrappedCtxHandler := wrap_loop cmw (length cmw) handler in
    err <- wrappedCtxHandler ctxReq ;;
    match err with
    | Some e =>
        handlerErr <- normalise e ;;
        let errData := Json.MarshalPtr handlerErr in
        v <- of_option handlerErr ;;
        micro_Error req (Code v) (Description v) errData
    | None => M_ret tt
    end.

(* ===================================================================== *)
(** ** natsmicromw.go: services, groups and middleware accumulation *)
(* ===================================================================== *)

(** [type Service struct { svc micro.Service; mw []MiddlewareFunc;
    cmw []ContextMiddlewareFunc; defaultCtx context.Context }]; the
    transport's service is kept by its name. *)
Record Service := mkService {
  svc : string;
  mw : Slice.t;
  cmw : Slice.t;
  defaultCtx : option context_Context
}.

(** [type Group struct { svc *Service; grp micro.Group }]; the transport's
    group is kept by the names on its path. No field of a [Service] is
    assigned after construction by the operations below, so the service a
    group points to is held by its value. *)
Record Group := mkGroup {
  grp_svc : Service;
  grp : list string
}.

(** The backing arrays of all middleware slices. *)
Record Registry := mkRegistry {
  mw_heap : Slice.heap MiddlewareFunc;
  cmw_heap : Slice.heap ContextMiddlewareFunc
}.

(** The chains a service holds, read through its slice headers. *)
Definition chain (r : Registry) (s : Service) : list MiddlewareFunc :=
  Slice.view (mw_heap r) (mw s).
Definition context_chain (r : Registry) (s : Service) : list ContextMiddlewareFunc :=
  Slice.view (cmw_heap r) (cmw s).

(** [func wrapContextHandler(s *Service, handler ContextHandlerFunc) micro.HandlerFunc]:
    the closure reads [s.defaultCtx] and [s.cmw] on each delivery. *)
Definition wrapContextHandler `{GoRelease} (r : Registry) (s : Service)
    (handler : ContextHandlerFunc) : Handler :=
  contextDispatch (defaultCtx s) (context_chain r s) handler.

Section Accumulation.
Context `{Runtime}.

(** [AddService(nc, config, fns...)]: [s := &Service{svc: svc, mw: fns}]
    keeps the caller's slice. The endpoint of the config, wrapped on the
    spot with [wrapHandler], and the failure of [micro.AddService] are left
    out. *)
Definition AddService (name : string) (fns : Slice.t) : Service :=
  mkService name fns Slice.nil None.

(** [AddContextService(nc, config, fns...)] *)
Definition AddContextService (name : string) (fns : Slice.t) : Service :=
  mkService name Slice.nil fns None.

(** [return &Service{ svc: s.svc, mw: append(s.mw, fns...), cmw: s.cmw,
     defaultCtx: s.defaultCtx }] *)
Definition Service_WithMiddleware (s : Service) (fns : list MiddlewareFunc)
    (r : Registry) : Service * Registry :=
  let '(mw', h') := Slice.append (mw s) fns (mw_heap r) in
  (mkService (svc s) mw' (cmw s) (defaultCtx s), mkRegistry h' (cmw_heap r)).

Definition Service_Use := Service_WithMiddleware.

(** [return &Service{ svc: s.svc, mw: s.mw, cmw: append(s.cmw, fns...),
     defaultCtx: s.defaultCtx }] *)
Definition Service_WithContextMiddleware (s : Service)
    (fns : list ContextMiddlewareFunc) (r : Registry) : Service * Registry :=
  let '(cmw', h') := Slice.append (cmw s) fns (cmw_heap r) in
  (mkService (svc s) (mw s) cmw' (defaultCtx s), mkRegistry (mw_heap r) h').

Definition Service_UseContext := Service_WithContextMiddleware.

(** [s.svc.AddEndpoint(name, wrapHandler(handler, s.mw...), opts...)]:
    the handler that is registered with the transport. *)
Definition Service_AddEndpoint (s : Service) (handler : Handler)
    (r : Registry) : Handler :=
  wrapHandler handler (chain r s).

(** [s.svc.AddEndpoint(name, wrapContextHandler(s, handler), opts...)] *)
Definition Service_AddContextEndpoint `{GoRelease} (s : Service)
    (handler : ContextHandlerFunc)
    (r : Registry) : Handler :=
  wrapContextHandler r s handler.

(** [grp := s.svc.AddGroup(name, opts...); return &Group{s, grp}] *)
Definition Service_AddGroup (s : Service) (name : string) : Group :=
  mkGroup s [name].

(** [grp := g.grp.AddGroup(name, opts...); return &Group{g.svc, grp}] *)
Definition Group_AddGroup (g : Group) (name : string) : Group :=
  mkGroup (grp_svc g) (grp g ++ [name]).

(** [return &Group{ svc: &Service{ svc: g.svc.svc,
     mw: append(g.svc.mw, fns...), cmw: g.svc.cmw,
     defaultCtx: g.svc.defaultCtx }, grp: g.grp }] *)
Definition Group_WithMiddleware (g : Group) (fns : list MiddlewareFunc)
    (r : Registry) : Group * Registry :=
  let '(mw', h') := Slice.append (mw (grp_svc g)) fns (mw_heap r) in
  (mkGroup (mkService (svc (grp_svc g)) mw' (cmw (grp_svc g)) (defaultCtx (grp_svc g)))
           (grp g),
   mkRegistry h' (cmw_heap r)).

Definition Group_Use := Group_WithMiddleware.

Definition Group_WithContextMiddleware (g : Group)
    (fns : list ContextMiddlewareFunc) (r : Registry) : Group * Registry :=
  let '(cmw', h') := Slice.append (cmw (grp_svc g)) fns (cmw_heap r) in
  (mkGroup (mkService (svc (grp_svc g)) (mw (grp_svc g)) cmw' (defaultCtx (grp_svc g)))
           (grp g),
   mkRegistry (mw_heap r) h').

Definition Group_UseContext := Group_WithContextMiddleware.

(** [g.grp.AddEndpoint(name, wrapHandler(handler, g.svc.mw...), opts...)] *)
Definition Group_AddEndpoint (g : Group) (handler : Handler)
    (r : Registry) : Handler :=
  wrapHandler handler (chain r (grp_svc g)).

(** [g.grp.AddEndpoint(name, wrapContextHandler(g.svc, handler), opts...)] *)
Definition Group_AddContextEndpoint `{GoRelease} (g : Group)
    (handler : ContextHandlerFunc)
    (r : Registry) : Handler :=
  wrapContextHandler r (grp_svc g) handler.

End Accumulation.

(* ===================================================================== *)
(** ** middleware/compression.go *)
(* ===================================================================== *)

(** [MicroHandlerFunc], the handler shape of the micro flavour: its
    declaration is not among the sources at hand; the shape is the one
    [CompressionMiddleware] takes and returns,
    [func(req *MicroRequest) (res *MicroReply, err error)]. A nil reply and a nil
    error are [None]. *)
Definition MicroHandlerFunc : Type := ptr -> M (option ptr * option error).

(** The stream codecs of compress/gzip and compress/flate, as far as the
    middleware uses them: what a writer leaves in the buffer once the data
    is written and the writer closed (or the error either step reports),
    and what reading a stream to its end yields (or the error met). *)
Class Codecs := {
  gzip_Writer : list byte -> result (list byte);
  flate_Writer : list byte -> result (list byte);
  gzip_Reader : list byte -> result (list byte);
  flate_Reader : list byte -> result (list byte)
}.

Module Compression.

Definition CompressionNone : string := "".
Definition CompressionGzip : string := "gzip".
Definition CompressionDeflate : string := "deflate".
Definition HeaderAcceptEncoding : string := "accept-encoding".
Definition HeaderEncoding : string := "encoding".

(** [ErrUnsupportedEncoding = errors.New("unsupported encoding")] *)
Definition ErrUnsupportedEncoding : error := ErrOther "unsupported encoding".

(** [func SetCompressMin(minBytes int) { compressMin = minBytes }] *)
Definition SetCompressMin (minBytes : Z) : M unit :=
  fun s => Ret tt (with_compressMin minBytes s).

(** [func GetCompressMin() int { return compressMin }] *)
Definition GetCompressMin : M Z :=
  fun s => Ret (compressMin s) s.

Section WithCodecs.
Context `{Codecs}.

Definition compressGzip (data : list byte) : result (list byte) :=
  gzip_Writer data.

Definition compressDeflate (data : list byte) : result (list byte) :=
  flate_Writer data.

Definition decompressGzip (data : list byte) : result (list byte) :=
  gzip_Reader data.

Definition decompressDeflate (data : list byte) : result (list byte) :=
  flate_Reader data.

(** [func compressReply(compression CompressionType, reply *MicroReply) error] *)
Definition compressReply (compression : string) (reply : option ptr)
    : M (option error) :=
  p <- of_option reply ;;
  o <- rep_load p ;;
  min <- GetCompressMin ;;
  if decide (Z.of_nat (length (rep_Data o)) < min)%Z then M_ret None
  else if decide (compression = CompressionNone) then M_ret None
  else if decide (compression = CompressionGzip) then
    match compressGzip (rep_Data o) with
    | Err e => M_ret (Some e)
    | Ok compressedData =>
        rep_set_Data p compressedData ;;;
        MicroReply.HeaderSet p HeaderEncoding compression ;;;
        M_ret None
    end
  else if decide (compression = CompressionDeflate) then
    match compressDeflate (rep_Data o) with
    | Err e => M_ret (Some e)
    | Ok compressedData =>
        rep_set_Data p compressedData ;;;
        MicroReply.HeaderSet p HeaderEncoding compression ;;;
        M_ret None
    end
  else M_ret None.

(** [func readCompressedData(encoding string, data []byte) ([]byte, error)] *)
Definition readCompressedData (encoding : string) (data : list byte)
    : result (list byte) :=
  if decide (encoding = "gzip") then decompressGzip data
  else if decide (encoding = "deflate") then decompressDeflate data
  else if decide (0 < String.length encoding) then Err ErrUnsupportedEncoding
  else Ok data.

(** [func decompressRequest(req *MicroRequest) error] *)
Definition decompressRequest (req : ptr) : M (option error) :=
  encoding <- MicroRequest.HeaderGet req HeaderEncoding ;;
  o <- req_load req ;;
  match readCompressedData encoding (req_Data o) with
  | Err e => M_ret (Some e)
  | Ok data => req_set_Data req data ;;; M_ret None
  end.

(** [func CompressionMiddleware(next MicroHandlerFunc) MicroHandlerFunc] *)
Definition CompressionMiddleware (next : MicroHandlerFunc) : MicroHandlerFunc :=
  fun req =>
    e <- decompressRequest req ;;
    match e with
    | Some err => M_ret (None, Some err)
    | None =>
        r <- next req ;;
        match snd r with
        | Some err => M_ret (None, Some err)
        | None =>
            accept <- MicroRequest.HeaderGet req HeaderAcceptEncoding ;;
            e' <- compressReply accept (fst r) ;;
            match e' with
            | Some err => M_ret (None, Some err)
            | None => M_ret (fst r, None)
            end
        end
    end.

End WithCodecs.

End Compression.

(** The handler of the tests and examples:
    [return natsmicromw.NewMicroReply(req.Data), nil]. *)
Definition microEcho : MicroHandlerFunc :=
  fun req =>
    o <- req_load req ;;
    p <- MicroReply.NewMicroReply (req_Data o) ;;
    M_ret (Some p, None).

(** Framed stand-ins for the two codecs, enough to run the middleware: an
    encoder prefixes one format byte, a decoder demands it and fails on
    anything else. *)
Definition frame_encode (tag : byte) (d : list byte) : result (list byte) :=
  Ok (tag :: d).
Definition frame_decode (tag : byte) (msg : string) (d : list byte) : result (list byte) :=
  match d with
  | b :: rest => if Byte.eqb b tag then Ok rest else Err (ErrOther msg)
  | [] => Err (ErrOther "unexpected EOF")
  end.

Definition frame_codecs : Codecs := {|
  gzip_Writer := frame_encode x1f;
  flate_Writer := frame_encode x78;
  gzip_Reader := frame_decode x1f "gzip: invalid header";
  flate_Reader := frame_decode x78 "flate: corrupt input"
|}.

(* ===================================================================== *)
(** ** Instrumented middleware *)
(* ===================================================================== *)

(** A middleware layer given by what it does before and after the next
    link, on a request of type [R]. *)
Record layer (R : Type) := mkLayer {
  pre : R -> M unit;
  post : R -> M unit
}.
Arguments mkLayer {R} pre post.
Arguments pre {R} l r.
Arguments post {R} l r.

(** [func(next micro.Handler) micro.Handler { return micro.HandlerFunc(
     func(req micro.Request) { pre; next.Handle(req); post }) }] *)
Definition onion (l : layer micro_Request) : MiddlewareFunc :=
  fun next req => pre l req ;;; next req ;;; post l req.

(** [func(next ContextHandlerFunc) ContextHandlerFunc { return
     func(req *Request) error { pre; err := next(req); post; return err } }] *)
Definition onion_ctx (l : layer ptr) : ContextMiddlewareFunc :=
  fun next req => pre l req ;;; err <- next req ;; post l req ;;; M_ret err.

(** The computations of a list, one after the other. *)
Fixpoint seqM (cs : list (M unit)) : M unit :=
  match cs with
  | [] => M_ret tt
  | c :: cs' => c ;;; seqM cs'
  end.

(** A layer that leaves a mark on entry and one on exit. *)
Definition marking {R} (name : string) : layer R :=
  mkLayer (fun _ => emit (EvMark (name +:+ "-pre")))
          (fun _ => emit (EvMark (name +:+ "-post"))).

(** What the dispatcher does with the error that the context chain
    returned. *)
Definition report `{GoRelease} (req : micro_Request) (err : option error) : M unit :=
  match err with
  | Some e =>
      handlerErr <- normalise e ;;
      v <- of_option handlerErr ;;
      micro_Error req (Code v) (Description v) (Json.MarshalPtr handlerErr)
  | None => M_ret tt
  end.

(** The request object that the dispatcher allocates for a delivery. *)
Definition dispatch_request (d : option context_Context) (req : micro_Request)
    : Request :=
  mkRequest req (Some (match d with Some c => c | None => Background end)).

(* ===================================================================== *)
(** ** Notions used in the statements *)
(* ===================================================================== *)

(** A slice header fits the heap: it is the nil slice, or its array exists
    with at least [len] cells written. *)
Definition slice_wf {A} (h : Slice.heap A) (s : Slice.t) : Prop :=
  (Slice.len s = 0 /\ Slice.cap s = 0)
  \/ exists cells, h !! Slice.array s = Some cells /\ Slice.len s <= length cells.

(** Registration in several calls: [s.Use(fns0...).Use(fns1...)...], each
    call on the service the call before returned. *)
Fixpoint register_all `{Runtime} (s : Service) (batches : list (list MiddlewareFunc))
    (r : Registry) : Service * Registry :=
  match batches with
  | [] => (s, r)
  | fns :: rest =>
      register_all (fst (Service_Use s fns r)) rest (snd (Service_Use s fns r))
  end.

Fixpoint register_all_context `{Runtime} (s : Service)
    (batches : list (list ContextMiddlewareFunc)) (r : Registry) : Service * Registry :=
  match batches with
  | [] => (s, r)
  | fns :: rest =>
      register_all_context (fst (Service_UseContext s fns r)) rest
                           (snd (Service_UseContext s fns r))
  end.

Definition go_runtime : Runtime := {| growcap := go_growcap |}.
Definition exact_runtime : Runtime := {| growcap := exact_growcap |}.

Definition empty_registry : Registry := mkRegistry [] [].

(** The marks in the trace of an outcome, and the store it ends in. *)
Definition marks_of {A} (o : outcome A) : list string :=
  match o with
  | Ret _ s =>
      omap (fun e => match e with EvMark l => Some l | _ => None end) (trace s)
  | Panic => []
  end.

Definition final_store {A} (o : outcome A) (otherwise : Store) : Store :=
  match o with
  | Ret _ s => s
  | Panic => otherwise
  end.



(** The store in which the dispatcher calls the context chain: the request
    object of the delivery is allocated at the next free address. *)
Definition dispatch_store (d : option context_Context) (req : micro_Request)
    (s : Store) : Store :=
  with_requests (fun l => l ++ [dispatch_request d req]) s.

(** The object that [WithContext] allocates, for the two request types. *)
Definition Request_derived (o : Request) (ctx : option context_Context) : Request :=
  mkRequest (Request_Request o) ctx.
Definition MicroRequest_derived (o : MicroRequest) (ctx : option context_Context)
    : MicroRequest :=
  mkMicroRequest (req_Subject o) (req_Reply o) (req_Headers o) (req_Data o) ctx.

(** Objects after the assignment of their [Headers] field, and of their
    [Data] field. *)
Definition req_with_Headers (o : MicroRequest) (h : option mapref) : MicroRequest :=
  mkMicroRequest (req_Subject o) (req_Reply o) h (req_Data o) (req_ctx o).
Definition rep_with_Headers (o : MicroReply) (h : option mapref) : MicroReply :=
  mkMicroReply h (rep_Data o).
Definition req_with_Data (o : MicroRequest) (d : list byte) : MicroRequest :=
  mkMicroRequest (req_Subject o) (req_Reply o) (req_Headers o) d (req_ctx o).
Definition rep_with_Data (o : MicroReply) (d : list byte) : MicroReply :=
  mkMicroReply (rep_Headers o) d.

(** The store after [req.Data = d]. *)
Definition decoded (req : ptr) (o : MicroRequest) (d : list byte) (s : Store) : Store :=
  with_mrequests (fun l => <[req := req_with_Data o d]> l) s.

(** The header map of a reply, when it has one, exists in the store. *)
Definition reply_headers_ok (po : MicroReply) (s : Store) : Prop :=
  match rep_Headers po with
  | Some h => is_Some (hmaps s !! h)
  | None => True
  end.

(* ===================================================================== *)
(** ** Scenarios *)
(* ===================================================================== *)

(** *** Chains and errors *)

(** A delivery to test with. *)
Definition a_request : micro_Request := mkMicroReq "grp.echo" "_INBOX.1" None [].

(** Terminal handlers that leave the mark [H]. *)
Definition marking_handler : Handler := fun _ => emit (EvMark "H").
Definition marking_ctx_handler : ContextHandlerFunc :=
  fun _ => emit (EvMark "H") ;;; M_ret None.



(** *** Siblings *)

(** A service that registered three middleware with three calls of [Use],
    and a group of it. The slice grows through the capacities 1, 2 and 4,
    which the size classes of the allocator leave as they are for the
    8-byte function values of a middleware slice. *)
Definition three_uses : Service * Registry :=
  let '(s1, r1) :=
    Service_Use (H := go_runtime) (AddService "svc" Slice.nil) [onion (marking "m1")]
                empty_registry in
  let '(s2, r2) := Service_Use (H := go_runtime) s1 [onion (marking "m2")] r1 in
  Service_Use (H := go_runtime) s2 [onion (marking "m3")] r2.

Definition parent_group : Group := Service_AddGroup (fst three_uses) "grp".

(** Two children of that group, the one with middleware [a] derived
    first. *)
Definition child_a : Group * Registry :=
  Group_Use (H := go_runtime) parent_group [onion (marking "a")] (snd three_uses).
Definition child_b : Group * Registry :=
  Group_Use (H := go_runtime) parent_group [onion (marking "b")] (snd child_a).

(** The same on a slice that the caller of [AddService] made with room to
    spare, [make([]MiddlewareFunc, 1, 2)] holding m1, under the least
    growth the language allows: two services derived from it. *)
Definition spare_registry : Registry :=
  mkRegistry [[onion (marking "m1")]] [].
Definition spare_service : Service := AddService "svc" (Slice.mk 0 1 2).
Definition spare_child_a : Service * Registry :=
  Service_Use (H := exact_runtime) spare_service [onion (marking "a")] spare_registry.
Definition spare_child_b : Service * Registry :=
  Service_Use (H := exact_runtime) spare_service [onion (marking "b")] (snd spare_child_a).

(** The context flavour: three calls of [UseContext], then two children. *)
Definition three_context_uses : Service * Registry :=
  let '(s1, r1) :=
    Service_UseContext (H := go_runtime) (AddContextService "svc" Slice.nil)
                       [onion_ctx (marking "m1")] empty_registry in
  let '(s2, r2) := Service_UseContext (H := go_runtime) s1 [onion_ctx (marking "m2")] r1 in
  Service_UseContext (H := go_runtime) s2 [onion_ctx (marking "m3")] r2.
Definition context_child_a : Service * Registry :=
  Service_UseContext (H := go_runtime) (fst three_context_uses)
                     [onion_ctx (marking "a")] (snd three_context_uses).
Definition context_child_b : Service * Registry :=
  Service_UseContext (H := go_runtime) (fst three_context_uses)
                     [onion_ctx (marking "b")] (snd context_child_a).

(** *** Envelopes *)

(** A store with one request of each type, both holding the context
    [ctx0], and two contexts to attach. *)
Definition ctx0 : option context_Context := Some Background.
Definition ctx1 : option context_Context := Some (WithValue Background "key1" "value1").
Definition ctx_store : Store :=
  mkStore [] [mkRequest a_request ctx0]
          [mkMicroRequest "grp.echo" "_INBOX.1" None [] ctx0] [] 1000 [].


(** *** Deliveries to run the compression middleware on *)

(** A store with one request (at address 0) with the given headers and
    payload, and the default threshold. *)
Definition one_request (headers : Header.t) (data : list byte) : Store :=
  mkStore [headers] [] [mkMicroRequest "foo" "_INBOX.1" (Some 0) data None] [] 1000 [].

(** Ten bytes, and accept-encoding gzip. *)
Definition small_store : Store :=
  one_request {["accept-encoding" := ["gzip"]]} (repeat x64 10).

(** The request of the mismatch test: 2000 bytes in the gzip frame, declared
    as gzip, with the reply wanted in deflate. *)
Definition mismatch_store : Store :=
  one_request {["encoding" := ["gzip"]; "accept-encoding" := ["deflate"]]}
              (x1f :: repeat x64 2000).

(** An encoding that is neither gzip nor deflate. *)
Definition bzip2_store : Store :=
  one_request {["encoding" := ["bzip2"]]} (repeat x64 2000).

(** A payload declared as gzip that the gzip decoder rejects. *)
Definition corrupt_store : Store :=
  one_request {["encoding" := ["gzip"]]} (repeat x64 2000).

(** 2000 plain bytes whose reply is wanted in deflate, and in bzip2. *)
Definition accept_deflate_store : Store :=
  one_request {["accept-encoding" := ["deflate"]]} (repeat x64 2000).
Definition accept_bzip2_store : Store :=
  one_request {["accept-encoding" := ["bzip2"]]} (repeat x64 2000).

(** A next link that must not run. *)
Definition unreachable_handler : MicroHandlerFunc := fun _ => M_panic.

(** A next link that changes the request it was given before it echoes:
    [req.HeaderSet("accept-encoding", "gzip");
     return NewMicroReply(req.Data), nil]. *)
Definition rewriting_handler : MicroHandlerFunc :=
  fun req =>
    MicroRequest.HeaderSet req "accept-encoding" "gzip" ;;;
    microEcho req.

(* ===================================================================== *)
(** ** middleware/requestid.go *)
(* ===================================================================== *)

(** [xid.New().String()] of github.com/rs/xid: the generator of request
    identifiers, a computation of the run-time that the middleware calls
    at most once per delivery. *)
Class IdSource := { xid_New : M string }.

Module RequestId.

(** [type requestIdContextKey struct{}]: the key under which the
    identifier is bound in the context. A value of this unexported type
    equals no key of another package; here it is a name kept for it. *)
Definition requestIdContextKey : string := "middleware.requestIdContextKey{}".

(** [[]string{"request_id", "Request_id", "Request_Id", "REQUEST_ID"}] *)
Definition defaultTags : list string :=
  ["request_id"; "Request_id"; "Request_Id"; "REQUEST_ID"].

(** [req.Headers().Get(tag)] on a [*Request]: the headers of the
    transport's request, read as the library reads a header map. *)
Definition Headers_Get (req : ptr) (tag : string) : M string :=
  o <- request_load req ;;
  match micro_Headers (Request_Request o) with
  | None => M_ret ""
  | Some h => m <- map_load h ;; of_option (Header.Get m tag)
  end.

(** [for _, tag := range tags { requestId = req.Headers().Get(tag);
     if requestId != "" { break } }], from the value [requestId] holds
    before the loop. *)
Fixpoint scanTags (req : ptr) (tags : list string) (requestId : string) : M string :=
  match tags with
  | [] => M_ret requestId
  | tag :: rest =>
      v <- Headers_Get req tag ;;
      if decide (v <> "") then M_ret v else scanTags req rest v
  end.

Section WithIdSource.
Context `{IdSource}.

(** [func RequestIdMiddleware(tags ...string)
     func(next ContextHandlerFunc) ContextHandlerFunc];
    [context.WithValue] panics on a nil parent. *)
Definition RequestIdMiddleware (tags : list string) : ContextMiddlewareFunc :=
  fun next =>
    let tags := if decide (length tags = 0) then defaultTags else tags in
    fun req =>
      requestId <- scanTags req tags "" ;;
      requestId <- (if decide (String.length requestId = 0) then xid_New
                    else M_ret requestId) ;;
      parent <- Request.Context req ;;
      parent <- of_option parent ;;
      let ctx := WithValue parent requestIdContextKey requestId in
      req' <- Request.WithContext req (Some ctx) ;;
      next req'.

End WithIdSource.

(** [requestId, ok := ctx.Value(requestIdContextKey{}).(string);
     if !ok { return "" }; return requestId] *)
Definition RequestIdFromContext (ctx : context_Context) : string :=
  match context_Value ctx requestIdContextKey with
  | Some requestId => requestId
  | None => ""
  end.

End RequestId.

(* ===================================================================== *)
(** ** The content change middleware of the example service *)
(* ===================================================================== *)

(** [[]byte("Hello from Middleware: ")] *)
Definition contentPrefix : list byte := list_byte_of_string "Hello from Middleware: ".

(** [res, err := next(req); if err != nil { return res, err };
     res.Data = append([]byte("Hello from Middleware: "), res.Data...);
     return res, err] *)
Definition ContentChangeMiddleware (next : MicroHandlerFunc) : MicroHandlerFunc :=
  fun req =>
    r <- next req ;;
    match snd r with
    | Some err => M_ret (fst r, Some err)
    | None =>
        res <- of_option (fst r) ;;
        o <- rep_load res ;;
        rep_set_Data res (contentPrefix ++ rep_Data o) ;;;
        M_ret (fst r, None)
    end.

(* ===================================================================== *)
(** ** Further notions and scenarios *)
(* ===================================================================== *)

(** *** Header maps behind the envelopes *)

(** The header map of a request, when it has one, exists in the store. *)
Definition request_headers_ok (o : MicroRequest) (s : Store) : Prop :=
  match req_Headers o with
  | Some h => is_Some (hmaps s !! h)
  | None => True
  end.

(** The contents of the header map of a request and of a reply; a nil map
    reads as the empty one. *)
Definition request_headers (o : MicroRequest) (s : Store) : Header.t :=
  match req_Headers o with
  | Some h => default ∅ (hmaps s !! h)
  | None => ∅
  end.
Definition reply_headers (po : MicroReply) (s : Store) : Header.t :=
  match rep_Headers po with
  | Some h => default ∅ (hmaps s !! h)
  | None => ∅
  end.

(** A store with a request whose header map holds two keys, one of them
    with two values, and a reply with a map of its own. *)
Definition envelope_store : Store :=
  mkStore [{["encoding" := ["gzip"]; "trace" := ["t1"; "t2"]]}; {["encoding" := ["deflate"]]}]
          []
          [mkMicroRequest "foo" "_INBOX.1" (Some 0) [] None]
          [mkMicroReply (Some 1) []] 1000 [].

(** A service on a caller's slice of one middleware and capacity one,
    and the two services derived from it. *)
Definition full_service : Service := AddService "svc" (Slice.mk 0 1 1).
Definition full_child_a : Service * Registry :=
  Service_Use (H := exact_runtime) full_service [onion (marking "a")] spare_registry.
Definition full_child_b : Service * Registry :=
  Service_Use (H := exact_runtime) full_service [onion (marking "b")] (snd full_child_a).

(** A delivery whose transport request holds the first header map of
    [envelope_store]. *)
Definition transport_request : micro_Request := mkMicroReq "foo" "_INBOX.1" (Some 0) [].

(** *** Handlers of the micro flavour *)

(** A handler that answers with the headers of the request:
    [return NewMicroReplyFromRequest(req.Data, req), nil]. *)
Definition echoWithHeaders : MicroHandlerFunc :=
  fun req =>
    o <- req_load req ;;
    p <- MicroReply.NewMicroReplyFromRequest (req_Data o) req ;;
    M_ret (Some p, None).

(** A handler that makes a reply of 2000 bytes and returns it together
    with an error. *)
Definition failing_handler : MicroHandlerFunc :=
  fun _ =>
    p <- MicroReply.NewMicroReply (repeat x64 2000) ;;
    M_ret (Some p, Some (ErrOther "request failed")).

(** A handler that returns neither a reply nor an error. *)
Definition silent_handler : MicroHandlerFunc := fun _ => M_ret (None, None).

(** Codecs whose writers fail. *)
Definition failing_codecs : Codecs := {|
  gzip_Writer := fun _ => Err (ErrOther "gzip: write failed");
  flate_Writer := fun _ => Err (ErrOther "flate: write failed");
  gzip_Reader := frame_decode x1f "gzip: invalid header";
  flate_Reader := frame_decode x78 "flate: corrupt input"
|}.

(** The request of the mismatch test without the accept-encoding header. *)
Definition gzip_store : Store :=
  one_request {["encoding" := ["gzip"]]} (x1f :: repeat x64 2000).

(** *** Request identifiers *)

(** A generator that hands out one identifier. *)
Definition fixed_ids : IdSource := {| xid_New := M_ret "9m4e2mr0ui3e8a215n4g" |}.

(** A delivery whose headers hold an identifier under the third of the
    default tags, wrapped by the dispatcher with the background context. *)
Definition request_id_store : Store :=
  mkStore [{["Request_Id" := ["abc-123"]]}]
          [mkRequest (mkMicroReq "foo" "_INBOX.1" (Some 0) []) (Some Background)]
          [] [] 1000 [].

(** The handler of the request id tests, which reads the identifier from
    the context of its request; here it leaves it as a mark. Calling
    [Value] on a nil context panics. *)
Definition id_marking_handler : ContextHandlerFunc :=
  fun req =>
    c <- Request.Context req ;;
    ctx <- of_option c ;;
    emit (EvMark (RequestId.RequestIdFromContext ctx)) ;;;
    M_ret None.

(** What the headers of a delivery read under a tag: [req.Headers().Get(tag)]
    on the transport's request, [None] where the library panics. *)
Definition transport_header (req : micro_Request) (tag : string) (s : Store)
    : option string :=
  match micro_Headers req with
  | None => Some ""
  | Some h => match hmaps s !! h with
              | Some m => Header.Get m tag
              | None => None
              end
  end.

(* ===================================================================== *)
(** ** What the error payload is to be: a JSON text that decodes to the pair *)
(* ===================================================================== *)


(** A reader of JSON strings after RFC 8259, section 7, written from the
    grammar and not from the encoder: it is what a caller uses to take the
    payload apart. *)
Module JsonSpec.

(** [HEXDIG], in either case. *)
Definition hex_value (c : ascii) : option N :=
  let b := N_of_ascii c in
  if (48 <=? b)%N && (b <=? 57)%N then Some (b - 48)%N
  else if (97 <=? b)%N && (b <=? 102)%N then Some (b - 87)%N
  else if (65 <=? b)%N && (b <=? 70)%N then Some (b - 55)%N
  else None.

Definition hex4 (h1 h2 h3 h4 : ascii) : option N :=
  match hex_value h1, hex_value h2, hex_value h3, hex_value h4 with
  | Some a, Some b, Some c, Some d => Some (a * 4096 + b * 256 + c * 16 + d)%N
  | _, _, _, _ => None
  end.

(** The UTF-8 form (RFC 3629) of a code point of the basic plane. A
    [\uXXXX] escape that names a surrogate is half of a pair; pairs are
    left undecoded. *)
Definition utf8_encode (cp : N) : option string :=
  if (cp <? 128)%N then Some (String (ascii_of_N cp) EmptyString)
  else if (cp <? 2048)%N then
    Some (String (ascii_of_N (192 + cp / 64))
            (String (ascii_of_N (128 + cp mod 64)) EmptyString))
  else if (55296 <=? cp)%N && (cp <=? 57343)%N then None
  else
    Some (String (ascii_of_N (224 + cp / 4096))
            (String (ascii_of_N (128 + (cp / 64) mod 64))
               (String (ascii_of_N (128 + cp mod 64)) EmptyString))).

(** [*char quotation-mark]: the characters of a string after its opening
    quote, up to the closing quote, which must end the text. An unescaped
    character is any byte from 0x20 on but the quote and the backslash;
    an escape is a backslash and one of the eight letters, or [u] and
    four hexadecimal digits. *)
Fixpoint chars (s : string) : option string :=
  match s with
  | EmptyString => None
  | String c rest =>
      let b := N_of_ascii c in
      if (b =? 34)%N then
        match rest with EmptyString => Some EmptyString | _ => None end
      else if (b =? 92)%N then
        match rest with
        | EmptyString => None
        | String e rest1 =>
            let one (x : N) := option_map (String (ascii_of_N x)) (chars rest1) in
            let k := N_of_ascii e in
            if (k =? 34)%N then one 34%N
            else if (k =? 92)%N then one 92%N
            else if (k =? 47)%N then one 47%N
            else if (k =? 98)%N then one 8%N
            else if (k =? 102)%N then one 12%N
            else if (k =? 110)%N then one 10%N
            else if (k =? 114)%N then one 13%N
            else if (k =? 116)%N then one 9%N
            else if (k =? 117)%N then
              match rest1 with
              | String h1 (String h2 (String h3 (String h4 rest2))) =>
                  match hex4 h1 h2 h3 h4 with
                  | Some cp =>
                      match utf8_encode cp with
                      | Some bytes => option_map (String.append bytes) (chars rest2)
                      | None => None
                      end
                  | None => None
                  end
              | _ => None
              end
            else None
        end
      else if (b <? 32)%N then None
      else option_map (String c) (chars rest)
  end.

(** [string = quotation-mark *char quotation-mark]: the text a JSON
    string stands for. *)
Definition string_value (literal : string) : option string :=
  match literal with
  | String q body => if (N_of_ascii q =? 34)%N then chars body else None
  | EmptyString => None
  end.




End JsonSpec.


(** A description that needs escapes: a quote, a backslash, a line feed,
    a backspace and an ampersand among letters. *)
Definition awkward_description : string :=
  String "a" (String Json.dquote (String Json.backslash (String (ascii_of_nat 10)
    (String (ascii_of_nat 8) (String "&" (String "z" EmptyString)))))).


(* ===================================================================== *)
(** * Properties *)
(* ===================================================================== *)

(** ** The outcome monad *)

Lemma M_bind_ext {A B} (c c' : M A) (k k' : A -> M B) s :
  c s = c' s ->
  (forall a s', k a s' = k' a s') ->
  M_bind c k s = M_bind c' k' s.
Proof.
  intros Hc Hk. unfold M_bind. rewrite Hc.
  destruct (c' s); [apply Hk | reflexivity].
Qed.

Lemma M_bind_assoc {A B C} (c : M A) (k : A -> M B) (k' : B -> M C) s :
  M_bind (M_bind c k) k' s = M_bind c (fun a => M_bind (k a) k') s.
Proof. unfold M_bind. destruct (c s); reflexivity. Qed.

Lemma M_bind_ret_l {A B} (a : A) (k : A -> M B) s :
  M_bind (M_ret a) k s = k a s.
Proof. reflexivity. Qed.

Lemma M_bind_ret_r (c : M unit) s :
  M_bind c (fun _ => M_ret tt) s = c s.
Proof. unfold M_bind, M_ret. destruct (c s) as [[] ?|]; reflexivity. Qed.

Lemma seqM_app (cs ds : list (M unit)) s :
  seqM (cs ++ ds) s = M_bind (seqM cs) (fun _ => seqM ds) s.
Proof.
  revert s. induction cs as [|c cs IH]; intros s; simpl.
  - reflexivity.
  - rewrite M_bind_assoc. apply M_bind_ext; [reflexivity | intros _ s'; apply IH].
Qed.

(** ** Lists as heaps: the cell just allocated *)

Lemma lookup_snoc {A} (l : list A) (x : A) : (l ++ [x]) !! length l = Some x.
Proof. rewrite lookup_app_r by lia. rewrite Nat.sub_diag. reflexivity. Qed.

Lemma insert_snoc {A} (l : list A) (x y : A) : <[length l := y]> (l ++ [x]) = l ++ [y].
Proof.
  rewrite insert_app_r_alt by lia. rewrite Nat.sub_diag. reflexivity.
Qed.

Lemma lookup_snoc_old {A} (l : list A) (x : A) i :
  i < length l -> (l ++ [x]) !! i = l !! i.
Proof. intros Hi. apply lookup_app_l, Hi. Qed.

(** ** The fold of the chain builder *)

Lemma wrap_loop_prefix {H : Type} (ms rest : list (H -> H)) n (acc : H) :
  n <= length ms ->
  wrap_loop (ms ++ rest) n acc = wrap_loop ms n acc.
Proof.
  revert acc. induction n as [|n IH]; intros acc Hn; simpl; [reflexivity|].
  rewrite lookup_app_l by lia.
  destruct (ms !! n) eqn:E; [apply IH; lia | reflexivity].
Qed.

(** The loop is the right-to-left fold: the last middleware wraps the
    handler first. *)
Lemma wrap_loop_foldr {H : Type} (ms : list (H -> H)) (h : H) :
  wrap_loop ms (length ms) h = foldr (fun m acc => m acc) h ms.
Proof.
  revert h. induction ms as [|m ms IH] using rev_ind; intros h; [reflexivity|].
  rewrite length_app, Nat.add_comm. simpl.
  rewrite lookup_app_r by lia. rewrite Nat.sub_diag. simpl.
  rewrite wrap_loop_prefix by lia. rewrite IH, foldr_app. reflexivity.
Qed.

(** The first middleware of the sequence is the outermost wrapper. *)
Lemma wrap_loop_cons {H : Type} (m : H -> H) (ms : list (H -> H)) (h : H) :
  wrap_loop (m :: ms) (length (m :: ms)) h = m (wrap_loop ms (length ms) h).
Proof. rewrite !wrap_loop_foldr. reflexivity. Qed.

Lemma wrapHandler_cons (handler : Handler) m ms :
  wrapHandler handler (m :: ms) = m (wrapHandler handler ms).
Proof. apply wrap_loop_cons. Qed.

Lemma wrapHandler_onion (handler : Handler) (ls : list (layer micro_Request)) req s :
  wrapHandler handler (map onion ls) req s =
  (seqM (map (fun l => pre l req) ls) ;;;
   handler req ;;;
   seqM (map (fun l => post l req) (rev ls))) s.
Proof.
  revert s. induction ls as [|l ls IH]; intros s.
  - simpl. unfold wrapHandler. simpl.
    rewrite M_bind_ret_l. symmetry. apply M_bind_ret_r.
  - simpl map at 1. rewrite wrapHandler_cons. unfold onion at 1. simpl.
    rewrite M_bind_assoc. apply M_bind_ext; [reflexivity|]. intros _ s1.
    rewrite map_app. simpl.
    transitivity (M_bind (seqM (map (fun l0 => pre l0 req) ls) ;;;
                          handler req ;;;
                          seqM (map (fun l0 => post l0 req) (rev ls)))
                         (fun _ => post l req) s1).
    { apply M_bind_ext; [apply IH | reflexivity]. }
    rewrite M_bind_assoc. apply M_bind_ext; [reflexivity|]. intros _ s2.
    rewrite M_bind_assoc. apply M_bind_ext; [reflexivity|]. intros _ s3.
    rewrite seqM_app. apply M_bind_ext; [reflexivity|]. intros _ s4.
    simpl. symmetry. apply M_bind_ret_r.
Qed.

Lemma wrap_loop_ctx_cons (handler : ContextHandlerFunc)
    (m : ContextMiddlewareFunc) (ms : list ContextMiddlewareFunc) :
  wrap_loop (m :: ms) (length (m :: ms)) handler = m (wrap_loop ms (length ms) handler).
Proof. apply (wrap_loop_cons m ms handler). Qed.

Lemma wrap_loop_onion_ctx (handler : ContextHandlerFunc) (ls : list (layer ptr)) req s :
  wrap_loop (map onion_ctx ls) (length (map onion_ctx ls)) handler req s =
  (seqM (map (fun l => pre l req) ls) ;;;
   err <- handler req ;;
   seqM (map (fun l => post l req) (rev ls)) ;;;
   M_ret err) s.
Proof.
  revert s. induction ls as [|l ls IH]; intros s.
  - simpl. rewrite M_bind_ret_l. unfold M_bind, M_ret.
    destruct (handler req s); reflexivity.
  - simpl map at 1 2. rewrite wrap_loop_ctx_cons. unfold onion_ctx at 1. simpl.
    rewrite M_bind_assoc. apply M_bind_ext; [reflexivity|]. intros _ s1.
    rewrite map_app. simpl.
    transitivity (M_bind (seqM (map (fun l0 => pre l0 req) ls) ;;;
                          err <- handler req ;;
                          seqM (map (fun l0 => post l0 req) (rev ls)) ;;;
                          M_ret err)
                         (fun err => post l req ;;; M_ret err) s1).
    { apply M_bind_ext; [apply IH | reflexivity]. }
    rewrite M_bind_assoc. apply M_bind_ext; [reflexivity|]. intros _ s2.
    rewrite M_bind_assoc. apply M_bind_ext; [reflexivity|]. intros err s3.
    rewrite M_bind_assoc.
    transitivity (M_bind (seqM (map (fun l0 => post l0 req) (rev ls)))
                         (fun _ => post l req ;;; M_ret err) s3).
    { apply M_bind_ext; [reflexivity | intros; reflexivity]. }
    symmetry.
    transitivity (M_bind (seqM (map (fun l0 => post l0 req) (rev ls)) ;;;
                          post l req ;;; M_ret tt) (fun _ => M_ret err) s3).
    { apply M_bind_ext; [apply seqM_app | reflexivity]. }
    rewrite M_bind_assoc. apply M_bind_ext; [reflexivity|]. intros _ s4.
    rewrite M_bind_assoc. apply M_bind_ext; [reflexivity|]. intros _ s5.
    reflexivity.
Qed.

(** ** Slices *)

Lemma write_length {A} at_ (xs cells : list A) :
  at_ <= length cells ->
  length (Slice.write at_ xs cells) = Nat.max (length cells) (at_ + length xs).
Proof.
  intros Hle. unfold Slice.write.
  rewrite !length_app, length_take, length_drop. lia.
Qed.

Lemma write_nothing {A} at_ (cells : list A) : Slice.write at_ [] cells = cells.
Proof. unfold Slice.write. simpl. rewrite Nat.add_0_r. apply take_drop. Qed.

Lemma write_take_before {A} at_ n (xs cells : list A) :
  n <= at_ -> at_ <= length cells ->
  take n (Slice.write at_ xs cells) = take n cells.
Proof.
  intros Hn Hle. unfold Slice.write.
  rewrite take_app_le by (rewrite length_take; lia).
  rewrite take_take. f_equal. lia.
Qed.

Lemma write_take_through {A} at_ (xs cells : list A) :
  at_ <= length cells ->
  take (at_ + length xs) (Slice.write at_ xs cells) = take at_ cells ++ xs.
Proof.
  intros Hle. unfold Slice.write.
  rewrite app_assoc.
  rewrite take_app_le by (rewrite length_app, length_take; lia).
  apply take_ge. rewrite length_app, length_take. lia.
Qed.

(** Appending nothing within the capacity changes no array. *)
Lemma alter_write_nothing {A} at_ i (h : Slice.heap A) :
  alter (Slice.write at_ []) i h = h.
Proof. apply list_alter_id. intros cells. apply write_nothing. Qed.

Lemma fits_nil {A} (s : Slice.t) (xs : list A) :
  Slice.len s = 0 -> Slice.cap s = 0 ->
  Slice.len s + length xs <= Slice.cap s -> xs = [].
Proof. intros Hl Hc Hfit. destruct xs; [reflexivity | simpl in Hfit; lia]. Qed.

(** The slice that [append] returns holds the elements of its argument
    followed by the new ones. *)
Lemma append_view `{Runtime} {A} (s : Slice.t) (xs : list A) (h : Slice.heap A) :
  slice_wf h s ->
  Slice.view (snd (Slice.append s xs h)) (fst (Slice.append s xs h))
  = Slice.view h s ++ xs.
Proof.
  intros Hwf. unfold Slice.append.
  destruct (decide (Slice.len s + length xs <= Slice.cap s)) as [Hfit|Hgrow]; simpl.
  - destruct Hwf as [[Hl0 Hc0]|(cells & Hc & Hw)].
    + rewrite (fits_nil s xs Hl0 Hc0 Hfit).
      unfold Slice.view. simpl. rewrite Hl0. reflexivity.
    + unfold Slice.view. simpl.
      rewrite list_lookup_alter_eq, Hc. simpl.
      apply write_take_through. exact Hw.
  - unfold Slice.view at 1. simpl.
    rewrite lookup_app_r by lia. rewrite Nat.sub_diag. simpl.
    apply take_ge. rewrite length_app.
    unfold Slice.view. rewrite length_take.
    destruct Hwf as [[Hl0 Hc0]|(cells & Hc & Hw)].
    + rewrite Hl0. simpl. lia.
    + rewrite Hc. simpl. lia.
Qed.

(** [append] never changes what its argument holds. *)
Lemma append_keeps_argument `{Runtime} {A} (s : Slice.t) (xs : list A) (h : Slice.heap A) :
  slice_wf h s ->
  Slice.view (snd (Slice.append s xs h)) s = Slice.view h s.
Proof.
  intros Hwf. unfold Slice.append.
  destruct (decide (Slice.len s + length xs <= Slice.cap s)) as [Hfit|Hgrow]; simpl.
  - unfold Slice.view.
    destruct Hwf as [[Hl0 Hc0]|(cells & Hc & Hw)].
    + rewrite Hl0. reflexivity.
    + rewrite list_lookup_alter_eq, Hc. simpl.
      apply write_take_before; lia.
  - unfold Slice.view.
    destruct Hwf as [[Hl0 Hc0]|(cells & Hc & Hw)].
    + rewrite Hl0. reflexivity.
    + rewrite lookup_app_l by (apply lookup_lt_Some in Hc; lia). reflexivity.
Qed.

(** Another slice is left as it was when it points into another array,
    when it is no longer than the argument, or when [append] had to
    reallocate. *)
Lemma append_keeps_other `{Runtime} {A} (s s0 : Slice.t) (xs : list A) (h : Slice.heap A) :
  slice_wf h s -> slice_wf h s0 ->
  Slice.array s0 <> Slice.array s \/ Slice.len s0 <= Slice.len s
  \/ Slice.cap s < Slice.len s + length xs ->
  Slice.view (snd (Slice.append s xs h)) s0 = Slice.view h s0.
Proof.
  intros Hwf Hwf0 Hsep. unfold Slice.append.
  destruct (decide (Slice.len s + length xs <= Slice.cap s)) as [Hfit|Hgrow]; simpl.
  - destruct Hwf as [[Hl0 Hc0]|(cells & Hc & Hw)].
    + rewrite (fits_nil s xs Hl0 Hc0 Hfit), alter_write_nothing. reflexivity.
    + unfold Slice.view.
      destruct (decide (Slice.array s0 = Slice.array s)) as [Heq|Hne].
      * rewrite Heq, list_lookup_alter_eq, Hc. simpl.
        destruct Hsep as [Hne|[Hshort|Hbig]]; [congruence | | lia].
        apply write_take_before; lia.
      * rewrite list_lookup_alter_ne by congruence. reflexivity.
  - unfold Slice.view.
    destruct Hwf0 as [[Hl0 Hc0]|(cells & Hc & Hw)].
    + rewrite Hl0. reflexivity.
    + rewrite lookup_app_l by (apply lookup_lt_Some in Hc; lia). reflexivity.
Qed.

(** The slice that [append] returns fits the new heap, and so does every
    slice that fitted the old one. *)
Lemma append_wf `{Runtime} {A} (s : Slice.t) (xs : list A) (h : Slice.heap A) :
  slice_wf h s ->
  slice_wf (snd (Slice.append s xs h)) (fst (Slice.append s xs h)).
Proof.
  intros Hwf. unfold Slice.append.
  destruct (decide (Slice.len s + length xs <= Slice.cap s)) as [Hfit|Hgrow]; simpl.
  - destruct Hwf as [[Hl0 Hc0]|(cells & Hc & Hw)].
    + left. simpl. rewrite (fits_nil s xs Hl0 Hc0 Hfit). simpl. lia.
    + right. exists (Slice.write (Slice.len s) xs cells). simpl.
      rewrite list_lookup_alter_eq, Hc. split; [reflexivity|].
      rewrite write_length by exact Hw. lia.
  - right. exists (Slice.view h s ++ xs). simpl.
    split; [apply lookup_snoc|].
    rewrite length_app. unfold Slice.view. rewrite length_take.
    destruct Hwf as [[Hl0 Hc0]|(cells & Hc & Hw)].
    + rewrite Hl0. simpl. lia.
    + rewrite Hc. simpl. lia.
Qed.

Lemma append_wf_other `{Runtime} {A} (s s0 : Slice.t) (xs : list A) (h : Slice.heap A) :
  slice_wf h s -> slice_wf h s0 ->
  slice_wf (snd (Slice.append s xs h)) s0.
Proof.
  intros Hwf Hwf0. destruct Hwf0 as [Hnil|(cells0 & Hc0 & Hw0)]; [left; exact Hnil|].
  right. unfold Slice.append.
  destruct (decide (Slice.len s + length xs <= Slice.cap s)) as [Hfit|Hgrow]; simpl.
  - destruct (decide (Slice.array s0 = Slice.array s)) as [Heq|Hne].
    + destruct Hwf as [[Hl0 Hcap0]|(cells & Hc & Hw)].
      * rewrite (fits_nil s xs Hl0 Hcap0 Hfit), alter_write_nothing.
        exists cells0. split; assumption.
      * exists (Slice.write (Slice.len s) xs cells0).
        rewrite Heq, list_lookup_alter_eq. rewrite Heq in Hc0. rewrite Hc0.
        split; [reflexivity|].
        assert (cells = cells0) as -> by congruence.
        rewrite write_length by exact Hw. lia.
    + exists cells0. rewrite list_lookup_alter_ne by congruence. split; assumption.
  - exists cells0. split; [|exact Hw0].
    rewrite lookup_app_l by (apply lookup_lt_Some in Hc0; lia). exact Hc0.
Qed.

(** ** Accumulation: what [Use] registers *)

Lemma Service_WithMiddleware_fst `{Runtime} s fns r :
  mw (fst (Service_WithMiddleware s fns r)) = fst (Slice.append (mw s) fns (mw_heap r)).
Proof.
  unfold Service_WithMiddleware. destruct (Slice.append (mw s) fns (mw_heap r)); reflexivity.
Qed.

Lemma Service_WithMiddleware_snd `{Runtime} s fns r :
  mw_heap (snd (Service_WithMiddleware s fns r)) = snd (Slice.append (mw s) fns (mw_heap r)).
Proof.
  unfold Service_WithMiddleware. destruct (Slice.append (mw s) fns (mw_heap r)); reflexivity.
Qed.

Lemma Service_WithContextMiddleware_fst `{Runtime} s fns r :
  cmw (fst (Service_WithContextMiddleware s fns r))
  = fst (Slice.append (cmw s) fns (cmw_heap r)).
Proof.
  unfold Service_WithContextMiddleware.
  destruct (Slice.append (cmw s) fns (cmw_heap r)); reflexivity.
Qed.

Lemma Service_WithContextMiddleware_snd `{Runtime} s fns r :
  cmw_heap (snd (Service_WithContextMiddleware s fns r))
  = snd (Slice.append (cmw s) fns (cmw_heap r)).
Proof.
  unfold Service_WithContextMiddleware.
  destruct (Slice.append (cmw s) fns (cmw_heap r)); reflexivity.
Qed.

(** The chain of the derived service, read when it is derived, is the
    chain of the receiver followed by the new middleware. *)
Lemma Service_Use_chain `{Runtime} s fns r :
  slice_wf (mw_heap r) (mw s) ->
  chain (snd (Service_Use s fns r)) (fst (Service_Use s fns r)) = chain r s ++ fns.
Proof.
  intros Hwf. unfold chain, Service_Use.
  rewrite Service_WithMiddleware_fst, Service_WithMiddleware_snd.
  apply append_view, Hwf.
Qed.

Lemma Service_UseContext_chain `{Runtime} s fns r :
  slice_wf (cmw_heap r) (cmw s) ->
  context_chain (snd (Service_UseContext s fns r)) (fst (Service_UseContext s fns r))
  = context_chain r s ++ fns.
Proof.
  intros Hwf. unfold context_chain, Service_UseContext.
  rewrite Service_WithContextMiddleware_fst, Service_WithContextMiddleware_snd.
  apply append_view, Hwf.
Qed.

(** The receiver of [Use] keeps its chain. *)
Lemma Service_Use_keeps_receiver `{Runtime} s fns r :
  slice_wf (mw_heap r) (mw s) ->
  chain (snd (Service_Use s fns r)) s = chain r s.
Proof.
  intros Hwf. unfold chain, Service_Use.
  rewrite Service_WithMiddleware_snd. apply append_keeps_argument, Hwf.
Qed.

Lemma Service_Use_wf `{Runtime} s fns r :
  slice_wf (mw_heap r) (mw s) ->
  slice_wf (mw_heap (snd (Service_Use s fns r))) (mw (fst (Service_Use s fns r))).
Proof.
  intros Hwf. unfold Service_Use.
  rewrite Service_WithMiddleware_fst, Service_WithMiddleware_snd.
  apply append_wf, Hwf.
Qed.

Lemma Service_UseContext_wf `{Runtime} s fns r :
  slice_wf (cmw_heap r) (cmw s) ->
  slice_wf (cmw_heap (snd (Service_UseContext s fns r)))
           (cmw (fst (Service_UseContext s fns r))).
Proof.
  intros Hwf. unfold Service_UseContext.
  rewrite Service_WithContextMiddleware_fst, Service_WithContextMiddleware_snd.
  apply append_wf, Hwf.
Qed.

Lemma Service_UseContext_defaultCtx `{Runtime} s fns r :
  defaultCtx (fst (Service_UseContext s fns r)) = defaultCtx s.
Proof.
  unfold Service_UseContext, Service_WithContextMiddleware.
  destruct (Slice.append (cmw s) fns (cmw_heap r)); reflexivity.
Qed.

(** Registration in several calls accumulates the batches in the order of
    the calls. *)
Lemma register_all_chain `{Runtime} batches s r :
  slice_wf (mw_heap r) (mw s) ->
  chain (snd (register_all s batches r)) (fst (register_all s batches r))
  = chain r s ++ concat batches.
Proof.
  revert s r. induction batches as [|fns rest IH]; intros s r Hwf; simpl.
  - rewrite app_nil_r. reflexivity.
  - rewrite IH by (apply Service_Use_wf, Hwf).
    rewrite Service_Use_chain by exact Hwf. rewrite <- app_assoc. reflexivity.
Qed.

Lemma register_all_context_chain `{Runtime} batches s r :
  slice_wf (cmw_heap r) (cmw s) ->
  context_chain (snd (register_all_context s batches r))
                (fst (register_all_context s batches r))
  = context_chain r s ++ concat batches
  /\ defaultCtx (fst (register_all_context s batches r)) = defaultCtx s.
Proof.
  revert s r. induction batches as [|fns rest IH]; intros s r Hwf; simpl.
  - rewrite app_nil_r. split; reflexivity.
  - destruct (IH _ _ (Service_UseContext_wf s fns r Hwf)) as [IHc IHd].
    rewrite IHc, IHd.
    rewrite Service_UseContext_chain by exact Hwf. rewrite <- app_assoc.
    split; [reflexivity | apply Service_UseContext_defaultCtx].
Qed.

Lemma nil_wf {A} (h : Slice.heap A) : slice_wf h Slice.nil.
Proof. left. split; reflexivity. Qed.

Lemma contextDispatch_onion `{GoRelease} d (handler : ContextHandlerFunc)
    (ls : list (layer ptr)) req s :
  contextDispatch d (map onion_ctx ls) handler req s =
  (ctxReq <- request_new (dispatch_request d req) ;;
   seqM (map (fun l => pre l ctxReq) ls) ;;;
   err <- handler ctxReq ;;
   seqM (map (fun l => post l ctxReq) (rev ls)) ;;;
   report req err) s.
Proof.
  unfold contextDispatch. apply M_bind_ext; [reflexivity|]. intros ctxReq s1.
  transitivity (M_bind (seqM (map (fun l => pre l ctxReq) ls) ;;;
                        err <- handler ctxReq ;;
                        seqM (map (fun l => post l ctxReq) (rev ls)) ;;;
                        M_ret err) (report req) s1).
  { apply M_bind_ext; [apply wrap_loop_onion_ctx | reflexivity]. }
  rewrite M_bind_assoc. apply M_bind_ext; [reflexivity|]. intros _ s2.
  rewrite M_bind_assoc. apply M_bind_ext; [reflexivity|]. intros err s3.
  rewrite M_bind_assoc. apply M_bind_ext; [reflexivity|]. intros _ s4.
  reflexivity.
Qed.

(** ** C1: composition order *)

(** C1. For every terminal handler and every sequence of middleware layers
    [l0, ..., l(n-1)], each doing its pre-logic, calling the next link and
    doing its post-logic, the composed handler runs the pre-logics in
    registration order, then the handler, then the post-logics in reverse
    order: for [wrapHandler] on the plain flavour, for the fold inside
    [wrapContextHandler] on the context flavour, and for the handlers that
    [AddEndpoint] and [AddContextEndpoint] register on a service that
    accumulated the sequence, in one or in several batches, with
    successive calls of [Use] and [UseContext]. *)
Theorem composition_order `{Runtime} `{GoRelease} (name : string) (r : Registry)
    (handler : Handler) (ctx_handler : ContextHandlerFunc)
    (d : option context_Context)
    (ls : list (layer micro_Request)) (cls : list (layer ptr))
    (batches : list (list (layer micro_Request))) (cbatches : list (list (layer ptr)))
    (req : micro_Request) (s : Store) :
  wrapHandler handler (map onion ls) req s =
    (seqM (map (fun l => pre l req) ls) ;;;
     handler req ;;;
     seqM (map (fun l => post l req) (rev ls))) s
  /\ contextDispatch d (map onion_ctx cls) ctx_handler req s =
    (ctxReq <- request_new (dispatch_request d req) ;;
     seqM (map (fun l => pre l ctxReq) cls) ;;;
     err <- ctx_handler ctxReq ;;
     seqM (map (fun l => post l ctxReq) (rev cls)) ;;;
     report req err) s
  /\ (let sr := register_all (AddService name Slice.nil) (map (map onion) batches) r in
      Service_AddEndpoint (fst sr) handler (snd sr) req s =
        (seqM (map (fun l => pre l req) (concat batches)) ;;;
         handler req ;;;
         seqM (map (fun l => post l req) (rev (concat batches)))) s)
  /\ (let sr := register_all_context (AddContextService name Slice.nil)
                                     (map (map onion_ctx) cbatches) r in
      Service_AddContextEndpoint (fst sr) ctx_handler (snd sr) req s =
        (ctxReq <- request_new (dispatch_request None req) ;;
         seqM (map (fun l => pre l ctxReq) (concat cbatches)) ;;;
         err <- ctx_handler ctxReq ;;
         seqM (map (fun l => post l ctxReq) (rev (concat cbatches))) ;;;
         report req err) s).
Proof.
  split; [apply wrapHandler_onion|].
  split; [apply contextDispatch_onion|].
  split.
  - cbv zeta. unfold Service_AddEndpoint.
    rewrite register_all_chain by apply nil_wf.
    change (chain r (AddService name Slice.nil)) with (@nil MiddlewareFunc).
    rewrite app_nil_l, <- concat_map.
    apply wrapHandler_onion.
  - cbv zeta. unfold Service_AddContextEndpoint, wrapContextHandler.
    destruct (register_all_context_chain (map (map onion_ctx) cbatches)
                (AddContextService name Slice.nil) r (nil_wf _)) as [Hchain Hctx].
    rewrite Hchain, Hctx.
    change (context_chain r (AddContextService name Slice.nil))
      with (@nil ContextMiddlewareFunc).
    rewrite app_nil_l, <- concat_map.
    apply contextDispatch_onion.
Qed.

(** The run of the testable property: middleware [A, B] around [H], in
    both flavours. *)
Example composition_order_A_B `{GoRelease} :
  marks_of (wrapHandler marking_handler [onion (marking "A"); onion (marking "B")]
                        a_request init_Store)
  = ["A-pre"; "B-pre"; "H"; "B-post"; "A-post"]
  /\ marks_of (contextDispatch None [onion_ctx (marking "A"); onion_ctx (marking "B")]
                 (fun _ => emit (EvMark "H") ;;; M_ret None) a_request init_Store)
  = ["A-pre"; "B-pre"; "H"; "B-post"; "A-post"].
Proof. split; reflexivity. Qed.

(** ** C2: identity on the empty chain *)

(** C2. With no middleware the composed handler is the terminal handler:
    [wrapHandler] returns the handler itself, the fold inside
    [wrapContextHandler] returns the context handler itself, so that the
    dispatcher calls it once on the request it allocated and reports its
    error; the same holds for the handlers registered on a service that
    accumulated nothing. *)
Theorem identity_wrapping `{GoRelease} (name : string) (r : Registry)
    (handler : Handler) (ctx_handler : ContextHandlerFunc)
    (d : option context_Context) (req : micro_Request) (s : Store) :
  wrapHandler handler [] = handler
  /\ wrap_loop [] (length (@nil ContextMiddlewareFunc)) ctx_handler = ctx_handler
  /\ contextDispatch d [] ctx_handler req s =
       (ctxReq <- request_new (dispatch_request d req) ;;
        err <- ctx_handler ctxReq ;;
        report req err) s
  /\ Service_AddEndpoint (AddService name Slice.nil) handler r req s = handler req s
  /\ Service_AddContextEndpoint (AddContextService name Slice.nil) ctx_handler r req s =
       (ctxReq <- request_new (dispatch_request None req) ;;
        err <- ctx_handler ctxReq ;;
        report req err) s.
Proof. repeat split; reflexivity. Qed.

(** ** C3: error normalisation *)



(** ** The error payload read back *)























(** A description with characters to escape, as each release writes it and
    as the grammar reads it back: backspace is [\u0008] up to Go 1.21 and
    [\b] from Go 1.22. *)
Example awkward_description_payload :
  Json.appendString (H := go1_21) awkward_description
  = String Json.dquote ("a" +:+ String Json.backslash (String Json.dquote
      (String Json.backslash (String Json.backslash (String Json.backslash
         ("n" +:+ String Json.backslash ("u0008" +:+ String Json.backslash
            ("u0026z" +:+ String Json.dquote EmptyString))))))))
  /\ Json.appendString (H := go1_22) awkward_description
  = String Json.dquote ("a" +:+ String Json.backslash (String Json.dquote
      (String Json.backslash (String Json.backslash (String Json.backslash
         ("n" +:+ String Json.backslash ("b" +:+ String Json.backslash
            ("u0026z" +:+ String Json.dquote EmptyString))))))))
  /\ JsonSpec.string_value (Json.appendString (H := go1_21) awkward_description)
     = Some awkward_description
  /\ JsonSpec.string_value (Json.appendString (H := go1_22) awkward_description)
     = Some awkward_description
  /\ JsonSpec.string_value (String Json.dquote awkward_description) = None.
Proof. repeat split. Qed.

(** ** C8: what a sibling's [Use] does to a derived chain *)

(** The receiver of a group's [Use] keeps its chain as well. *)
Lemma Group_Use_keeps_receiver `{Runtime} g fns r :
  slice_wf (mw_heap r) (mw (grp_svc g)) ->
  chain (snd (Group_Use g fns r)) (grp_svc g) = chain r (grp_svc g).
Proof.
  intros Hwf. unfold chain, Group_Use, Group_WithMiddleware.
  pose proof (append_keeps_argument (mw (grp_svc g)) fns (mw_heap r) Hwf) as Hk.
  destruct (Slice.append (mw (grp_svc g)) fns (mw_heap r)); exact Hk.
Qed.

(** A child derived from a receiver whose slice is full is out of reach of
    every later [Use] on that receiver: [append] has to reallocate. *)
Lemma Service_Use_full_parent `{Runtime} s child fns r :
  slice_wf (mw_heap r) (mw s) -> slice_wf (mw_heap r) (mw child) ->
  Slice.len (mw s) = Slice.cap (mw s) -> fns <> [] ->
  chain (snd (Service_Use s fns r)) child = chain r child.
Proof.
  intros Hs Hc Hfull Hne. unfold chain, Service_Use.
  rewrite Service_WithMiddleware_snd.
  apply append_keeps_other; [exact Hs | exact Hc |].
  right; right. destruct fns; [congruence | simpl; lia].
Qed.

(** The defect in general: when the slice of the receiver has room for one
    more element, the slices that two calls of [append] return share its
    array, and after the second call the first result ends in the element
    of the second. *)
Lemma append_siblings_share `{Runtime} {A} (s : Slice.t) (a b : A) (h : Slice.heap A) cells :
  h !! Slice.array s = Some cells -> Slice.len s <= length cells ->
  Slice.len s + 1 <= Slice.cap s ->
  let first := Slice.append s [a] h in
  let second := Slice.append s [b] (snd first) in
  Slice.view (snd first) (fst first) = Slice.view h s ++ [a]
  /\ Slice.view (snd second) (fst first) = Slice.view h s ++ [b]
  /\ Slice.view (snd second) (fst second) = Slice.view h s ++ [b].
Proof.
  intros Hc Hw Hroom first second.
  assert (slice_wf h s) as Hwf by (right; exists cells; split; assumption).
  assert (slice_wf (snd first) s) as Hwf1 by (apply append_wf_other; assumption).
  split; [apply append_view, Hwf|].
  split.
  - subst second first. unfold Slice.append. simpl.
    destruct (decide (Slice.len s + 1 <= Slice.cap s)) as [_|Hno]; [|contradiction].
    simpl. destruct (decide (Slice.len s + 1 <= Slice.cap s)) as [_|Hno]; [|contradiction].
    unfold Slice.view. simpl.
    rewrite !list_lookup_alter_eq, Hc. simpl.
    change 1 with (length [b]).
    rewrite write_take_through.
    + f_equal. apply write_take_before; lia.
    + rewrite write_length by exact Hw. lia.
  - subst second. rewrite append_view by exact Hwf1.
    f_equal. apply append_keeps_argument, Hwf.
Qed.

(** C8, at the failing input. A service registers m1, m2 and m3 with three
    calls of [Use], which leaves its slice with length 3 and capacity 4.
    The child that adds [a] reads m1, m2, m3, a when it is derived; once
    the sibling that adds [b] is derived from the same parent, the first
    child reads m1, m2, m3, b: the sibling's middleware has replaced its
    own. The parent still reads m1, m2, m3. The same happens on a service
    made from a caller's slice with spare capacity, whatever the growth of
    reallocated slices, and in the context flavour, where the endpoint that
    the first child registered before the sibling existed is changed too,
    since the dispatcher reads the slice on each delivery. *)
Theorem sibling_use_overwrites `{GoRelease} :
  mw (grp_svc parent_group) = Slice.mk 2 3 4
  /\ marks_of (Group_AddEndpoint (fst child_a) marking_handler (snd child_a)
                                 a_request init_Store)
     = ["m1-pre"; "m2-pre"; "m3-pre"; "a-pre"; "H"; "a-post"; "m3-post"; "m2-post"; "m1-post"]
  /\ marks_of (Group_AddEndpoint (fst child_a) marking_handler (snd child_b)
                                 a_request init_Store)
     = ["m1-pre"; "m2-pre"; "m3-pre"; "b-pre"; "H"; "b-post"; "m3-post"; "m2-post"; "m1-post"]
  /\ marks_of (Group_AddEndpoint (fst child_b) marking_handler (snd child_b)
                                 a_request init_Store)
     = ["m1-pre"; "m2-pre"; "m3-pre"; "b-pre"; "H"; "b-post"; "m3-post"; "m2-post"; "m1-post"]
  /\ marks_of (Group_AddEndpoint parent_group marking_handler (snd child_b)
                                 a_request init_Store)
     = ["m1-pre"; "m2-pre"; "m3-pre"; "H"; "m3-post"; "m2-post"; "m1-post"]
  /\ marks_of (Service_AddEndpoint (fst spare_child_a) marking_handler (snd spare_child_a)
                                   a_request init_Store)
     = ["m1-pre"; "a-pre"; "H"; "a-post"; "m1-post"]
  /\ marks_of (Service_AddEndpoint (fst spare_child_a) marking_handler (snd spare_child_b)
                                   a_request init_Store)
     = ["m1-pre"; "b-pre"; "H"; "b-post"; "m1-post"]
  /\ marks_of (Service_AddContextEndpoint (fst context_child_a) marking_ctx_handler
                                          (snd context_child_a) a_request init_Store)
     = ["m1-pre"; "m2-pre"; "m3-pre"; "a-pre"; "H"; "a-post"; "m3-post"; "m2-post"; "m1-post"]
  /\ marks_of (Service_AddContextEndpoint (fst context_child_a) marking_ctx_handler
                                          (snd context_child_b) a_request init_Store)
     = ["m1-pre"; "m2-pre"; "m3-pre"; "b-pre"; "H"; "b-post"; "m3-post"; "m2-post"; "m1-post"].
Proof. repeat split; vm_compute; reflexivity. Qed.

(** ** C7: [WithContext] allocates and leaves the receiver alone *)

Lemma Request_WithContext_run r o c s :
  requests s !! r = Some o ->
  Request.WithContext r c s
  = Ret (length (requests s)) (with_requests (fun l => l ++ [Request_derived o c]) s).
Proof.
  intros Hr. unfold Request.WithContext, M_bind, request_load, request_new.
  rewrite Hr. reflexivity.
Qed.

Lemma Request_Context_run p o s :
  requests s !! p = Some o -> Request.Context p s = Ret (Request_ctx o) s.
Proof.
  intros Hp. unfold Request.Context, M_bind, request_load. rewrite Hp. reflexivity.
Qed.

Lemma MicroRequest_WithContext_run r o c s :
  mrequests s !! r = Some o ->
  MicroRequest.WithContext r c s
  = Ret (length (mrequests s))
        (with_mrequests (fun l => l ++ [MicroRequest_derived o c]) s).
Proof.
  intros Hr. unfold MicroRequest.WithContext, M_bind, req_load, req_new.
  rewrite Hr. reflexivity.
Qed.

Lemma MicroRequest_Context_run p o s :
  mrequests s !! p = Some o -> MicroRequest.Context p s = Ret (req_ctx o) s.
Proof.
  intros Hp. unfold MicroRequest.Context, M_bind, req_load. rewrite Hp. reflexivity.
Qed.



(** ** C10: the header accessors on a nil map *)

Lemma M_bind_run {A B} (c : M A) (k : A -> M B) s a s' :
  c s = Ret a s' -> M_bind c k s = k a s'.
Proof. intros Hc. unfold M_bind. rewrite Hc. reflexivity. Qed.

Lemma req_load_run p o s : mrequests s !! p = Some o -> req_load p s = Ret o s.
Proof. intros Hp. unfold req_load. rewrite Hp. reflexivity. Qed.

Lemma rep_load_run p o s : mreplies s !! p = Some o -> rep_load p s = Ret o s.
Proof. intros Hp. unfold rep_load. rewrite Hp. reflexivity. Qed.

Lemma map_load_run h m s : hmaps s !! h = Some m -> map_load h s = Ret m s.
Proof. intros Hh. unfold map_load. rewrite Hh. reflexivity. Qed.

Lemma map_store_run h m m' s :
  hmaps s !! h = Some m ->
  map_store h m' s = Ret tt (with_hmaps (fun l => <[h := m']> l) s).
Proof. intros Hh. unfold map_store. rewrite Hh. reflexivity. Qed.

Lemma req_set_Headers_run p o h s :
  mrequests s !! p = Some o ->
  req_set_Headers p h s
  = Ret tt (with_mrequests (fun l => <[p := req_with_Headers o h]> l) s).
Proof.
  intros Hp. unfold req_set_Headers. rewrite (M_bind_run _ _ _ _ _ (req_load_run _ _ _ Hp)).
  unfold req_store. rewrite Hp. reflexivity.
Qed.

Lemma rep_set_Headers_run p o h s :
  mreplies s !! p = Some o ->
  rep_set_Headers p h s
  = Ret tt (with_mreplies (fun l => <[p := rep_with_Headers o h]> l) s).
Proof.
  intros Hp. unfold rep_set_Headers. rewrite (M_bind_run _ _ _ _ _ (rep_load_run _ _ _ Hp)).
  unfold rep_store. rewrite Hp. reflexivity.
Qed.

Lemma MicroRequest_header_new r o (f : Header.t -> Header.t) s :
  mrequests s !! r = Some o -> req_Headers o = None ->
  (o' <- req_load r ;;
   h <- match req_Headers o' with Some h => M_ret h | None => map_new end ;;
   m0 <- map_load h ;;
   map_store h (f m0) ;;;
   req_set_Headers r (Some h)) s
  = Ret tt (with_mrequests
              (fun l => <[r := req_with_Headers o (Some (length (hmaps s)))]> l)
              (with_hmaps (fun l => l ++ [f ∅]) s)).
Proof.
  intros Hr Hnil.
  rewrite (M_bind_run _ _ _ _ _ (req_load_run _ _ _ Hr)). rewrite Hnil.
  unfold M_bind at 1. unfold map_new.
  unfold M_bind at 1. unfold map_load, of_option. simpl. rewrite lookup_snoc.
  unfold M_ret at 1. unfold M_bind. unfold map_store. simpl. rewrite lookup_snoc.
  rewrite req_set_Headers_run with (o := o) by exact Hr.
  unfold with_hmaps, with_mrequests. simpl. rewrite insert_snoc. reflexivity.
Qed.

Lemma MicroReply_header_new r o (f : Header.t -> Header.t) s :
  mreplies s !! r = Some o -> rep_Headers o = None ->
  (o' <- rep_load r ;;
   h <- match rep_Headers o' with Some h => M_ret h | None => map_new end ;;
   m0 <- map_load h ;;
   map_store h (f m0) ;;;
   rep_set_Headers r (Some h)) s
  = Ret tt (with_mreplies
              (fun l => <[r := rep_with_Headers o (Some (length (hmaps s)))]> l)
              (with_hmaps (fun l => l ++ [f ∅]) s)).
Proof.
  intros Hr Hnil.
  rewrite (M_bind_run _ _ _ _ _ (rep_load_run _ _ _ Hr)). rewrite Hnil.
  unfold M_bind at 1. unfold map_new.
  unfold M_bind at 1. unfold map_load, of_option. simpl. rewrite lookup_snoc.
  unfold M_ret at 1. unfold M_bind. unfold map_store. simpl. rewrite lookup_snoc.
  rewrite rep_set_Headers_run with (o := o) by exact Hr.
  unfold with_hmaps, with_mreplies. simpl. rewrite insert_snoc. reflexivity.
Qed.





(** ** The compression middleware, step by step *)

Lemma req_set_Data_run p o d s :
  mrequests s !! p = Some o ->
  req_set_Data p d s = Ret tt (decoded p o d s).
Proof.
  intros Hp. unfold req_set_Data. rewrite (M_bind_run _ _ _ _ _ (req_load_run _ _ _ Hp)).
  unfold req_store. rewrite Hp. reflexivity.
Qed.

Lemma rep_set_Data_run p o d s :
  mreplies s !! p = Some o ->
  rep_set_Data p d s
  = Ret tt (with_mreplies (fun l => <[p := rep_with_Data o d]> l) s).
Proof.
  intros Hp. unfold rep_set_Data. rewrite (M_bind_run _ _ _ _ _ (rep_load_run _ _ _ Hp)).
  unfold rep_store. rewrite Hp. reflexivity.
Qed.

(** Assigning to a field the value it holds leaves the store as it is. *)
Lemma decoded_same p o s :
  mrequests s !! p = Some o -> decoded p o (req_Data o) s = s.
Proof.
  intros Hp. unfold decoded, with_mrequests.
  replace (req_with_Data o (req_Data o)) with o by (destruct o; reflexivity).
  rewrite list_insert_id by exact Hp. destruct s; reflexivity.
Qed.

Section CompressionSteps.
Context `{Codecs}.

Lemma decompressRequest_ok req o enc d s :
  mrequests s !! req = Some o ->
  MicroRequest.HeaderGet req Compression.HeaderEncoding s = Ret enc s ->
  Compression.readCompressedData enc (req_Data o) = Ok d ->
  Compression.decompressRequest req s = Ret None (decoded req o d s).
Proof.
  intros Hreq Henc Hread. unfold Compression.decompressRequest.
  rewrite (M_bind_run _ _ _ _ _ Henc).
  rewrite (M_bind_run _ _ _ _ _ (req_load_run _ _ _ Hreq)).
  rewrite Hread.
  rewrite (M_bind_run _ _ _ _ _ (req_set_Data_run _ _ d _ Hreq)). reflexivity.
Qed.

Lemma decompressRequest_err req o enc e s :
  mrequests s !! req = Some o ->
  MicroRequest.HeaderGet req Compression.HeaderEncoding s = Ret enc s ->
  Compression.readCompressedData enc (req_Data o) = Err e ->
  Compression.decompressRequest req s = Ret (Some e) s.
Proof.
  intros Hreq Henc Hread. unfold Compression.decompressRequest.
  rewrite (M_bind_run _ _ _ _ _ Henc).
  rewrite (M_bind_run _ _ _ _ _ (req_load_run _ _ _ Hreq)).
  rewrite Hread. reflexivity.
Qed.

(** A failed inbound stage ends the invocation: the result does not depend
    on the next link and the store is the one of the failure. *)
Lemma middleware_inbound_err (next : MicroHandlerFunc) req e s s' :
  Compression.decompressRequest req s = Ret (Some e) s' ->
  Compression.CompressionMiddleware next req s = Ret (None, Some e) s'.
Proof.
  intros Hdec. unfold Compression.CompressionMiddleware.
  rewrite (M_bind_run _ _ _ _ _ Hdec). reflexivity.
Qed.

Lemma readCompressedData_unsupported enc data :
  enc <> "" -> enc <> "gzip" -> enc <> "deflate" ->
  Compression.readCompressedData enc data = Err Compression.ErrUnsupportedEncoding.
Proof.
  intros Hne Hgz Hfl. unfold Compression.readCompressedData.
  destruct (decide (enc = "gzip")); [contradiction|].
  destruct (decide (enc = "deflate")); [contradiction|].
  destruct (decide (0 < String.length enc)) as [|Hlen]; [reflexivity|].
  destruct enc; [contradiction | simpl in Hlen; lia].
Qed.

Lemma middleware_unsupported (next : MicroHandlerFunc) req o enc s :
  mrequests s !! req = Some o ->
  MicroRequest.HeaderGet req Compression.HeaderEncoding s = Ret enc s ->
  enc <> "" -> enc <> "gzip" -> enc <> "deflate" ->
  Compression.CompressionMiddleware next req s
  = Ret (None, Some Compression.ErrUnsupportedEncoding) s.
Proof.
  intros Hreq Henc Hne Hgz Hfl. apply middleware_inbound_err.
  apply (decompressRequest_err req o enc); auto using readCompressedData_unsupported.
Qed.

(** After a successful inbound stage and a next link that returns a reply
    and no error, what remains is the outbound stage in the store that the
    next link left. *)
Lemma middleware_outbound (next : MicroHandlerFunc) req s s1 s2 res :
  Compression.decompressRequest req s = Ret None s1 ->
  next req s1 = Ret (res, None) s2 ->
  Compression.CompressionMiddleware next req s
  = (accept <- MicroRequest.HeaderGet req Compression.HeaderAcceptEncoding ;;
     e <- Compression.compressReply accept res ;;
     match e with
     | Some err => M_ret (None, Some err)
     | None => M_ret (res, None)
     end) s2.
Proof.
  intros Hdec Hnext. unfold Compression.CompressionMiddleware.
  rewrite (M_bind_run _ _ _ _ _ Hdec).
  rewrite (M_bind_run _ _ _ _ _ Hnext). reflexivity.
Qed.

Lemma compressReply_small c p po s :
  mreplies s !! p = Some po ->
  (Z.of_nat (length (rep_Data po)) < compressMin s)%Z ->
  Compression.compressReply c (Some p) s = Ret None s.
Proof.
  intros Hp Hsmall. unfold Compression.compressReply. simpl.
  rewrite M_bind_ret_l.
  rewrite (M_bind_run _ _ _ _ _ (rep_load_run _ _ _ Hp)).
  unfold M_bind, Compression.GetCompressMin.
  destruct (decide (Z.of_nat (length (rep_Data po)) < compressMin s)%Z);
    [reflexivity | contradiction].
Qed.

Lemma compressReply_unrecognised c p po s :
  mreplies s !! p = Some po ->
  c <> "gzip" -> c <> "deflate" ->
  Compression.compressReply c (Some p) s = Ret None s.
Proof.
  intros Hp Hgz Hfl. unfold Compression.compressReply. simpl.
  rewrite M_bind_ret_l.
  rewrite (M_bind_run _ _ _ _ _ (rep_load_run _ _ _ Hp)).
  unfold M_bind, Compression.GetCompressMin.
  destruct (decide (Z.of_nat (length (rep_Data po)) < compressMin s)%Z); [reflexivity|].
  destruct (decide (c = Compression.CompressionNone)); [reflexivity|].
  destruct (decide (c = Compression.CompressionGzip)); [contradiction|].
  destruct (decide (c = Compression.CompressionDeflate)); [contradiction|].
  reflexivity.
Qed.

End CompressionSteps.

(** [HeaderSet] on a reply whose header map, if any, exists: the call
    returns, the payload of the reply is as before and the header reads
    the value set. *)
Lemma MicroReply_HeaderSet_spec p po k v s :
  mreplies s !! p = Some po -> reply_headers_ok po s ->
  exists s', MicroReply.HeaderSet p k v s = Ret tt s'
    /\ (exists po', mreplies s' !! p = Some po' /\ rep_Data po' = rep_Data po)
    /\ MicroReply.HeaderGet p k s' = Ret v s'.
Proof.
  intros Hp Hok. pose proof (lookup_lt_Some _ _ _ Hp) as Hlt.
  unfold reply_headers_ok in Hok.
  destruct (rep_Headers po) as [h|] eqn:Hh.
  - destruct Hok as [m Hm].
    set (s_a := with_hmaps (fun l => <[h := Header.Set_ m k v]> l) s).
    set (s' := with_mreplies (fun l => <[p := rep_with_Headers po (Some h)]> l) s_a).
    assert (mreplies s' !! p = Some (rep_with_Headers po (Some h))) as Hp'.
    { subst s' s_a. simpl. apply list_lookup_insert_eq, Hlt. }
    assert (hmaps s' !! h = Some (Header.Set_ m k v)) as Hm'.
    { subst s' s_a. simpl. apply list_lookup_insert_eq.
      apply lookup_lt_Some in Hm. exact Hm. }
    exists s'. split; [|split].
    + unfold MicroReply.HeaderSet.
      rewrite (M_bind_run _ _ _ _ _ (rep_load_run _ _ _ Hp)). rewrite Hh.
      rewrite M_bind_ret_l.
      rewrite (M_bind_run _ _ _ _ _ (map_load_run _ _ _ Hm)).
      rewrite (M_bind_run _ _ _ _ _ (map_store_run _ _ (Header.Set_ m k v) _ Hm)).
      apply (rep_set_Headers_run p po (Some h) s_a). exact Hp.
    + eexists. split; [exact Hp' | reflexivity].
    + unfold MicroReply.HeaderGet.
      rewrite (M_bind_run _ _ _ _ _ (rep_load_run _ _ _ Hp')). simpl.
      rewrite (M_bind_run _ _ _ _ _ (map_load_run _ _ _ Hm')).
      unfold Header.Get, Header.Set_. rewrite lookup_insert_eq. reflexivity.
  - set (h := length (hmaps s)).
    set (s' := with_mreplies (fun l => <[p := rep_with_Headers po (Some h)]> l)
                 (with_hmaps (fun l => l ++ [Header.Set_ ∅ k v]) s)).
    assert (mreplies s' !! p = Some (rep_with_Headers po (Some h))) as Hp'.
    { subst s'. simpl. apply list_lookup_insert_eq, Hlt. }
    assert (hmaps s' !! h = Some (Header.Set_ ∅ k v)) as Hm' by apply lookup_snoc.
    exists s'. split; [|split].
    + unfold MicroReply.HeaderSet.
      apply (MicroReply_header_new p po (fun m => Header.Set_ m k v) s Hp Hh).
    + eexists. split; [exact Hp' | reflexivity].
    + unfold MicroReply.HeaderGet.
      rewrite (M_bind_run _ _ _ _ _ (rep_load_run _ _ _ Hp')). simpl.
      rewrite (M_bind_run _ _ _ _ _ (map_load_run _ _ _ Hm')).
      unfold Header.Get, Header.Set_. rewrite lookup_insert_eq. reflexivity.
Qed.

Section CompressionOutbound.
Context `{Codecs}.

(** The two compressing branches of [compressReply] are the same up to the
    encoder: the payload becomes the encoder's output and the header
    [encoding] the requested value. *)
Lemma compressReply_encode c (encode : list byte -> result (list byte)) p po out s :
  mreplies s !! p = Some po -> reply_headers_ok po s ->
  ~ (Z.of_nat (length (rep_Data po)) < compressMin s)%Z ->
  (c = "gzip" /\ encode = Compression.compressGzip
   \/ c = "deflate" /\ encode = Compression.compressDeflate) ->
  encode (rep_Data po) = Ok out ->
  exists s', Compression.compressReply c (Some p) s = Ret None s'
    /\ (exists po', mreplies s' !! p = Some po' /\ rep_Data po' = out)
    /\ MicroReply.HeaderGet p Compression.HeaderEncoding s' = Ret c s'.
Proof.
  intros Hp Hok Hbig Hc Henc. pose proof (lookup_lt_Some _ _ _ Hp) as Hlt.
  set (s_a := with_mreplies (fun l => <[p := rep_with_Data po out]> l) s).
  assert (mreplies s_a !! p = Some (rep_with_Data po out)) as Hpa.
  { subst s_a. simpl. apply list_lookup_insert_eq, Hlt. }
  assert (reply_headers_ok (rep_with_Data po out) s_a) as Hoka by exact Hok.
  destruct (MicroReply_HeaderSet_spec p _ Compression.HeaderEncoding c s_a Hpa Hoka)
    as (s' & Hset & (po' & Hpo' & Hdata) & Hget).
  exists s'. split; [|split; [exists po'; split; [exact Hpo' | exact Hdata] | exact Hget]].
  unfold Compression.compressReply. simpl.
  rewrite M_bind_ret_l.
  rewrite (M_bind_run _ _ _ _ _ (rep_load_run _ _ _ Hp)).
  unfold M_bind at 1. unfold Compression.GetCompressMin.
  destruct (decide (Z.of_nat (length (rep_Data po)) < compressMin s)%Z); [contradiction|].
  destruct Hc as [[-> ->]|[-> ->]].
  - destruct (decide ("gzip" = Compression.CompressionNone)); [discriminate|].
    destruct (decide ("gzip" = Compression.CompressionGzip)); [|contradiction].
    rewrite Henc.
    rewrite (M_bind_run _ _ _ _ _ (rep_set_Data_run _ _ out _ Hp)).
    rewrite (M_bind_run _ _ _ _ _ Hset). reflexivity.
  - destruct (decide ("deflate" = Compression.CompressionNone)); [discriminate|].
    destruct (decide ("deflate" = Compression.CompressionGzip)); [discriminate|].
    destruct (decide ("deflate" = Compression.CompressionDeflate)); [|contradiction].
    rewrite Henc.
    rewrite (M_bind_run _ _ _ _ _ (rep_set_Data_run _ _ out _ Hp)).
    rewrite (M_bind_run _ _ _ _ _ Hset). reflexivity.
Qed.

(** The outbound stage of the middleware when the header read from the
    request asks for one of the two codecs. *)
Lemma middleware_encode (next : MicroHandlerFunc) req s s1 s2 p po c encode out :
  Compression.decompressRequest req s = Ret None s1 ->
  next req s1 = Ret (Some p, None) s2 ->
  mreplies s2 !! p = Some po -> reply_headers_ok po s2 ->
  ~ (Z.of_nat (length (rep_Data po)) < compressMin s2)%Z ->
  MicroRequest.HeaderGet req Compression.HeaderAcceptEncoding s2 = Ret c s2 ->
  (c = "gzip" /\ encode = Compression.compressGzip
   \/ c = "deflate" /\ encode = Compression.compressDeflate) ->
  encode (rep_Data po) = Ok out ->
  exists s3, Compression.CompressionMiddleware next req s = Ret (Some p, None) s3
    /\ (exists po', mreplies s3 !! p = Some po' /\ rep_Data po' = out)
    /\ MicroReply.HeaderGet p Compression.HeaderEncoding s3 = Ret c s3.
Proof.
  intros Hdec Hnext Hp Hok Hbig Hacc Hc Henc.
  destruct (compressReply_encode c encode p po out s2 Hp Hok Hbig Hc Henc)
    as (s3 & Hrun & Hdata & Hget).
  exists s3. split; [|split; assumption].
  rewrite (middleware_outbound next req s s1 s2 (Some p) Hdec Hnext).
  rewrite (M_bind_run _ _ _ _ _ Hacc).
  rewrite (M_bind_run _ _ _ _ _ Hrun). reflexivity.
Qed.

End CompressionOutbound.

(** ** C4: replies under the threshold *)

Section CompressionStages.
Context `{Codecs}.

(** C4. When the reply that the next link returns is shorter than the
    threshold, read from the package variable when the outbound stage runs,
    [compressReply] returns without touching anything, whatever encoding is
    asked for, and the middleware returns the reply of the next link in the
    store the next link left: payload and headers of the reply are the
    handler's. The threshold of a fresh process is 1000, and a value set
    with [SetCompressMin] is the one read next. *)
Theorem small_reply_untouched (next : MicroHandlerFunc) (req p : ptr)
    (po : MicroReply) (s s1 s2 : Store) :
  Compression.decompressRequest req s = Ret None s1 ->
  next req s1 = Ret (Some p, None) s2 ->
  mreplies s2 !! p = Some po ->
  (Z.of_nat (length (rep_Data po)) < compressMin s2)%Z ->
  (forall c, Compression.compressReply c (Some p) s2 = Ret None s2)
  /\ (forall accept,
        MicroRequest.HeaderGet req Compression.HeaderAcceptEncoding s2 = Ret accept s2 ->
        Compression.CompressionMiddleware next req s = Ret (Some p, None) s2)
  /\ Compression.GetCompressMin init_Store = Ret 1000%Z init_Store
  /\ (forall n st, (Compression.SetCompressMin n ;;; Compression.GetCompressMin) st
                   = Ret n (with_compressMin n st)).
Proof.
  intros Hdec Hnext Hp Hsmall. split; [|split; [|split]].
  - intros c. apply (compressReply_small c p po s2 Hp Hsmall).
  - intros accept Hacc.
    rewrite (middleware_outbound next req s s1 s2 (Some p) Hdec Hnext).
    rewrite (M_bind_run _ _ _ _ _ Hacc).
    rewrite (M_bind_run _ _ _ _ _ (compressReply_small accept p po s2 Hp Hsmall)).
    reflexivity.
  - reflexivity.
  - intros n st. reflexivity.
Qed.

(** ** C5: the inbound stage short-circuits *)

(** C5. With an [encoding] header that is neither empty nor gzip nor
    deflate the middleware returns the unsupported-encoding error; with
    gzip or deflate and a payload that the decoder rejects it returns the
    decoder's error. In both cases the result is the same for every next
    link and the store is the one the middleware was called in, so the next
    link has not run. With an empty [encoding] header the inbound stage
    succeeds and leaves the store, the payload included, as it is. *)
Theorem inbound_short_circuit (next : MicroHandlerFunc) (req : ptr)
    (o : MicroRequest) (enc : string) (s : Store) :
  mrequests s !! req = Some o ->
  MicroRequest.HeaderGet req Compression.HeaderEncoding s = Ret enc s ->
  (enc <> "" -> enc <> "gzip" -> enc <> "deflate" ->
   Compression.CompressionMiddleware next req s
   = Ret (None, Some Compression.ErrUnsupportedEncoding) s)
  /\ (forall e, enc = "gzip" -> gzip_Reader (req_Data o) = Err e ->
        Compression.CompressionMiddleware next req s = Ret (None, Some e) s)
  /\ (forall e, enc = "deflate" -> flate_Reader (req_Data o) = Err e ->
        Compression.CompressionMiddleware next req s = Ret (None, Some e) s)
  /\ (enc = "" -> Compression.decompressRequest req s = Ret None s).
Proof.
  intros Hreq Henc. split; [|split; [|split]].
  - intros Hne Hgz Hfl. apply (middleware_unsupported next req o enc s); assumption.
  - intros e -> Hfail. apply middleware_inbound_err.
    apply (decompressRequest_err req o "gzip"); [assumption | assumption |].
    unfold Compression.readCompressedData. simpl. exact Hfail.
  - intros e -> Hfail. apply middleware_inbound_err.
    apply (decompressRequest_err req o "deflate"); [assumption | assumption |].
    unfold Compression.readCompressedData. simpl. exact Hfail.
  - intros ->.
    rewrite (decompressRequest_ok req o "" (req_Data o) s Hreq Henc eq_refl).
    rewrite decoded_same by exact Hreq. reflexivity.
Qed.

End CompressionStages.

(** The middleware on [small_store] with the echo handler: ten bytes come
    back as the handler returned them, under no [encoding] header. *)
Lemma small_reply_untouched_witness :
  Compression.CompressionMiddleware (H := frame_codecs) microEcho 0 small_store
  = microEcho 0 small_store
  /\ (let s3 := final_store (microEcho 0 small_store) init_Store in
      MicroReply.HeaderGet 0 Compression.HeaderEncoding s3 = Ret "" s3
      /\ rep_Data <$> mreplies s3 !! 0 = Some (repeat x64 10)).
Proof.
  pose (s2 := final_store (microEcho 0 small_store) init_Store).
  assert (Compression.decompressRequest (H := frame_codecs) 0 small_store
          = Ret None small_store) as Hdec by (vm_compute; reflexivity).
  assert (microEcho 0 small_store = Ret (Some 0, None) s2) as Hnext
    by (vm_compute; reflexivity).
  assert (mreplies s2 !! 0 = Some (mkMicroReply (Some 1) (repeat x64 10))) as Hp
    by (vm_compute; reflexivity).
  assert (Z.lt (Z.of_nat (length (rep_Data (mkMicroReply (Some 1) (repeat x64 10)))))
                (compressMin s2)) as Hsmall by (vm_compute; reflexivity).
  destruct (@small_reply_untouched frame_codecs microEcho 0 0 _ small_store small_store s2
              Hdec Hnext Hp Hsmall) as (_ & Hmw & _).
  split.
  - rewrite (Hmw "gzip"); [symmetry; exact Hnext | vm_compute; reflexivity].
  - cbv zeta. split; vm_compute; reflexivity.
Defined.

(** The middleware in front of a next link that would panic if it ran: on
    a request declared as bzip2, and on one declared as gzip whose payload
    the decoder rejects. *)
Lemma inbound_short_circuit_witness :
  Compression.CompressionMiddleware (H := frame_codecs) unreachable_handler 0 bzip2_store
  = Ret (None, Some Compression.ErrUnsupportedEncoding) bzip2_store
  /\ Compression.CompressionMiddleware (H := frame_codecs) unreachable_handler 0
                                       corrupt_store
     = Ret (None, Some (ErrOther "gzip: invalid header")) corrupt_store.
Proof.
  split.
  - destruct (@inbound_short_circuit frame_codecs unreachable_handler 0
                (mkMicroRequest "foo" "_INBOX.1" (Some 0) (repeat x64 2000) None)
                "bzip2" bzip2_store eq_refl) as (Hunsupported & _).
    + vm_compute; reflexivity.
    + apply Hunsupported; discriminate.
  - destruct (@inbound_short_circuit frame_codecs unreachable_handler 0
                (mkMicroRequest "foo" "_INBOX.1" (Some 0) (repeat x64 2000) None)
                "gzip" corrupt_store eq_refl) as (_ & Hcorrupt & _).
    + vm_compute; reflexivity.
    + apply Hcorrupt; reflexivity.
Defined.

(** ** C6: the two directions of the compression *)

Section CompressionDirections.
Context `{Codecs}.

(** C6, amended. The inbound stage decodes the payload with the codec
    named by the [encoding] header of the request, so that the next link is
    called on a request whose payload is the original bytes whenever the
    payload was the gzip (deflate) compression of them. For a reply at or
    above the threshold the outbound stage uses the codec named by the
    [accept-encoding] header that the request carries when the next link
    has returned (the header the request arrived with, unless the next
    link changed it), and by nothing else: whatever the inbound codec was,
    the reply's [encoding] header is set to that value, its payload is the
    encoder's output, and the matching decoder gives back the bytes the
    handler replied. *)
Theorem compression_directions (next : MicroHandlerFunc) (req p : ptr)
    (o : MicroRequest) (po : MicroReply) (enc accept : string)
    (d out : list byte) (encode decode : list byte -> result (list byte))
    (s s2 : Store) :
  (forall x y, gzip_Writer x = Ok y -> gzip_Reader y = Ok x) ->
  (forall x y, flate_Writer x = Ok y -> flate_Reader y = Ok x) ->
  mrequests s !! req = Some o ->
  MicroRequest.HeaderGet req Compression.HeaderEncoding s = Ret enc s ->
  Compression.readCompressedData enc (req_Data o) = Ok d ->
  next req (decoded req o d s) = Ret (Some p, None) s2 ->
  mreplies s2 !! p = Some po -> reply_headers_ok po s2 ->
  ~ (Z.of_nat (length (rep_Data po)) < compressMin s2)%Z ->
  MicroRequest.HeaderGet req Compression.HeaderAcceptEncoding s2 = Ret accept s2 ->
  (accept = "gzip" /\ encode = Compression.compressGzip
                   /\ decode = Compression.decompressGzip
   \/ accept = "deflate" /\ encode = Compression.compressDeflate
                         /\ decode = Compression.decompressDeflate) ->
  encode (rep_Data po) = Ok out ->
  (forall orig,
      enc = "gzip" /\ Compression.compressGzip orig = Ok (req_Data o)
      \/ enc = "deflate" /\ Compression.compressDeflate orig = Ok (req_Data o) ->
      d = orig)
  /\ mrequests (decoded req o d s) !! req = Some (req_with_Data o d)
  /\ exists s3,
       Compression.CompressionMiddleware next req s = Ret (Some p, None) s3
       /\ MicroReply.HeaderGet p Compression.HeaderEncoding s3 = Ret accept s3
       /\ exists po', mreplies s3 !! p = Some po'
                      /\ rep_Data po' = out
                      /\ decode (rep_Data po') = Ok (rep_Data po).
Proof.
  intros Hgz Hfl Hreq Henc Hread Hnext Hp Hok Hbig Hacc Hcodec Hout.
  split; [|split].
  - intros orig [[-> Horig]|[-> Horig]];
      unfold Compression.readCompressedData in Hread; simpl in Hread.
    + apply Hgz in Horig. unfold Compression.decompressGzip in Hread. congruence.
    + apply Hfl in Horig. unfold Compression.decompressDeflate in Hread. congruence.
  - unfold decoded. simpl. apply list_lookup_insert_eq.
    apply lookup_lt_Some in Hreq. exact Hreq.
  - assert (accept = "gzip" /\ encode = Compression.compressGzip
            \/ accept = "deflate" /\ encode = Compression.compressDeflate) as Hc
      by (destruct Hcodec as [(? & ? & ?)|(? & ? & ?)]; auto).
    destruct (middleware_encode next req s (decoded req o d s) s2 p po accept encode out
                (decompressRequest_ok req o enc d s Hreq Henc Hread)
                Hnext Hp Hok Hbig Hacc Hc Hout)
      as (s3 & Hrun & (po' & Hpo' & Hdata) & Hget).
    exists s3. split; [exact Hrun|]. split; [exact Hget|].
    exists po'. split; [exact Hpo'|]. split; [exact Hdata|].
    rewrite Hdata.
    destruct Hcodec as [(_ & -> & ->)|(_ & -> & ->)].
    + apply Hgz. exact Hout.
    + apply Hfl. exact Hout.
Qed.

(** ** C9: unrecognised values of accept-encoding *)

(** C9, amended. When the [accept-encoding] header that the request
    carries once the next link has returned is neither gzip nor deflate,
    the middleware returns the reply of the next link in the store the next
    link left, whatever the size of the reply: payload and headers of the
    reply are untouched and no error is returned. The same value, when not
    empty, in the [encoding] header of a request is the
    unsupported-encoding error, with the next link not run. *)
Theorem unrecognised_accept_ignored (next : MicroHandlerFunc) (req p : ptr)
    (po : MicroReply) (accept : string) (s s1 s2 : Store) :
  Compression.decompressRequest req s = Ret None s1 ->
  next req s1 = Ret (Some p, None) s2 ->
  mreplies s2 !! p = Some po ->
  MicroRequest.HeaderGet req Compression.HeaderAcceptEncoding s2 = Ret accept s2 ->
  accept <> "gzip" -> accept <> "deflate" ->
  Compression.CompressionMiddleware next req s = Ret (Some p, None) s2
  /\ (forall (next' : MicroHandlerFunc) req' o' st,
        mrequests st !! req' = Some o' ->
        MicroRequest.HeaderGet req' Compression.HeaderEncoding st = Ret accept st ->
        accept <> "" ->
        Compression.CompressionMiddleware next' req' st
        = Ret (None, Some Compression.ErrUnsupportedEncoding) st).
Proof.
  intros Hdec Hnext Hp Hacc Hgz Hfl. split.
  - rewrite (middleware_outbound next req s s1 s2 (Some p) Hdec Hnext).
    rewrite (M_bind_run _ _ _ _ _ Hacc).
    rewrite (M_bind_run _ _ _ _ _ (compressReply_unrecognised accept p po s2 Hp Hgz Hfl)).
    reflexivity.
  - intros next' req' o' st Hreq' Henc' Hne.
    apply (middleware_unsupported next' req' o' accept st); assumption.
Qed.

End CompressionDirections.

(** The framed stand-ins decode what they encode. *)
Lemma frame_gzip_roundtrip x y :
  @gzip_Writer frame_codecs x = Ok y -> @gzip_Reader frame_codecs y = Ok x.
Proof. intros Hxy. injection Hxy as <-. reflexivity. Qed.

Lemma frame_flate_roundtrip x y :
  @flate_Writer frame_codecs x = Ok y -> @flate_Reader frame_codecs y = Ok x.
Proof. intros Hxy. injection Hxy as <-. reflexivity. Qed.

(** The mismatch test: 2000 bytes arrive in the gzip frame, the echo
    handler receives them unframed, and the reply leaves in the deflate
    frame, from which the deflate decoder gives the 2000 bytes back. *)
Lemma compression_directions_witness :
  exists s3,
    Compression.CompressionMiddleware (H := frame_codecs) microEcho 0 mismatch_store
    = Ret (Some 0, None) s3
    /\ MicroReply.HeaderGet 0 Compression.HeaderEncoding s3 = Ret "deflate" s3
    /\ exists po', mreplies s3 !! 0 = Some po'
                   /\ rep_Data po' = x78 :: repeat x64 2000
                   /\ Compression.decompressDeflate (H := frame_codecs) (rep_Data po')
                      = Ok (repeat x64 2000).
Proof.
  pose (o := mkMicroRequest "foo" "_INBOX.1" (Some 0) (x1f :: repeat x64 2000) None).
  pose (s2 := final_store (microEcho 0 (decoded 0 o (repeat x64 2000) mismatch_store))
                          init_Store).
  assert (MicroRequest.HeaderGet 0 Compression.HeaderEncoding mismatch_store
          = Ret "gzip" mismatch_store) as Henc by (vm_compute; reflexivity).
  assert (microEcho 0 (decoded 0 o (repeat x64 2000) mismatch_store)
          = Ret (Some 0, None) s2) as Hnext by (vm_compute; reflexivity).
  assert (mreplies s2 !! 0 = Some (mkMicroReply (Some 1) (repeat x64 2000))) as Hp
    by (vm_compute; reflexivity).
  assert (reply_headers_ok (mkMicroReply (Some 1) (repeat x64 2000)) s2) as Hok
    by (vm_compute; eauto).
  assert (~ Z.lt (Z.of_nat (length (rep_Data (mkMicroReply (Some 1) (repeat x64 2000)))))
                 (compressMin s2)) as Hbig by (vm_compute; discriminate).
  assert (MicroRequest.HeaderGet 0 Compression.HeaderAcceptEncoding s2
          = Ret "deflate" s2) as Hacc by (vm_compute; reflexivity).
  destruct (@compression_directions frame_codecs microEcho 0 0 o
              (mkMicroReply (Some 1) (repeat x64 2000)) "gzip" "deflate"
              (repeat x64 2000) (x78 :: repeat x64 2000)
              (Compression.compressDeflate (H := frame_codecs))
              (Compression.decompressDeflate (H := frame_codecs))
              mismatch_store s2
              frame_gzip_roundtrip frame_flate_roundtrip eq_refl Henc eq_refl
              Hnext Hp Hok Hbig Hacc
              (or_intror (conj eq_refl (conj eq_refl eq_refl))) eq_refl)
    as (_ & _ & s3 & Hrun & Hget & po' & Hpo' & Hdata & Hback).
  exists s3. split; [exact Hrun|]. split; [exact Hget|].
  exists po'. split; [exact Hpo'|]. split; [exact Hdata | exact Hback].
Defined.

(** C6 as stated, at an input where it fails. The request is one object,
    shared with the next link, and the outbound stage reads it after the
    next link: the request arrives with accept-encoding deflate, the next
    link sets the header to gzip and replies 2000 bytes, and the reply
    leaves under the [encoding] header gzip, in the gzip frame, which the
    deflate decoder rejects. *)
Lemma codec_follows_rewritten_header :
  let out := Compression.CompressionMiddleware (H := frame_codecs) rewriting_handler 0
                                               accept_deflate_store in
  let s3 := final_store out init_Store in
  MicroRequest.HeaderGet 0 Compression.HeaderAcceptEncoding accept_deflate_store
  = Ret "deflate" accept_deflate_store
  /\ out = Ret (Some 0, None) s3
  /\ MicroReply.HeaderGet 0 Compression.HeaderEncoding s3 = Ret "gzip" s3
  /\ rep_Data <$> mreplies s3 !! 0 = Some (x1f :: repeat x64 2000)
  /\ Compression.decompressDeflate (H := frame_codecs) (x1f :: repeat x64 2000)
     = Err (ErrOther "flate: corrupt input").
Proof. cbv zeta. repeat split; vm_compute; reflexivity. Qed.

(** A request that asks for bzip2, in front of the echo handler: the 2000
    bytes of the reply come back as the handler returned them. *)
Lemma unrecognised_accept_ignored_witness :
  Compression.CompressionMiddleware (H := frame_codecs) microEcho 0 accept_bzip2_store
  = microEcho 0 accept_bzip2_store.
Proof.
  pose (s2 := final_store (microEcho 0 accept_bzip2_store) init_Store).
  assert (Compression.decompressRequest (H := frame_codecs) 0 accept_bzip2_store
          = Ret None accept_bzip2_store) as Hdec by (vm_compute; reflexivity).
  assert (microEcho 0 accept_bzip2_store = Ret (Some 0, None) s2) as Hnext
    by (vm_compute; reflexivity).
  assert (mreplies s2 !! 0 = Some (mkMicroReply (Some 1) (repeat x64 2000))) as Hp
    by (vm_compute; reflexivity).
  assert (MicroRequest.HeaderGet 0 Compression.HeaderAcceptEncoding s2
          = Ret "bzip2" s2) as Hacc by (vm_compute; reflexivity).
  destruct (@unrecognised_accept_ignored frame_codecs microEcho 0 0 _ "bzip2"
              accept_bzip2_store accept_bzip2_store s2 Hdec Hnext Hp Hacc)
    as [Hrun _]; [discriminate | discriminate |].
  rewrite Hrun. symmetry. exact Hnext.
Defined.

(** C9 as stated, at an input where it fails: the request arrives with
    accept-encoding bzip2 and the threshold is 1000, the next link sets the
    header to gzip and replies 2000 bytes, and the reply leaves under the
    [encoding] header gzip with its payload in the gzip frame. *)
Lemma unrecognised_accept_rewritten :
  let out := Compression.CompressionMiddleware (H := frame_codecs) rewriting_handler 0
                                               accept_bzip2_store in
  let s3 := final_store out init_Store in
  MicroRequest.HeaderGet 0 Compression.HeaderAcceptEncoding accept_bzip2_store
  = Ret "bzip2" accept_bzip2_store
  /\ compressMin accept_bzip2_store = 1000%Z
  /\ out = Ret (Some 0, None) s3
  /\ MicroReply.HeaderGet 0 Compression.HeaderEncoding s3 = Ret "gzip" s3
  /\ rep_Data <$> mreplies s3 !! 0 = Some (x1f :: repeat x64 2000).
Proof. cbv zeta. repeat split; vm_compute; reflexivity. Qed.

(* ===================================================================== *)
(** * Further properties of the code *)
(* ===================================================================== *)

(** ** The chain builder over a concatenation *)

Lemma wrap_loop_app {H : Type} (ms1 ms2 : list (H -> H)) (h : H) :
  wrap_loop (ms1 ++ ms2) (length (ms1 ++ ms2)) h
  = wrap_loop ms1 (length ms1) (wrap_loop ms2 (length ms2) h).
Proof. rewrite !wrap_loop_foldr. apply foldr_app. Qed.

(** X1. The chain built from the middleware [ms1] followed by [ms2] is the
    chain of [ms1] around the chain of [ms2] around the handler, for
    arbitrary middleware functions: wrapping in two steps, inner sequence
    first, and wrapping once with the whole sequence build the same
    handler. The same holds for the fold of the context dispatcher. *)
Theorem wrapHandler_app (handler : Handler) (ms1 ms2 : list MiddlewareFunc)
    (ctx_handler : ContextHandlerFunc) (cs1 cs2 : list ContextMiddlewareFunc) :
  wrapHandler handler (ms1 ++ ms2) = wrapHandler (wrapHandler handler ms2) ms1
  /\ wrap_loop (cs1 ++ cs2) (length (cs1 ++ cs2)) ctx_handler
     = wrap_loop cs1 (length cs1) (wrap_loop cs2 (length cs2) ctx_handler).
Proof. split; [apply (wrap_loop_app (H := Handler)) | apply wrap_loop_app]. Qed.

(** X2. A middleware that returns a handler of its own without calling the
    next one cuts the chain: the middleware registered after it and the
    terminal handler are never reached, whatever they are; the middleware
    registered before it still run around it. *)
Theorem blocking_middleware_cuts_chain `{GoRelease} (handler blocked : Handler)
    (ms1 ms2 : list MiddlewareFunc)
    (ctx_handler ctx_blocked : ContextHandlerFunc)
    (cs1 cs2 : list ContextMiddlewareFunc)
    (d : option context_Context) (req : micro_Request) (s : Store) :
  wrapHandler handler (ms1 ++ (fun _ => blocked) :: ms2) = wrapHandler blocked ms1
  /\ contextDispatch d (cs1 ++ (fun _ => ctx_blocked) :: cs2) ctx_handler req s
     = contextDispatch d cs1 ctx_blocked req s.
Proof.
  split.
  - unfold wrapHandler. rewrite (wrap_loop_app (H := Handler)).
    rewrite (wrap_loop_cons (H := Handler)). reflexivity.
  - unfold contextDispatch.
    rewrite (wrap_loop_app (H := ContextHandlerFunc)).
    rewrite (wrap_loop_cons (H := ContextHandlerFunc)). reflexivity.
Qed.

Lemma wrapHandler_concat (handler : Handler) (ms1 ms2 : list MiddlewareFunc) :
  wrapHandler handler (ms1 ++ ms2) = wrapHandler (wrapHandler handler ms2) ms1.
Proof. apply (wrap_loop_app (H := Handler)). Qed.

(** ** The dispatcher when the chain returns no error *)

(** X3. When the composed context chain returns a nil error, the dispatcher
    returns in the store the chain left: it adds no call of the
    transport, neither a reply nor an error report, so that answering is
    left to the handler. A panic of the chain is not recovered: the
    dispatcher panics. *)
Theorem dispatch_without_error `{GoRelease} (d : option context_Context)
    (cmw : list ContextMiddlewareFunc) (handler : ContextHandlerFunc)
    (req : micro_Request) (s : Store) :
  (forall s',
      wrap_loop cmw (length cmw) handler (length (requests s)) (dispatch_store d req s)
      = Ret None s' ->
      contextDispatch d cmw handler req s = Ret tt s')
  /\ (wrap_loop cmw (length cmw) handler (length (requests s)) (dispatch_store d req s)
      = Panic ->
      contextDispatch d cmw handler req s = Panic).
Proof.
  split.
  - intros s' Hrun. unfold contextDispatch.
    unfold M_bind at 1. unfold request_new.
    change (with_requests _ s) with (dispatch_store d req s).
    unfold M_bind. rewrite Hrun. reflexivity.
  - intros Hrun. unfold contextDispatch.
    unfold M_bind at 1. unfold request_new.
    change (with_requests _ s) with (dispatch_store d req s).
    unfold M_bind. rewrite Hrun. reflexivity.
Qed.

(** A delivery through two marking middleware to a handler that returns
    nil: the trace holds the five marks and no call of the transport. *)
Lemma dispatch_without_error_witness :
  trace (final_store (contextDispatch (H := go1_21) None
                                      [onion_ctx (marking "A"); onion_ctx (marking "B")]
                                      marking_ctx_handler a_request init_Store) init_Store)
  = [EvMark "A-pre"; EvMark "B-pre"; EvMark "H"; EvMark "B-post"; EvMark "A-post"].
Proof.
  destruct (@dispatch_without_error go1_21 None
              [onion_ctx (marking "A"); onion_ctx (marking "B")]
              marking_ctx_handler a_request init_Store) as [Hok _].
  rewrite (Hok _ eq_refl). reflexivity.
Defined.

(** ** Accumulation: derived services and groups *)

Lemma Group_Use_as_Service_Use `{Runtime} g fns r :
  Group_Use g fns r
  = (mkGroup (fst (Service_Use (grp_svc g) fns r)) (grp g), snd (Service_Use (grp_svc g) fns r)).
Proof.
  unfold Group_Use, Group_WithMiddleware, Service_Use, Service_WithMiddleware.
  destruct (Slice.append (mw (grp_svc g)) fns (mw_heap r)); reflexivity.
Qed.

Lemma Group_UseContext_as_Service_UseContext `{Runtime} g fns r :
  Group_UseContext g fns r
  = (mkGroup (fst (Service_UseContext (grp_svc g) fns r)) (grp g),
     snd (Service_UseContext (grp_svc g) fns r)).
Proof.
  unfold Group_UseContext, Group_WithContextMiddleware, Service_UseContext,
    Service_WithContextMiddleware.
  destruct (Slice.append (cmw (grp_svc g)) fns (cmw_heap r)); reflexivity.
Qed.

Lemma Service_UseContext_keeps_receiver `{Runtime} s fns r :
  slice_wf (cmw_heap r) (cmw s) ->
  context_chain (snd (Service_UseContext s fns r)) s = context_chain r s.
Proof.
  intros Hwf. unfold context_chain, Service_UseContext.
  rewrite Service_WithContextMiddleware_snd. apply append_keeps_argument, Hwf.
Qed.

Lemma Service_Use_cmw_heap `{Runtime} s fns r :
  cmw_heap (snd (Service_Use s fns r)) = cmw_heap r
  /\ cmw (fst (Service_Use s fns r)) = cmw s
  /\ defaultCtx (fst (Service_Use s fns r)) = defaultCtx s
  /\ svc (fst (Service_Use s fns r)) = svc s.
Proof.
  unfold Service_Use, Service_WithMiddleware.
  destruct (Slice.append (mw s) fns (mw_heap r)); repeat split; reflexivity.
Qed.

Lemma Service_UseContext_mw_heap `{Runtime} s fns r :
  mw_heap (snd (Service_UseContext s fns r)) = mw_heap r
  /\ mw (fst (Service_UseContext s fns r)) = mw s
  /\ defaultCtx (fst (Service_UseContext s fns r)) = defaultCtx s
  /\ svc (fst (Service_UseContext s fns r)) = svc s.
Proof.
  unfold Service_UseContext, Service_WithContextMiddleware.
  destruct (Slice.append (cmw s) fns (cmw_heap r)); repeat split; reflexivity.
Qed.

(** X4. Deriving a service or a group with [Use] or [UseContext] leaves the
    receiver as it was: a handler registered on the receiver after the
    derivation is wrapped exactly as one registered before it, in both
    flavours, for a service and for a group. *)
Theorem Use_leaves_receiver `{Runtime} `{GoRelease} (s : Service) (path : list string)
    (fns : list MiddlewareFunc) (cfns : list ContextMiddlewareFunc) (r : Registry)
    (handler : Handler) (ctx_handler : ContextHandlerFunc) :
  slice_wf (mw_heap r) (mw s) ->
  slice_wf (cmw_heap r) (cmw s) ->
  let g := mkGroup s path in
  (Service_AddEndpoint s handler (snd (Service_Use s fns r))
   = Service_AddEndpoint s handler r
   /\ Service_AddContextEndpoint s ctx_handler (snd (Service_Use s fns r))
      = Service_AddContextEndpoint s ctx_handler r)
  /\ (Service_AddEndpoint s handler (snd (Service_UseContext s cfns r))
      = Service_AddEndpoint s handler r
      /\ Service_AddContextEndpoint s ctx_handler (snd (Service_UseContext s cfns r))
         = Service_AddContextEndpoint s ctx_handler r)
  /\ (Group_AddEndpoint g handler (snd (Group_Use g fns r))
      = Group_AddEndpoint g handler r
      /\ Group_AddContextEndpoint g ctx_handler (snd (Group_Use g fns r))
         = Group_AddContextEndpoint g ctx_handler r)
  /\ (Group_AddEndpoint g handler (snd (Group_UseContext g cfns r))
      = Group_AddEndpoint g handler r
      /\ Group_AddContextEndpoint g ctx_handler (snd (Group_UseContext g cfns r))
         = Group_AddContextEndpoint g ctx_handler r).
Proof.
  intros Hmw Hcmw g.
  assert (chain (snd (Service_Use s fns r)) s = chain r s) as Hc1
    by (apply Service_Use_keeps_receiver, Hmw).
  assert (context_chain (snd (Service_Use s fns r)) s = context_chain r s) as Hc2.
  { unfold context_chain. destruct (Service_Use_cmw_heap s fns r) as (-> & _). reflexivity. }
  assert (chain (snd (Service_UseContext s cfns r)) s = chain r s) as Hc3.
  { unfold chain. destruct (Service_UseContext_mw_heap s cfns r) as (-> & _). reflexivity. }
  assert (context_chain (snd (Service_UseContext s cfns r)) s = context_chain r s) as Hc4
    by (apply Service_UseContext_keeps_receiver, Hcmw).
  subst g. rewrite Group_Use_as_Service_Use, Group_UseContext_as_Service_UseContext.
  unfold Service_AddEndpoint, Service_AddContextEndpoint, Group_AddEndpoint,
    Group_AddContextEndpoint, wrapContextHandler. simpl.
  rewrite Hc1, Hc2, Hc3, Hc4. repeat split; reflexivity.
Qed.

(** The service of three registered middleware: after a fourth is added
    in a derived service, an endpoint registered on the receiver runs the
    three. *)
Lemma Use_leaves_receiver_witness :
  marks_of (Service_AddEndpoint (fst three_uses) marking_handler
              (snd (Service_Use (H := go_runtime) (fst three_uses) [onion (marking "a")]
                                (snd three_uses)))
              a_request init_Store)
  = ["m1-pre"; "m2-pre"; "m3-pre"; "H"; "m3-post"; "m2-post"; "m1-post"].
Proof.
  assert (slice_wf (mw_heap (snd three_uses)) (mw (fst three_uses))) as Hmw.
  { right. exists [onion (marking "m1"); onion (marking "m2"); onion (marking "m3")].
    split; [reflexivity | simpl; lia]. }
  assert (slice_wf (cmw_heap (snd three_uses)) (cmw (fst three_uses))) as Hcmw.
  { left. split; reflexivity. }
  destruct (@Use_leaves_receiver go_runtime go1_21 (fst three_uses) [] [onion (marking "a")] []
              (snd three_uses) marking_handler marking_ctx_handler Hmw Hcmw)
    as ((Hrecv & _) & _).
  rewrite Hrecv. reflexivity.
Defined.

(** X5. An endpoint registered on a derived service or group runs the chain
    of the receiver around the middleware given to [Use] around the
    handler; [UseContext] does the same to the context chain, and each of
    the two leaves the chain of the other flavour, the default context and
    the names as the receiver has them. *)
Theorem Use_extends_chain `{Runtime} `{GoRelease} (s : Service) (path : list string)
    (fns : list MiddlewareFunc) (cfns : list ContextMiddlewareFunc) (r : Registry)
    (handler : Handler) (ctx_handler : ContextHandlerFunc) :
  slice_wf (mw_heap r) (mw s) ->
  slice_wf (cmw_heap r) (cmw s) ->
  let g := mkGroup s path in
  let derived := Service_Use s fns r in
  let cderived := Service_UseContext s cfns r in
  let gderived := Group_Use g fns r in
  let gcderived := Group_UseContext g cfns r in
  (Service_AddEndpoint (fst derived) handler (snd derived)
   = wrapHandler (wrapHandler handler fns) (chain r s)
   /\ Service_AddContextEndpoint (fst derived) ctx_handler (snd derived)
      = Service_AddContextEndpoint s ctx_handler r
   /\ svc (fst derived) = svc s)
  /\ (Service_AddContextEndpoint (fst cderived) ctx_handler (snd cderived)
      = contextDispatch (defaultCtx s) (context_chain r s ++ cfns) ctx_handler
      /\ Service_AddEndpoint (fst cderived) handler (snd cderived)
         = Service_AddEndpoint s handler r
      /\ svc (fst cderived) = svc s)
  /\ (Group_AddEndpoint (fst gderived) handler (snd gderived)
      = wrapHandler (wrapHandler handler fns) (chain r s)
      /\ Group_AddContextEndpoint (fst gderived) ctx_handler (snd gderived)
         = Group_AddContextEndpoint g ctx_handler r
      /\ grp (fst gderived) = path)
  /\ (Group_AddContextEndpoint (fst gcderived) ctx_handler (snd gcderived)
      = contextDispatch (defaultCtx s) (context_chain r s ++ cfns) ctx_handler
      /\ Group_AddEndpoint (fst gcderived) handler (snd gcderived)
         = Group_AddEndpoint g handler r
      /\ grp (fst gcderived) = path).
Proof.
  intros Hmw Hcmw g derived cderived gderived gcderived.
  assert (chain (snd derived) (fst derived) = chain r s ++ fns) as Hc1
    by (apply Service_Use_chain, Hmw).
  assert (context_chain (snd cderived) (fst cderived) = context_chain r s ++ cfns) as Hc2
    by (apply Service_UseContext_chain, Hcmw).
  destruct (Service_Use_cmw_heap s fns r) as (Hu1 & Hu2 & Hu3 & Hu4).
  destruct (Service_UseContext_mw_heap s cfns r) as (Hv1 & Hv2 & Hv3 & Hv4).
  assert (context_chain (snd derived) (fst derived) = context_chain r s) as Hc3.
  { unfold context_chain. subst derived. rewrite Hu1, Hu2. reflexivity. }
  assert (chain (snd cderived) (fst cderived) = chain r s) as Hc4.
  { unfold chain. subst cderived. rewrite Hv1, Hv2. reflexivity. }
  subst gderived gcderived g derived cderived.
  rewrite Group_Use_as_Service_Use, Group_UseContext_as_Service_UseContext.
  unfold Service_AddEndpoint, Service_AddContextEndpoint, Group_AddEndpoint,
    Group_AddContextEndpoint, wrapContextHandler. simpl.
  rewrite Hc1, Hc2, Hc3, Hc4, Hu3, Hu4, Hv3, Hv4.
  rewrite wrapHandler_concat.
  repeat split; reflexivity.
Qed.

(** The service of three registered middleware and a fourth added in a
    derived service: an endpoint registered on the derived service runs
    the four in the order of registration. *)
Lemma Use_extends_chain_witness :
  marks_of (Service_AddEndpoint
              (fst (Service_Use (H := go_runtime) (fst three_uses) [onion (marking "a")]
                                (snd three_uses)))
              marking_handler
              (snd (Service_Use (H := go_runtime) (fst three_uses) [onion (marking "a")]
                                (snd three_uses)))
              a_request init_Store)
  = ["m1-pre"; "m2-pre"; "m3-pre"; "a-pre"; "H"; "a-post"; "m3-post"; "m2-post"; "m1-post"].
Proof.
  assert (slice_wf (mw_heap (snd three_uses)) (mw (fst three_uses))) as Hmw.
  { right. exists [onion (marking "m1"); onion (marking "m2"); onion (marking "m3")].
    split; [reflexivity | simpl; lia]. }
  assert (slice_wf (cmw_heap (snd three_uses)) (cmw (fst three_uses))) as Hcmw.
  { left. split; reflexivity. }
  destruct (@Use_extends_chain go_runtime go1_21 (fst three_uses) [] [onion (marking "a")] []
              (snd three_uses) marking_handler marking_ctx_handler Hmw Hcmw)
    as ((Hext & _) & _).
  rewrite Hext. reflexivity.
Defined.

(** ** Accumulation: when derived chains share an array *)

(** X6. [Use] and [UseContext] without arguments, on a service whose slices
    are no longer than their capacity, return a service equal to the
    receiver and allocate nothing. *)
Theorem Use_nothing `{Runtime} (s : Service) (r : Registry) :
  Slice.len (mw s) <= Slice.cap (mw s) ->
  Slice.len (cmw s) <= Slice.cap (cmw s) ->
  Service_Use s [] r = (s, r) /\ Service_UseContext s [] r = (s, r).
Proof.
  intros Hmw Hcmw.
  unfold Service_Use, Service_WithMiddleware, Service_UseContext,
    Service_WithContextMiddleware, Slice.append.
  simpl length. rewrite !Nat.add_0_r.
  destruct (decide (Slice.len (mw s) <= Slice.cap (mw s))); [|contradiction].
  destruct (decide (Slice.len (cmw s) <= Slice.cap (cmw s))); [|contradiction].
  rewrite !alter_write_nothing.
  destruct s as [? [? ? ?] [? ? ?] ?], r as [? ?]. split; reflexivity.
Qed.

(** [Use()] on the service of three registered middleware. *)
Lemma Use_nothing_witness :
  Service_Use (H := go_runtime) (fst three_uses) [] (snd three_uses) = three_uses.
Proof.
  destruct (@Use_nothing go_runtime (fst three_uses) (snd three_uses)) as [Huse _].
  - vm_compute. lia.
  - vm_compute. lia.
  - rewrite Huse. reflexivity.
Defined.

(** X7. Two services derived from one receiver whose middleware slice is
    full (its length is its capacity): each [append] allocates an array of
    its own, and after both derivations each derived chain is the chain of
    the receiver followed by the middleware it was given. *)
Theorem siblings_of_full_slice_independent `{Runtime} (s : Service)
    (fns_a fns_b : list MiddlewareFunc) (r : Registry) :
  slice_wf (mw_heap r) (mw s) ->
  Slice.len (mw s) = Slice.cap (mw s) ->
  fns_a <> [] -> fns_b <> [] ->
  let first := Service_Use s fns_a r in
  let second := Service_Use s fns_b (snd first) in
  chain (snd second) (fst first) = chain r s ++ fns_a
  /\ chain (snd second) (fst second) = chain r s ++ fns_b
  /\ chain (snd second) s = chain r s.
Proof.
  intros Hwf Hfull Ha Hb first second.
  assert (slice_wf (mw_heap (snd first)) (mw (fst first))) as Hwf1
    by (apply Service_Use_wf, Hwf).
  assert (slice_wf (mw_heap (snd first)) (mw s)) as Hwfs.
  { subst first. unfold Service_Use. rewrite Service_WithMiddleware_snd.
    apply append_wf_other; exact Hwf. }
  assert (chain (snd first) s = chain r s) as Hrecv
    by (apply Service_Use_keeps_receiver, Hwf).
  split; [|split].
  - subst second. rewrite (Service_Use_full_parent s (fst first) fns_b (snd first))
      by assumption.
    apply Service_Use_chain, Hwf.
  - subst second. rewrite Service_Use_chain by exact Hwfs. rewrite Hrecv. reflexivity.
  - subst second. rewrite Service_Use_keeps_receiver by exact Hwfs. exact Hrecv.
Qed.

(** Two services derived from [full_service]: the chain of the first is
    still its own after the second derivation. *)
Lemma siblings_of_full_slice_independent_witness :
  marks_of (Service_AddEndpoint (fst full_child_a) marking_handler (snd full_child_b)
                                a_request init_Store)
  = ["m1-pre"; "a-pre"; "H"; "a-post"; "m1-post"].
Proof.
  assert (slice_wf (mw_heap spare_registry) (mw full_service)) as Hwf.
  { right. exists [onion (marking "m1")]. split; [reflexivity | simpl; lia]. }
  destruct (@siblings_of_full_slice_independent exact_runtime full_service
              [onion (marking "a")] [onion (marking "b")] spare_registry Hwf eq_refl)
    as (Ha & _); [discriminate | discriminate |].
  unfold Service_AddEndpoint, full_child_b, full_child_a.
  rewrite Ha. reflexivity.
Defined.

(** X8. Two services derived, one middleware each, from one receiver whose
    middleware slice has room to spare: both calls of [append] write the
    cell behind the receiver's length in the receiver's array. The chain of
    the service derived first is the receiver's chain followed by its own
    middleware until the second derivation, and the receiver's chain
    followed by the middleware of the second afterwards; the receiver's own
    chain stays as it was. *)
Theorem siblings_of_spare_slice_share `{Runtime} (s : Service)
    (a b : MiddlewareFunc) (r : Registry) (cells : list MiddlewareFunc) :
  mw_heap r !! Slice.array (mw s) = Some cells ->
  Slice.len (mw s) <= length cells ->
  Slice.len (mw s) + 1 <= Slice.cap (mw s) ->
  let first := Service_Use s [a] r in
  let second := Service_Use s [b] (snd first) in
  chain (snd first) (fst first) = chain r s ++ [a]
  /\ chain (snd second) (fst first) = chain r s ++ [b]
  /\ chain (snd second) (fst second) = chain r s ++ [b]
  /\ chain (snd second) s = chain r s.
Proof.
  intros Hcells Hlen Hroom first second.
  assert (slice_wf (mw_heap r) (mw s)) as Hwf by (right; exists cells; split; assumption).
  assert (slice_wf (mw_heap (snd first)) (mw s)) as Hwfs.
  { subst first. unfold Service_Use. rewrite Service_WithMiddleware_snd.
    apply append_wf_other; exact Hwf. }
  destruct (append_siblings_share (mw s) a b (mw_heap r) cells Hcells Hlen Hroom)
    as (H1 & H2 & H3).
  subst second first. unfold chain, Service_Use.
  rewrite !Service_WithMiddleware_fst, !Service_WithMiddleware_snd.
  split; [exact H1|]. split; [exact H2|]. split; [exact H3|].
  rewrite append_keeps_argument.
  - apply append_keeps_argument, Hwf.
  - rewrite <- Service_WithMiddleware_snd. exact Hwfs.
Qed.

(** Two services derived from [spare_service]: after the second
    derivation the first runs the middleware of the second. *)
Lemma siblings_of_spare_slice_share_witness :
  marks_of (Service_AddEndpoint (fst spare_child_a) marking_handler (snd spare_child_b)
                                a_request init_Store)
  = ["m1-pre"; "b-pre"; "H"; "b-post"; "m1-post"].
Proof.
  destruct (@siblings_of_spare_slice_share exact_runtime spare_service
              (onion (marking "a")) (onion (marking "b")) spare_registry
              [onion (marking "m1")] eq_refl)
    as (_ & Hshare & _); [simpl; lia | simpl; lia |].
  unfold Service_AddEndpoint, spare_child_b, spare_child_a.
  rewrite Hshare. reflexivity.
Defined.

(** ** The header accessors on any header map *)

Lemma with_mrequests_same r o s :
  mrequests s !! r = Some o -> with_mrequests (fun l => <[r := o]> l) s = s.
Proof.
  intros Hr. unfold with_mrequests. rewrite list_insert_id by exact Hr.
  destruct s; reflexivity.
Qed.

Lemma with_mreplies_same p po s :
  mreplies s !! p = Some po -> with_mreplies (fun l => <[p := po]> l) s = s.
Proof.
  intros Hp. unfold with_mreplies. rewrite list_insert_id by exact Hp.
  destruct s; reflexivity.
Qed.

Lemma req_with_Headers_same o h : req_Headers o = Some h -> req_with_Headers o (Some h) = o.
Proof. destruct o; simpl; intros ->; reflexivity. Qed.

Lemma rep_with_Headers_same po h : rep_Headers po = Some h -> rep_with_Headers po (Some h) = po.
Proof. destruct po; simpl; intros ->; reflexivity. Qed.

(** The update of a header map that exists: the map is changed in place
    and the object, assigned the map it holds, stays as it is. *)
Lemma MicroRequest_header_old r o h m (f : Header.t -> Header.t) s :
  mrequests s !! r = Some o -> req_Headers o = Some h -> hmaps s !! h = Some m ->
  (o' <- req_load r ;;
   h <- match req_Headers o' with Some h => M_ret h | None => map_new end ;;
   m0 <- map_load h ;;
   map_store h (f m0) ;;;
   req_set_Headers r (Some h)) s
  = Ret tt (with_hmaps (fun l => <[h := f m]> l) s).
Proof.
  intros Hr Hh Hm.
  rewrite (M_bind_run _ _ _ _ _ (req_load_run _ _ _ Hr)). rewrite Hh.
  rewrite M_bind_ret_l.
  rewrite (M_bind_run _ _ _ _ _ (map_load_run _ _ _ Hm)).
  rewrite (M_bind_run _ _ _ _ _ (map_store_run _ _ (f m) _ Hm)).
  rewrite (req_set_Headers_run r o (Some h)) by exact Hr.
  rewrite req_with_Headers_same by exact Hh.
  rewrite with_mrequests_same by exact Hr. reflexivity.
Qed.

Lemma MicroReply_header_old p po h m (f : Header.t -> Header.t) s :
  mreplies s !! p = Some po -> rep_Headers po = Some h -> hmaps s !! h = Some m ->
  (o' <- rep_load p ;;
   h <- match rep_Headers o' with Some h => M_ret h | None => map_new end ;;
   m0 <- map_load h ;;
   map_store h (f m0) ;;;
   rep_set_Headers p (Some h)) s
  = Ret tt (with_hmaps (fun l => <[h := f m]> l) s).
Proof.
  intros Hr Hh Hm.
  rewrite (M_bind_run _ _ _ _ _ (rep_load_run _ _ _ Hr)). rewrite Hh.
  rewrite M_bind_ret_l.
  rewrite (M_bind_run _ _ _ _ _ (map_load_run _ _ _ Hm)).
  rewrite (M_bind_run _ _ _ _ _ (map_store_run _ _ (f m) _ Hm)).
  rewrite (rep_set_Headers_run p po (Some h)) by exact Hr.
  rewrite rep_with_Headers_same by exact Hh.
  rewrite with_mreplies_same by exact Hr. reflexivity.
Qed.


Lemma MicroReply_HeaderDel_old p po h m k s :
  mreplies s !! p = Some po -> rep_Headers po = Some h -> hmaps s !! h = Some m ->
  MicroReply.HeaderDel p k s = Ret tt (with_hmaps (fun l => <[h := Header.Del m k]> l) s).
Proof.
  intros Hr Hh Hm. unfold MicroReply.HeaderDel.
  rewrite (M_bind_run _ _ _ _ _ (rep_load_run _ _ _ Hr)). rewrite Hh.
  rewrite (M_bind_run _ _ _ _ _ (map_load_run _ _ _ Hm)).
  rewrite (M_bind_run _ _ _ _ _ (map_store_run _ _ (Header.Del m k) _ Hm)).
  rewrite (rep_set_Headers_run p po (Some h)) by exact Hr.
  rewrite rep_with_Headers_same by exact Hh.
  rewrite with_mreplies_same by exact Hr. reflexivity.
Qed.

(** Reading the headers of an object whose map, if any, exists. *)
Lemma MicroRequest_HeaderValues_run r o k s :
  mrequests s !! r = Some o -> request_headers_ok o s ->
  MicroRequest.HeaderValues r k s = Ret (Header.Values (request_headers o s) k) s.
Proof.
  intros Hr Hok. unfold MicroRequest.HeaderValues, request_headers, request_headers_ok in *.
  rewrite (M_bind_run _ _ _ _ _ (req_load_run _ _ _ Hr)).
  destruct (req_Headers o) as [h|]; [|reflexivity].
  destruct Hok as [m Hm]. rewrite (M_bind_run _ _ _ _ _ (map_load_run _ _ _ Hm)).
  rewrite Hm. reflexivity.
Qed.

Lemma MicroRequest_HeaderGet_run r o k s :
  mrequests s !! r = Some o -> request_headers_ok o s ->
  MicroRequest.HeaderGet r k s = of_option (Header.Get (request_headers o s) k) s.
Proof.
  intros Hr Hok. unfold MicroRequest.HeaderGet, request_headers, request_headers_ok in *.
  rewrite (M_bind_run _ _ _ _ _ (req_load_run _ _ _ Hr)).
  destruct (req_Headers o) as [h|]; [|reflexivity].
  destruct Hok as [m Hm]. rewrite (M_bind_run _ _ _ _ _ (map_load_run _ _ _ Hm)).
  rewrite Hm. reflexivity.
Qed.

Lemma MicroReply_HeaderValues_run p po k s :
  mreplies s !! p = Some po -> reply_headers_ok po s ->
  MicroReply.HeaderValues p k s = Ret (Header.Values (reply_headers po s) k) s.
Proof.
  intros Hr Hok. unfold MicroReply.HeaderValues, reply_headers, reply_headers_ok in *.
  rewrite (M_bind_run _ _ _ _ _ (rep_load_run _ _ _ Hr)).
  destruct (rep_Headers po) as [h|]; [|reflexivity].
  destruct Hok as [m Hm]. rewrite (M_bind_run _ _ _ _ _ (map_load_run _ _ _ Hm)).
  rewrite Hm. reflexivity.
Qed.

Lemma MicroReply_HeaderGet_run p po k s :
  mreplies s !! p = Some po -> reply_headers_ok po s ->
  MicroReply.HeaderGet p k s = of_option (Header.Get (reply_headers po s) k) s.
Proof.
  intros Hr Hok. unfold MicroReply.HeaderGet, reply_headers, reply_headers_ok in *.
  rewrite (M_bind_run _ _ _ _ _ (rep_load_run _ _ _ Hr)).
  destruct (rep_Headers po) as [h|]; [|reflexivity].
  destruct Hok as [m Hm]. rewrite (M_bind_run _ _ _ _ _ (map_load_run _ _ _ Hm)).
  rewrite Hm. reflexivity.
Qed.

(** What [HeaderAdd] and [HeaderSet] leave behind, whether the map was nil
    or not: the object with a header map that exists and holds the updated
    contents, its other fields as they were. *)
Lemma MicroRequest_header_update r o (f : Header.t -> Header.t) s :
  mrequests s !! r = Some o -> request_headers_ok o s ->
  exists s' o',
    (o' <- req_load r ;;
     h <- match req_Headers o' with Some h => M_ret h | None => map_new end ;;
     m0 <- map_load h ;;
     map_store h (f m0) ;;;
     req_set_Headers r (Some h)) s = Ret tt s'
    /\ mrequests s' !! r = Some o'
    /\ request_headers_ok o' s'
    /\ request_headers o' s' = f (request_headers o s)
    /\ req_Data o' = req_Data o /\ req_ctx o' = req_ctx o
    /\ req_Subject o' = req_Subject o /\ req_Reply o' = req_Reply o.
Proof.
  intros Hr Hok. pose proof (lookup_lt_Some _ _ _ Hr) as Hlt.
  unfold request_headers_ok, request_headers in *.
  destruct (req_Headers o) as [h|] eqn:Hh.
  - destruct Hok as [m Hm]. pose proof (lookup_lt_Some _ _ _ Hm) as Hlth.
    exists (with_hmaps (fun l => <[h := f m]> l) s), o.
    split; [apply (MicroRequest_header_old r o h m f s Hr Hh Hm)|].
    split; [exact Hr|]. rewrite Hh. simpl.
    rewrite list_lookup_insert_eq by exact Hlth. rewrite Hm.
    repeat split; eauto.
  - exists (with_mrequests (fun l => <[r := req_with_Headers o (Some (length (hmaps s)))]> l)
              (with_hmaps (fun l => l ++ [f ∅]) s)),
           (req_with_Headers o (Some (length (hmaps s)))).
    split; [apply (MicroRequest_header_new r o f s Hr Hh)|].
    split; [simpl; apply list_lookup_insert_eq, Hlt|]. simpl.
    rewrite lookup_snoc. repeat split; eauto.
Qed.

Lemma MicroReply_header_update p po (f : Header.t -> Header.t) s :
  mreplies s !! p = Some po -> reply_headers_ok po s ->
  exists s' po',
    (o' <- rep_load p ;;
     h <- match rep_Headers o' with Some h => M_ret h | None => map_new end ;;
     m0 <- map_load h ;;
     map_store h (f m0) ;;;
     rep_set_Headers p (Some h)) s = Ret tt s'
    /\ mreplies s' !! p = Some po'
    /\ reply_headers_ok po' s'
    /\ reply_headers po' s' = f (reply_headers po s)
    /\ rep_Data po' = rep_Data po.
Proof.
  intros Hr Hok. pose proof (lookup_lt_Some _ _ _ Hr) as Hlt.
  unfold reply_headers_ok, reply_headers in *.
  destruct (rep_Headers po) as [h|] eqn:Hh.
  - destruct Hok as [m Hm]. pose proof (lookup_lt_Some _ _ _ Hm) as Hlth.
    exists (with_hmaps (fun l => <[h := f m]> l) s), po.
    split; [apply (MicroReply_header_old p po h m f s Hr Hh Hm)|].
    split; [exact Hr|]. rewrite Hh. simpl.
    rewrite list_lookup_insert_eq by exact Hlth. rewrite Hm.
    repeat split; eauto.
  - exists (with_mreplies (fun l => <[p := rep_with_Headers po (Some (length (hmaps s)))]> l)
              (with_hmaps (fun l => l ++ [f ∅]) s)),
           (rep_with_Headers po (Some (length (hmaps s)))).
    split; [apply (MicroReply_header_new p po f s Hr Hh)|].
    split; [simpl; apply list_lookup_insert_eq, Hlt|]. simpl.
    rewrite lookup_snoc. repeat split; eauto.
Qed.


Lemma MicroReply_HeaderDel_update p po k s :
  mreplies s !! p = Some po -> reply_headers_ok po s ->
  exists s',
    MicroReply.HeaderDel p k s = Ret tt s'
    /\ mreplies s' !! p = Some po
    /\ reply_headers_ok po s'
    /\ reply_headers po s' = Header.Del (reply_headers po s) k.
Proof.
  intros Hr Hok. unfold reply_headers_ok, reply_headers in *.
  destruct (rep_Headers po) as [h|] eqn:Hh.
  - destruct Hok as [m Hm]. pose proof (lookup_lt_Some _ _ _ Hm) as Hlth.
    exists (with_hmaps (fun l => <[h := Header.Del m k]> l) s).
    split; [apply (MicroReply_HeaderDel_old p po h m k s Hr Hh Hm)|].
    split; [exact Hr|]. simpl.
    rewrite list_lookup_insert_eq by exact Hlth. rewrite Hm. split; eauto.
  - exists s. split.
    + unfold MicroReply.HeaderDel.
      rewrite (M_bind_run _ _ _ _ _ (rep_load_run _ _ _ Hr)). rewrite Hh. reflexivity.
    + split; [exact Hr|]. split; [exact I|].
      unfold Header.Del. rewrite delete_empty. reflexivity.
Qed.

Lemma Ret_inj {A} (a b : A) (s s' : Store) : Ret a s = Ret b s' -> a = b.
Proof. intros Heq. injection Heq as -> _. reflexivity. Qed.







(** ** Header maps are shared, not copied *)

Lemma MicroRequest_HeaderGet_at r o h m k s :
  mrequests s !! r = Some o -> req_Headers o = Some h -> hmaps s !! h = Some m ->
  MicroRequest.HeaderGet r k s = of_option (Header.Get m k) s.
Proof.
  intros Hr Hh Hm. unfold MicroRequest.HeaderGet.
  rewrite (M_bind_run _ _ _ _ _ (req_load_run _ _ _ Hr)). rewrite Hh.
  rewrite (M_bind_run _ _ _ _ _ (map_load_run _ _ _ Hm)). reflexivity.
Qed.

Lemma MicroRequest_HeaderGet_nil r o k s :
  mrequests s !! r = Some o -> req_Headers o = None ->
  MicroRequest.HeaderGet r k s = Ret "" s.
Proof.
  intros Hr Hh. unfold MicroRequest.HeaderGet.
  rewrite (M_bind_run _ _ _ _ _ (req_load_run _ _ _ Hr)). rewrite Hh. reflexivity.
Qed.

Lemma Header_Get_Set m k v : Header.Get (Header.Set_ m k v) k = Some v.
Proof. unfold Header.Get, Header.Set_. rewrite lookup_insert_eq. reflexivity. Qed.

(** X12. A request derived with [WithContext] holds the header map of the
    receiver, not a copy. When the receiver has a header map, a header
    set through either of the two requests is read through the other.
    When the receiver's map is nil, [HeaderSet] makes a new map for the
    request it is called on only: the other one still reads the empty
    string. *)
Theorem WithContext_shares_header_map (r : ptr) (o : MicroRequest)
    (c : option context_Context) (key value : string) (s : Store) :
  mrequests s !! r = Some o -> request_headers_ok o s ->
  let p := length (mrequests s) in
  let s1 := with_mrequests (fun l => l ++ [MicroRequest_derived o c]) s in
  MicroRequest.WithContext r c s = Ret p s1
  /\ (exists s2, MicroRequest.HeaderSet p key value s1 = Ret tt s2
        /\ MicroRequest.HeaderGet p key s2 = Ret value s2
        /\ (is_Some (req_Headers o) -> MicroRequest.HeaderGet r key s2 = Ret value s2)
        /\ (req_Headers o = None -> MicroRequest.HeaderGet r key s2 = Ret "" s2))
  /\ (exists s2, MicroRequest.HeaderSet r key value s1 = Ret tt s2
        /\ MicroRequest.HeaderGet r key s2 = Ret value s2
        /\ (is_Some (req_Headers o) -> MicroRequest.HeaderGet p key s2 = Ret value s2)
        /\ (req_Headers o = None -> MicroRequest.HeaderGet p key s2 = Ret "" s2)).
Proof.
  intros Hr Hok p s1. pose proof (lookup_lt_Some _ _ _ Hr) as Hlt.
  assert (mrequests s1 !! p = Some (MicroRequest_derived o c)) as Hp1 by apply lookup_snoc.
  assert (mrequests s1 !! r = Some o) as Hr1.
  { subst s1. simpl. rewrite lookup_snoc_old by exact Hlt. exact Hr. }
  assert (r <> p) as Hne by (subst p; lia).
  assert (p < length (mrequests s1)) as Hltp by (apply lookup_lt_Some in Hp1; exact Hp1).
  assert (r < length (mrequests s1)) as Hltr by (apply lookup_lt_Some in Hr1; exact Hr1).
  split; [apply MicroRequest_WithContext_run, Hr|].
  unfold request_headers_ok in Hok.
  destruct (req_Headers o) as [h|] eqn:Hh.
  - destruct Hok as [m Hm]. pose proof (lookup_lt_Some _ _ _ Hm) as Hlth.
    assert (hmaps s1 !! h = Some m) as Hm1 by exact Hm.
    set (s2 := with_hmaps (fun l => <[h := Header.Set_ m key value]> l) s1).
    assert (hmaps s2 !! h = Some (Header.Set_ m key value)) as Hm2.
    { subst s2. simpl. apply list_lookup_insert_eq, Hlth. }
    assert (MicroRequest.HeaderGet p key s2 = Ret value s2) as Hgp.
    { rewrite (MicroRequest_HeaderGet_at p _ h _ key s2 Hp1 Hh Hm2), Header_Get_Set.
      reflexivity. }
    assert (MicroRequest.HeaderGet r key s2 = Ret value s2) as Hgr.
    { rewrite (MicroRequest_HeaderGet_at r _ h _ key s2 Hr1 Hh Hm2), Header_Get_Set.
      reflexivity. }
    split; exists s2.
    + split; [apply (MicroRequest_header_old p _ h m _ s1 Hp1 Hh Hm1)|].
      split; [exact Hgp|]. split; [intros _; exact Hgr | discriminate].
    + split; [apply (MicroRequest_header_old r _ h m _ s1 Hr1 Hh Hm1)|].
      split; [exact Hgr|]. split; [intros _; exact Hgp | discriminate].
  - set (fresh := with_hmaps (fun l => l ++ [Header.Set_ ∅ key value]) s1).
    set (hn := length (hmaps s1)).
    assert (forall q qo, mrequests s1 !! q = Some qo -> req_Headers qo = None ->
            forall q' qo', q' <> q -> mrequests s1 !! q' = Some qo' -> req_Headers qo' = None ->
            let s2 := with_mrequests (fun l => <[q := req_with_Headers qo (Some hn)]> l) fresh in
            MicroRequest.HeaderSet q key value s1 = Ret tt s2
            /\ MicroRequest.HeaderGet q key s2 = Ret value s2
            /\ (is_Some (@None mapref) -> MicroRequest.HeaderGet q' key s2 = Ret value s2)
            /\ (@None mapref = None -> MicroRequest.HeaderGet q' key s2 = Ret "" s2)) as Hcase.
    { intros q qo Hq Hqh q' qo' Hqq Hq' Hqh' s2.
      pose proof (lookup_lt_Some _ _ _ Hq) as Hltq.
      split; [apply (MicroRequest_header_new q qo (fun m => Header.Set_ m key value) s1 Hq Hqh)|].
      split; [|split].
      - rewrite (MicroRequest_HeaderGet_at q (req_with_Headers qo (Some hn)) hn
                   (Header.Set_ ∅ key value) key s2).
        + rewrite Header_Get_Set. reflexivity.
        + subst s2. simpl. apply list_lookup_insert_eq, Hltq.
        + reflexivity.
        + subst s2 fresh hn. simpl. apply lookup_snoc.
      - intros [x Hx]. discriminate.
      - intros _. apply (MicroRequest_HeaderGet_nil q' qo'); [|exact Hqh'].
        subst s2. simpl. rewrite list_lookup_insert_ne by congruence. exact Hq'. }
    split.
    + eexists. apply (Hcase p _ Hp1 Hh r o); [exact Hne | exact Hr1 | exact Hh].
    + eexists. apply (Hcase r o Hr1 Hh p (MicroRequest_derived o c));
        [congruence | exact Hp1 | exact Hh].
Qed.

(** The request of [envelope_store], which has a header map: the header
    set through the derived request is read through the receiver. *)
Lemma WithContext_shares_header_map_witness :
  exists s2,
    (p <- MicroRequest.WithContext 0 ctx1 ;; MicroRequest.HeaderSet p "tenant" "acme")
      envelope_store = Ret tt s2
    /\ MicroRequest.HeaderGet 0 "tenant" s2 = Ret "acme" s2.
Proof.
  destruct (WithContext_shares_header_map 0
              (mkMicroRequest "foo" "_INBOX.1" (Some 0) [] None) ctx1 "tenant" "acme"
              envelope_store eq_refl)
    as (Hwith & (s2 & Hset & _ & Hshared & _) & _).
  - exists {["encoding" := ["gzip"]; "trace" := ["t1"; "t2"]]}. reflexivity.
  - exists s2. split.
    + rewrite (M_bind_run _ _ _ _ _ Hwith). exact Hset.
    + apply Hshared. exists 0. reflexivity.
Defined.

(** What an update of the headers of a request leaves alone: the maps of
    other objects, the replies and the other requests. *)
Lemma MicroRequest_header_update_frame r o (f : Header.t -> Header.t) s s' :
  mrequests s !! r = Some o -> request_headers_ok o s ->
  (o' <- req_load r ;;
   h <- match req_Headers o' with Some h => M_ret h | None => map_new end ;;
   m0 <- map_load h ;;
   map_store h (f m0) ;;;
   req_set_Headers r (Some h)) s = Ret tt s' ->
  (forall i, req_Headers o <> Some i -> i < length (hmaps s) -> hmaps s' !! i = hmaps s !! i)
  /\ mreplies s' = mreplies s
  /\ (forall q, q <> r -> mrequests s' !! q = mrequests s !! q).
Proof.
  intros Hr Hok Hrun. unfold request_headers_ok in Hok.
  destruct (req_Headers o) as [h|] eqn:Hh.
  - destruct Hok as [m Hm].
    rewrite (MicroRequest_header_old r o h m f s Hr Hh Hm) in Hrun.
    injection Hrun as <-. simpl. split; [|split; [reflexivity|reflexivity]].
    intros i Hi _. apply list_lookup_insert_ne. congruence.
  - rewrite (MicroRequest_header_new r o f s Hr Hh) in Hrun.
    injection Hrun as <-. simpl. split; [|split; [reflexivity|]].
    + intros i _ Hi. apply lookup_snoc_old, Hi.
    + intros q Hq. apply list_lookup_insert_ne. congruence.
Qed.

Lemma MicroReply_header_update_frame p po (f : Header.t -> Header.t) s s' :
  mreplies s !! p = Some po -> reply_headers_ok po s ->
  (o' <- rep_load p ;;
   h <- match rep_Headers o' with Some h => M_ret h | None => map_new end ;;
   m0 <- map_load h ;;
   map_store h (f m0) ;;;
   rep_set_Headers p (Some h)) s = Ret tt s' ->
  (forall i, rep_Headers po <> Some i -> i < length (hmaps s) -> hmaps s' !! i = hmaps s !! i)
  /\ mrequests s' = mrequests s
  /\ (forall q, q <> p -> mreplies s' !! q = mreplies s !! q).
Proof.
  intros Hr Hok Hrun. unfold reply_headers_ok in Hok.
  destruct (rep_Headers po) as [h|] eqn:Hh.
  - destruct Hok as [m Hm].
    rewrite (MicroReply_header_old p po h m f s Hr Hh Hm) in Hrun.
    injection Hrun as <-. simpl. split; [|split; [reflexivity|reflexivity]].
    intros i Hi _. apply list_lookup_insert_ne. congruence.
  - rewrite (MicroReply_header_new p po f s Hr Hh) in Hrun.
    injection Hrun as <-. simpl. split; [|split; [reflexivity|]].
    + intros i _ Hi. apply lookup_snoc_old, Hi.
    + intros q Hq. apply list_lookup_insert_ne. congruence.
Qed.

Lemma MicroReply_HeaderDel_frame p po k s s' :
  mreplies s !! p = Some po -> reply_headers_ok po s ->
  MicroReply.HeaderDel p k s = Ret tt s' ->
  (forall i, rep_Headers po <> Some i -> i < length (hmaps s) -> hmaps s' !! i = hmaps s !! i)
  /\ mrequests s' = mrequests s
  /\ (forall q, q <> p -> mreplies s' !! q = mreplies s !! q).
Proof.
  intros Hr Hok Hrun. unfold reply_headers_ok in Hok.
  destruct (rep_Headers po) as [h|] eqn:Hh.
  - destruct Hok as [m Hm].
    rewrite (MicroReply_HeaderDel_old p po h m k s Hr Hh Hm) in Hrun.
    injection Hrun as <-. simpl. split; [|split; [reflexivity|reflexivity]].
    intros i Hi _. apply list_lookup_insert_ne. congruence.
  - unfold MicroReply.HeaderDel in Hrun.
    rewrite (M_bind_run _ _ _ _ _ (rep_load_run _ _ _ Hr)) in Hrun. rewrite Hh in Hrun.
    injection Hrun as <-. repeat split; reflexivity.
Qed.

(** The headers of an object read the same in a store that holds the same
    map behind its reference. *)
Lemma request_headers_frame o s s' :
  (forall h, req_Headers o = Some h -> hmaps s' !! h = hmaps s !! h) ->
  request_headers o s' = request_headers o s
  /\ (request_headers_ok o s -> request_headers_ok o s').
Proof.
  intros Hsame. unfold request_headers, request_headers_ok.
  destruct (req_Headers o) as [h|]; [|split; [reflexivity | exact id]].
  rewrite (Hsame h eq_refl). split; [reflexivity | exact id].
Qed.

Lemma reply_headers_frame po s s' :
  (forall h, rep_Headers po = Some h -> hmaps s' !! h = hmaps s !! h) ->
  reply_headers po s' = reply_headers po s
  /\ (reply_headers_ok po s -> reply_headers_ok po s').
Proof.
  intros Hsame. unfold reply_headers, reply_headers_ok.
  destruct (rep_Headers po) as [h|]; [|split; [reflexivity | exact id]].
  rewrite (Hsame h eq_refl). split; [reflexivity | exact id].
Qed.

Lemma request_headers_at o h m s :
  req_Headers o = Some h -> hmaps s !! h = Some m -> request_headers o s = m.
Proof. unfold request_headers. intros -> ->. reflexivity. Qed.

Lemma reply_headers_at po h m s :
  rep_Headers po = Some h -> hmaps s !! h = Some m -> reply_headers po s = m.
Proof. unfold reply_headers. intros -> ->. reflexivity. Qed.

Lemma request_headers_ok_lt o s h :
  request_headers_ok o s -> req_Headers o = Some h -> h < length (hmaps s).
Proof.
  unfold request_headers_ok. intros Hok Hh. rewrite Hh in Hok.
  destruct Hok as [m Hm]. apply lookup_lt_Some in Hm. exact Hm.
Qed.

(** X13. [newMicroRequest] keeps the header map of the transport's request:
    the new request reads the transport's headers and holds the context
    given, and a header set through it is written into the transport's
    map. *)
Theorem newMicroRequest_shares_transport_headers (req : micro_Request)
    (ctx : option context_Context) (key value : string) (s : Store)
    (h : mapref) (m : Header.t) :
  micro_Headers req = Some h -> hmaps s !! h = Some m ->
  let p := length (mrequests s) in
  exists s1,
    MicroRequest.newMicroRequest req ctx s = Ret p s1
    /\ mrequests s1 !! p
       = Some (mkMicroRequest (micro_Subject req) (micro_Reply req) (Some h)
                              (micro_Data req) ctx)
    /\ (forall i, i < length (mrequests s) -> mrequests s1 !! i = mrequests s !! i)
    /\ MicroRequest.Context p s1 = Ret ctx s1
    /\ (forall k, MicroRequest.HeaderValues p k s1 = Ret (Header.Values m k) s1)
    /\ exists s2, MicroRequest.HeaderSet p key value s1 = Ret tt s2
                  /\ hmaps s2 !! h = Some (Header.Set_ m key value).
Proof.
  intros Hh Hm p.
  set (o := mkMicroRequest (micro_Subject req) (micro_Reply req) (Some h) (micro_Data req) ctx).
  set (s1 := with_mrequests (fun l => l ++ [o]) s).
  assert (mrequests s1 !! p = Some o) as Hp by apply lookup_snoc.
  assert (hmaps s1 !! h = Some m) as Hm1 by exact Hm.
  assert (request_headers_ok o s1) as Hok by (exists m; exact Hm1).
  exists s1. split; [|split; [exact Hp|split; [|split; [|split]]]].
  - unfold MicroRequest.newMicroRequest. rewrite Hh. reflexivity.
  - intros i Hi. apply lookup_snoc_old, Hi.
  - apply (MicroRequest_Context_run p o s1 Hp).
  - intros k. rewrite (MicroRequest_HeaderValues_run p o k s1 Hp Hok).
    rewrite (request_headers_at o h m s1 eq_refl Hm1). reflexivity.
  - exists (with_hmaps (fun l => <[h := Header.Set_ m key value]> l) s1).
    split; [apply (MicroRequest_header_old p o h m _ s1 Hp eq_refl Hm1)|].
    simpl. apply list_lookup_insert_eq. apply lookup_lt_Some in Hm. exact Hm.
Qed.

(** A header set through the new request is found in the first map of
    [envelope_store], the one the transport's request holds. *)
Lemma newMicroRequest_shares_transport_headers_witness :
  exists s2,
    (p <- MicroRequest.newMicroRequest transport_request ctx0 ;;
     MicroRequest.HeaderSet p "encoding" "deflate") envelope_store = Ret tt s2
    /\ hmaps s2 !! 0
       = Some (Header.Set_ {["encoding" := ["gzip"]; "trace" := ["t1"; "t2"]]}
                           "encoding" "deflate").
Proof.
  destruct (newMicroRequest_shares_transport_headers transport_request ctx0
              "encoding" "deflate" envelope_store 0
              {["encoding" := ["gzip"]; "trace" := ["t1"; "t2"]]} eq_refl eq_refl)
    as (s1 & Hnew & _ & _ & _ & _ & s2 & Hset & Hmap).
  exists s2. split; [|exact Hmap].
  rewrite (M_bind_run _ _ _ _ _ Hnew). exact Hset.
Defined.

(** ** Replies: new header maps and copied headers *)

(** X14. [NewMicroReply] gives every reply a header map of its own, empty and
    not nil: every key of a new reply reads as absent, the payload is the
    one given, the replies and maps that exist are left alone, and a header
    set on one of two new replies is not read through the other. *)
Theorem NewMicroReply_fresh_headers (d1 d2 : list byte) (key value : string) (s : Store) :
  let p1 := length (mreplies s) in
  let p2 := S p1 in
  exists s2,
    (a <- MicroReply.NewMicroReply d1 ;; b <- MicroReply.NewMicroReply d2 ;; M_ret (a, b)) s
    = Ret (p1, p2) s2
    /\ (forall k, MicroReply.HeaderGet p1 k s2 = Ret "" s2
                  /\ MicroReply.HeaderValues p1 k s2 = Ret [] s2)
    /\ rep_Data <$> mreplies s2 !! p1 = Some d1
    /\ rep_Data <$> mreplies s2 !! p2 = Some d2
    /\ (forall i, i < length (mreplies s) -> mreplies s2 !! i = mreplies s !! i)
    /\ (forall i, i < length (hmaps s) -> hmaps s2 !! i = hmaps s !! i)
    /\ exists s3, MicroReply.HeaderSet p1 key value s2 = Ret tt s3
                  /\ MicroReply.HeaderGet p1 key s3 = Ret value s3
                  /\ MicroReply.HeaderGet p2 key s3 = Ret "" s3.
Proof.
  intros p1 p2.
  set (h1 := length (hmaps s)).
  set (po1 := mkMicroReply (Some h1) d1).
  set (po2 := mkMicroReply (Some (S h1)) d2).
  set (s1 := with_mreplies (fun l => l ++ [po1]) (with_hmaps (fun l => l ++ [∅]) s)).
  set (s2 := with_mreplies (fun l => l ++ [po2]) (with_hmaps (fun l => l ++ [∅]) s1)).
  assert (hmaps s2 = (hmaps s ++ [∅]) ++ [∅]) as Hmaps by reflexivity.
  assert (mreplies s2 = (mreplies s ++ [po1]) ++ [po2]) as Hreps by reflexivity.
  assert (mreplies s2 !! p1 = Some po1) as Hp1.
  { rewrite Hreps, lookup_app_l by (rewrite length_app; simpl; subst p1; lia).
    apply lookup_snoc. }
  assert (mreplies s2 !! p2 = Some po2) as Hp2.
  { rewrite Hreps. subst p2 p1.
    replace (S (length (mreplies s))) with (length (mreplies s ++ [po1]))
      by (rewrite length_app; simpl; lia).
    apply lookup_snoc. }
  assert (hmaps s2 !! h1 = Some ∅) as Hh1.
  { rewrite Hmaps, lookup_app_l by (rewrite length_app; simpl; subst h1; lia).
    apply lookup_snoc. }
  assert (hmaps s2 !! S h1 = Some ∅) as Hh2.
  { rewrite Hmaps. subst h1.
    replace (S (length (hmaps s))) with (length (hmaps s ++ [∅]))
      by (rewrite length_app; simpl; lia).
    apply lookup_snoc. }
  assert (reply_headers_ok po1 s2) as Hok1 by (exists ∅; exact Hh1).
  exists s2. split; [|split; [|split; [|split; [|split; [|split]]]]].
  - subst s2 s1 po1 po2 p2 p1 h1. unfold MicroReply.NewMicroReply, M_bind, map_new, rep_new, M_ret.
    simpl. rewrite !length_app. simpl. rewrite !Nat.add_1_r. reflexivity.
  - intros k. rewrite (MicroReply_HeaderGet_run p1 po1 k s2 Hp1 Hok1).
    rewrite (MicroReply_HeaderValues_run p1 po1 k s2 Hp1 Hok1).
    rewrite (reply_headers_at po1 h1 ∅ s2 eq_refl Hh1).
    unfold Header.Get, Header.Values. rewrite lookup_empty. split; reflexivity.
  - rewrite Hp1. reflexivity.
  - rewrite Hp2. reflexivity.
  - intros i Hi. rewrite Hreps.
    rewrite lookup_app_l by (rewrite length_app; simpl; lia).
    apply lookup_snoc_old, Hi.
  - intros i Hi. rewrite Hmaps.
    rewrite lookup_app_l by (rewrite length_app; simpl; lia).
    apply lookup_snoc_old, Hi.
  - set (s3 := with_hmaps (fun l => <[h1 := Header.Set_ ∅ key value]> l) s2).
    exists s3. split; [apply (MicroReply_header_old p1 po1 h1 ∅ _ s2 Hp1 eq_refl Hh1)|].
    assert (hmaps s3 !! h1 = Some (Header.Set_ ∅ key value)) as Hh1'.
    { subst s3. simpl. apply list_lookup_insert_eq. apply lookup_lt_Some in Hh1. exact Hh1. }
    assert (hmaps s3 !! S h1 = Some ∅) as Hh2'.
    { subst s3. simpl. rewrite list_lookup_insert_ne by lia. exact Hh2. }
    split.
    + rewrite (MicroReply_HeaderGet_run p1 po1 key s3 Hp1);
        [|exists (Header.Set_ ∅ key value); exact Hh1'].
      rewrite (reply_headers_at po1 h1 _ s3 eq_refl Hh1'), Header_Get_Set. reflexivity.
    + rewrite (MicroReply_HeaderGet_run p2 po2 key s3 Hp2); [|exists ∅; exact Hh2'].
      rewrite (reply_headers_at po2 (S h1) _ s3 eq_refl Hh2').
      unfold Header.Get. rewrite lookup_empty. reflexivity.
Qed.

(** [NewMicroReplyFromRequest] on a request whose header map, if any,
    exists: one new map holding the contents of the request's map, one new
    reply pointing to it, nothing else changed. *)
Lemma NewMicroReplyFromRequest_run data req o s :
  mrequests s !! req = Some o -> request_headers_ok o s ->
  exists s1,
    MicroReply.NewMicroReplyFromRequest data req s = Ret (length (mreplies s)) s1
    /\ hmaps s1 = hmaps s ++ [request_headers o s]
    /\ mreplies s1 = mreplies s ++ [mkMicroReply (Some (length (hmaps s))) data]
    /\ mrequests s1 = mrequests s
    /\ requests s1 = requests s
    /\ compressMin s1 = compressMin s
    /\ trace s1 = trace s.
Proof.
  intros Hr Hok.
  set (fresh := with_hmaps (fun l => l ++ [∅]) s).
  assert (map_new s = Ret (length (hmaps s)) fresh) as Hnew by reflexivity.
  assert (mrequests fresh !! req = Some o) as Hr' by exact Hr.
  assert (hmaps fresh !! length (hmaps s) = Some ∅) as Hfresh by apply lookup_snoc.
  assert ((match req_Headers o with
           | None => M_ret ∅
           | Some rh => map_load rh
           end) fresh = Ret (request_headers o s) fresh) as Hsrc.
  { unfold request_headers, request_headers_ok in *.
    destruct (req_Headers o) as [rh|]; [|reflexivity].
    destruct Hok as [m Hm]. rewrite Hm. simpl.
    apply map_load_run. subst fresh. simpl.
    rewrite lookup_snoc_old by (apply lookup_lt_Some in Hm; exact Hm). exact Hm. }
  eexists. split.
  - unfold MicroReply.NewMicroReplyFromRequest.
    rewrite (M_bind_run _ _ _ _ _ Hnew).
    rewrite (M_bind_run _ _ _ _ _ (req_load_run _ _ _ Hr')).
    rewrite (M_bind_run _ _ _ _ _ Hsrc).
    rewrite (M_bind_run _ _ _ _ _ (map_store_run _ _ (request_headers o s) _ Hfresh)).
    reflexivity.
  - simpl. rewrite insert_snoc. repeat split; reflexivity.
Qed.

(** X15. [NewMicroReplyFromRequest] copies the headers of the request into a
    map of the reply's own: the new reply reads, under every key, the
    values the request has, and the request reads as before; afterwards a
    header set on or deleted from the reply leaves every header of the
    request as it was, and a header set on the request leaves every
    header of the reply as it was copied. *)
Theorem NewMicroReplyFromRequest_copies (data : list byte) (req : ptr)
    (o : MicroRequest) (key value : string) (s : Store) :
  mrequests s !! req = Some o -> request_headers_ok o s ->
  let p := length (mreplies s) in
  exists s1,
    MicroReply.NewMicroReplyFromRequest data req s = Ret p s1
    /\ rep_Data <$> mreplies s1 !! p = Some data
    /\ (forall k vs, MicroRequest.HeaderValues req k s = Ret vs s ->
          MicroReply.HeaderValues p k s1 = Ret vs s1
          /\ MicroRequest.HeaderValues req k s1 = Ret vs s1)
    /\ (exists s2, MicroReply.HeaderSet p key value s1 = Ret tt s2
          /\ forall k vs, MicroRequest.HeaderValues req k s = Ret vs s ->
                          MicroRequest.HeaderValues req k s2 = Ret vs s2)
    /\ (exists s2, MicroReply.HeaderDel p key s1 = Ret tt s2
          /\ forall k vs, MicroRequest.HeaderValues req k s = Ret vs s ->
                          MicroRequest.HeaderValues req k s2 = Ret vs s2)
    /\ (exists s2, MicroRequest.HeaderSet req key value s1 = Ret tt s2
          /\ forall k vs, MicroRequest.HeaderValues req k s = Ret vs s ->
                          MicroReply.HeaderValues p k s2 = Ret vs s2).
Proof.
  intros Hr Hok p.
  destruct (NewMicroReplyFromRequest_run data req o s Hr Hok)
    as (s1 & Hrun & Hmaps & Hreps & Hreqs & _).
  set (h' := length (hmaps s)) in *.
  set (po := mkMicroReply (Some h') data) in *.
  assert (mreplies s1 !! p = Some po) as Hp by (rewrite Hreps; apply lookup_snoc).
  assert (hmaps s1 !! h' = Some (request_headers o s)) as Hh'
    by (rewrite Hmaps; apply lookup_snoc).
  assert (reply_headers_ok po s1) as Hpok by (eexists; exact Hh').
  assert (mrequests s1 !! req = Some o) as Hr1 by (rewrite Hreqs; exact Hr).
  assert (forall h, req_Headers o = Some h -> h < h') as Hold
    by (intros h Hh; apply (request_headers_ok_lt o s h Hok Hh)).
  destruct (request_headers_frame o s s1) as [Hsame1 Hok1].
  { intros h Hh. rewrite Hmaps. apply lookup_snoc_old, Hold, Hh. }
  specialize (Hok1 Hok).
  assert (forall k vs, MicroRequest.HeaderValues req k s = Ret vs s ->
                       vs = Header.Values (request_headers o s) k) as Hvs.
  { intros k vs Hbefore. rewrite (MicroRequest_HeaderValues_run req o k s Hr Hok) in Hbefore.
    apply Ret_inj in Hbefore. congruence. }
  exists s1. split; [exact Hrun|]. split; [rewrite Hp; reflexivity|].
  split; [|split; [|split]].
  - intros k vs Hbefore. rewrite (Hvs k vs Hbefore). split.
    + rewrite (MicroReply_HeaderValues_run p po k s1 Hp Hpok).
      rewrite (reply_headers_at po h' _ s1 eq_refl Hh'). reflexivity.
    + rewrite (MicroRequest_HeaderValues_run req o k s1 Hr1 Hok1), Hsame1. reflexivity.
  - destruct (MicroReply_header_update p po (fun m => Header.Set_ m key value) s1 Hp Hpok)
      as (s2 & po' & Hset & _).
    destruct (MicroReply_header_update_frame p po _ s1 s2 Hp Hpok Hset)
      as (Hfr & Hreqs2 & _).
    exists s2. split; [exact Hset|].
    intros k vs Hbefore. rewrite (Hvs k vs Hbefore).
    destruct (request_headers_frame o s1 s2) as [Hsame2 Hok2].
    { intros h Hh. apply Hfr.
      - simpl. intros Heq. injection Heq as Heq. specialize (Hold h Hh). lia.
      - rewrite Hmaps, length_app. specialize (Hold h Hh). simpl. fold h'. lia. }
    rewrite (MicroRequest_HeaderValues_run req o k s2); [| rewrite Hreqs2; exact Hr1 | auto].
    rewrite Hsame2, Hsame1. reflexivity.
  - destruct (MicroReply_HeaderDel_update p po key s1 Hp Hpok) as (s2 & Hdel & _).
    destruct (MicroReply_HeaderDel_frame p po key s1 s2 Hp Hpok Hdel)
      as (Hfr & Hreqs2 & _).
    exists s2. split; [exact Hdel|].
    intros k vs Hbefore. rewrite (Hvs k vs Hbefore).
    destruct (request_headers_frame o s1 s2) as [Hsame2 Hok2].
    { intros h Hh. apply Hfr.
      - simpl. intros Heq. injection Heq as Heq. specialize (Hold h Hh). lia.
      - rewrite Hmaps, length_app. specialize (Hold h Hh). simpl. fold h'. lia. }
    rewrite (MicroRequest_HeaderValues_run req o k s2); [| rewrite Hreqs2; exact Hr1 | auto].
    rewrite Hsame2, Hsame1. reflexivity.
  - destruct (MicroRequest_header_update req o (fun m => Header.Set_ m key value) s1 Hr1 Hok1)
      as (s2 & o' & Hset & _).
    destruct (MicroRequest_header_update_frame req o _ s1 s2 Hr1 Hok1 Hset)
      as (Hfr & Hreps2 & _).
    exists s2. split; [exact Hset|].
    intros k vs Hbefore. rewrite (Hvs k vs Hbefore).
    destruct (reply_headers_frame po s1 s2) as [Hsame2 Hok2].
    { intros h Hh. injection Hh as <-. apply Hfr.
      - intros Heq. specialize (Hold h' Heq). lia.
      - rewrite Hmaps, length_app. simpl. fold h'. lia. }
    rewrite (MicroReply_HeaderValues_run p po k s2); [| rewrite Hreps2; exact Hp | auto].
    rewrite Hsame2. rewrite (reply_headers_at po h' _ s1 eq_refl Hh'). reflexivity.
Qed.

(** The reply made from the request of [envelope_store] reads the two
    values of the request under the key trace. *)
Lemma NewMicroReplyFromRequest_copies_witness :
  exists s1,
    MicroReply.NewMicroReplyFromRequest [] 0 envelope_store = Ret 1 s1
    /\ MicroReply.HeaderValues 1 "trace" s1 = Ret ["t1"; "t2"] s1.
Proof.
  destruct (NewMicroReplyFromRequest_copies [] 0
              (mkMicroRequest "foo" "_INBOX.1" (Some 0) [] None) "trace" "t3"
              envelope_store eq_refl)
    as (s1 & Hrun & _ & Hcopy & _).
  - exists {["encoding" := ["gzip"]; "trace" := ["t1"; "t2"]]}. reflexivity.
  - exists s1. split; [exact Hrun|].
    apply (Hcopy "trace" ["t1"; "t2"]). vm_compute. reflexivity.
Defined.

(** ** The compression middleware: error paths and what the stages keep *)

Lemma MicroRequest_HeaderGet_ok r o k v s s' :
  mrequests s !! r = Some o -> MicroRequest.HeaderGet r k s = Ret v s' ->
  request_headers_ok o s.
Proof.
  intros Hr Hget. unfold MicroRequest.HeaderGet in Hget.
  rewrite (M_bind_run _ _ _ _ _ (req_load_run _ _ _ Hr)) in Hget.
  unfold request_headers_ok. destruct (req_Headers o) as [h|]; [|exact I].
  unfold M_bind, map_load in Hget.
  destruct (hmaps s !! h) as [m|]; [eauto | discriminate].
Qed.

Lemma MicroReply_HeaderGet_ok p po k v s s' :
  mreplies s !! p = Some po -> MicroReply.HeaderGet p k s = Ret v s' ->
  reply_headers_ok po s.
Proof.
  intros Hr Hget. unfold MicroReply.HeaderGet in Hget.
  rewrite (M_bind_run _ _ _ _ _ (rep_load_run _ _ _ Hr)) in Hget.
  unfold reply_headers_ok. destruct (rep_Headers po) as [h|]; [|exact I].
  unfold M_bind, map_load in Hget.
  destruct (hmaps s !! h) as [m|]; [eauto | discriminate].
Qed.

Lemma of_option_frame {A} (x : option A) (v : A) (s s' : Store) :
  of_option x s = Ret v s -> of_option x s' = Ret v s'.
Proof.
  destruct x as [a|]; unfold of_option, M_ret, M_panic; [|discriminate].
  intros Heq. injection Heq as ->. reflexivity.
Qed.

(** A header of a request reads the same in a store where the request
    holds the same map reference and the map behind it is the same. *)
Lemma MicroRequest_HeaderGet_frame r o o' k v s s' :
  mrequests s !! r = Some o -> mrequests s' !! r = Some o' ->
  req_Headers o' = req_Headers o ->
  (forall h, req_Headers o = Some h -> hmaps s' !! h = hmaps s !! h) ->
  MicroRequest.HeaderGet r k s = Ret v s -> MicroRequest.HeaderGet r k s' = Ret v s'.
Proof.
  intros Hr Hr' Hsame Hmaps Hget.
  pose proof (MicroRequest_HeaderGet_ok r o k v s s Hr Hget) as Hok.
  assert (request_headers_ok o' s') as Hok'.
  { unfold request_headers_ok in *. rewrite Hsame.
    destruct (req_Headers o) as [h|]; [|exact I]. rewrite (Hmaps h eq_refl). exact Hok. }
  assert (request_headers o' s' = request_headers o s) as Heq.
  { unfold request_headers. rewrite Hsame.
    destruct (req_Headers o) as [h|]; [|reflexivity]. rewrite (Hmaps h eq_refl). reflexivity. }
  rewrite (MicroRequest_HeaderGet_run r o k s Hr Hok) in Hget.
  rewrite (MicroRequest_HeaderGet_run r o' k s' Hr' Hok'), Heq.
  apply (of_option_frame _ _ s s' Hget).
Qed.

Lemma MicroReply_HeaderGet_frame p po po' k v s s' :
  mreplies s !! p = Some po -> mreplies s' !! p = Some po' ->
  rep_Headers po' = rep_Headers po ->
  (forall h, rep_Headers po = Some h -> hmaps s' !! h = hmaps s !! h) ->
  MicroReply.HeaderGet p k s = Ret v s -> MicroReply.HeaderGet p k s' = Ret v s'.
Proof.
  intros Hr Hr' Hsame Hmaps Hget.
  pose proof (MicroReply_HeaderGet_ok p po k v s s Hr Hget) as Hok.
  assert (reply_headers_ok po' s') as Hok'.
  { unfold reply_headers_ok in *. rewrite Hsame.
    destruct (rep_Headers po) as [h|]; [|exact I]. rewrite (Hmaps h eq_refl). exact Hok. }
  assert (reply_headers po' s' = reply_headers po s) as Heq.
  { unfold reply_headers. rewrite Hsame.
    destruct (rep_Headers po) as [h|]; [|reflexivity]. rewrite (Hmaps h eq_refl). reflexivity. }
  rewrite (MicroReply_HeaderGet_run p po k s Hr Hok) in Hget.
  rewrite (MicroReply_HeaderGet_run p po' k s' Hr' Hok'), Heq.
  apply (of_option_frame _ _ s s' Hget).
Qed.

Lemma decoded_lookup req o d s :
  mrequests s !! req = Some o -> mrequests (decoded req o d s) !! req = Some (req_with_Data o d).
Proof.
  intros Hr. unfold decoded. simpl. apply list_lookup_insert_eq.
  apply lookup_lt_Some in Hr. exact Hr.
Qed.

Lemma microEcho_run req o s :
  mrequests s !! req = Some o ->
  microEcho req s
  = Ret (Some (length (mreplies s)), None)
        (with_mreplies
           (fun l => l ++ [mkMicroReply (Some (length (hmaps s))) (req_Data o)])
           (with_hmaps (fun l => l ++ [∅]) s)).
Proof.
  intros Hr. unfold microEcho.
  rewrite (M_bind_run _ _ _ _ _ (req_load_run _ _ _ Hr)). reflexivity.
Qed.

Section FurtherCompression.
Context `{Codecs}.

(** X16. When the next link returns an error, the middleware returns that
    error with a nil reply, in the store the next link left: a reply that
    the next link returned beside the error is dropped, the
    [accept-encoding] header is not read and nothing is compressed. *)
Theorem next_error_skips_outbound (next : MicroHandlerFunc) (req : ptr)
    (res : option ptr) (err : error) (s s1 s2 : Store) :
  Compression.decompressRequest req s = Ret None s1 ->
  next req s1 = Ret (res, Some err) s2 ->
  Compression.CompressionMiddleware next req s = Ret (None, Some err) s2.
Proof.
  intros Hdec Hnext. unfold Compression.CompressionMiddleware.
  rewrite (M_bind_run _ _ _ _ _ Hdec).
  rewrite (M_bind_run _ _ _ _ _ Hnext). reflexivity.
Qed.

(** X17. When the encoder fails on a reply at or above the threshold, the
    middleware returns the encoder's error with a nil reply, and the store
    is the one the next link left: the payload of the reply is not
    replaced and its [encoding] header is not set. *)
Theorem encoder_failure_leaves_reply (next : MicroHandlerFunc) (req p : ptr)
    (po : MicroReply) (accept : string) (e : error) (s s1 s2 : Store) :
  Compression.decompressRequest req s = Ret None s1 ->
  next req s1 = Ret (Some p, None) s2 ->
  mreplies s2 !! p = Some po ->
  ~ (Z.of_nat (length (rep_Data po)) < compressMin s2)%Z ->
  MicroRequest.HeaderGet req Compression.HeaderAcceptEncoding s2 = Ret accept s2 ->
  (accept = "gzip" /\ gzip_Writer (rep_Data po) = Err e
   \/ accept = "deflate" /\ flate_Writer (rep_Data po) = Err e) ->
  Compression.CompressionMiddleware next req s = Ret (None, Some e) s2.
Proof.
  intros Hdec Hnext Hp Hbig Hacc Hfail.
  rewrite (middleware_outbound next req s s1 s2 (Some p) Hdec Hnext).
  rewrite (M_bind_run _ _ _ _ _ Hacc).
  assert (Compression.compressReply accept (Some p) s2 = Ret (Some e) s2) as Hrun.
  { unfold Compression.compressReply. simpl. rewrite M_bind_ret_l.
    rewrite (M_bind_run _ _ _ _ _ (rep_load_run _ _ _ Hp)).
    unfold M_bind at 1. unfold Compression.GetCompressMin.
    destruct (decide (Z.of_nat (length (rep_Data po)) < compressMin s2)%Z); [contradiction|].
    destruct Hfail as [[-> Hw]|[-> Hw]].
    - destruct (decide ("gzip" = Compression.CompressionNone)); [discriminate|].
      destruct (decide ("gzip" = Compression.CompressionGzip)); [|contradiction].
      unfold Compression.compressGzip. rewrite Hw. reflexivity.
    - destruct (decide ("deflate" = Compression.CompressionNone)); [discriminate|].
      destruct (decide ("deflate" = Compression.CompressionGzip)); [discriminate|].
      destruct (decide ("deflate" = Compression.CompressionDeflate)); [|contradiction].
      unfold Compression.compressDeflate. rewrite Hw. reflexivity. }
  rewrite (M_bind_run _ _ _ _ _ Hrun). reflexivity.
Qed.

(** X18. When the next link returns a nil reply and a nil error, the outbound
    stage dereferences the nil reply: the middleware panics, whatever the
    [accept-encoding] header and the threshold are. *)
Theorem nil_reply_without_error_panics (next : MicroHandlerFunc) (req : ptr)
    (accept : string) (s s1 s2 : Store) :
  Compression.decompressRequest req s = Ret None s1 ->
  next req s1 = Ret (None, None) s2 ->
  MicroRequest.HeaderGet req Compression.HeaderAcceptEncoding s2 = Ret accept s2 ->
  Compression.CompressionMiddleware next req s = Panic.
Proof.
  intros Hdec Hnext Hacc.
  rewrite (middleware_outbound next req s s1 s2 None Hdec Hnext).
  rewrite (M_bind_run _ _ _ _ _ Hacc). reflexivity.
Qed.

(** X19. The inbound stage assigns the payload of the request and nothing
    else: subject, reply subject, context and header map of the request
    are kept, so that the [encoding] header still names the codec of a
    payload that is now decoded, and the maps, the replies and the other
    requests are as before. Run again on the same request, as by a
    second compression middleware in the chain, the stage decodes the
    decoded payload once more. *)
Theorem inbound_stage_changes_payload_only (req : ptr) (o : MicroRequest)
    (enc : string) (d : list byte) (s : Store) :
  mrequests s !! req = Some o ->
  MicroRequest.HeaderGet req Compression.HeaderEncoding s = Ret enc s ->
  Compression.readCompressedData enc (req_Data o) = Ok d ->
  let s1 := decoded req o d s in
  Compression.decompressRequest req s = Ret None s1
  /\ mrequests s1 !! req
     = Some (mkMicroRequest (req_Subject o) (req_Reply o) (req_Headers o) d (req_ctx o))
  /\ (forall q, q <> req -> mrequests s1 !! q = mrequests s !! q)
  /\ hmaps s1 = hmaps s /\ mreplies s1 = mreplies s /\ requests s1 = requests s
  /\ compressMin s1 = compressMin s /\ trace s1 = trace s
  /\ MicroRequest.HeaderGet req Compression.HeaderEncoding s1 = Ret enc s1
  /\ (forall e, Compression.readCompressedData enc d = Err e ->
                Compression.decompressRequest req s1 = Ret (Some e) s1)
  /\ (forall d', Compression.readCompressedData enc d = Ok d' ->
                 Compression.decompressRequest req s1
                 = Ret None (decoded req (req_with_Data o d) d' s1)).
Proof.
  intros Hr Henc Hread s1.
  pose proof (decoded_lookup req o d s Hr) as Hr1. fold s1 in Hr1.
  assert (MicroRequest.HeaderGet req Compression.HeaderEncoding s1 = Ret enc s1) as Henc1.
  { apply (MicroRequest_HeaderGet_frame req o (req_with_Data o d) _ _ s s1 Hr Hr1);
      [reflexivity | reflexivity | exact Henc]. }
  split; [apply (decompressRequest_ok req o enc d s Hr Henc Hread)|].
  split; [exact Hr1|]. split.
  { intros q Hq. subst s1. unfold decoded. simpl.
    apply list_lookup_insert_ne. congruence. }
  do 5 (split; [reflexivity|]). split; [exact Henc1|]. split.
  - intros e Hfail.
    apply (decompressRequest_err req (req_with_Data o d) enc e s1 Hr1 Henc1 Hfail).
  - intros d' Hagain.
    apply (decompressRequest_ok req (req_with_Data o d) enc d' s1 Hr1 Henc1 Hagain).
Qed.

(** X20. The echo handler behind the middleware, from end to end, on a request
    whose payload the inbound stage decodes to [d]: the reply is a new
    object; when [d] is shorter than the threshold, or the
    [accept-encoding] header of the request is neither gzip nor deflate,
    its payload is [d] and its [encoding] header reads empty; otherwise its
    payload is what the encoder named by [accept-encoding] makes of [d]
    and its [encoding] header reads that name. *)
Theorem echo_through_compression (req : ptr) (o : MicroRequest)
    (enc accept : string) (d : list byte) (s : Store) :
  mrequests s !! req = Some o ->
  MicroRequest.HeaderGet req Compression.HeaderEncoding s = Ret enc s ->
  MicroRequest.HeaderGet req Compression.HeaderAcceptEncoding s = Ret accept s ->
  Compression.readCompressedData enc (req_Data o) = Ok d ->
  let p := length (mreplies s) in
  ((Z.of_nat (length d) < compressMin s)%Z \/ (accept <> "gzip" /\ accept <> "deflate") ->
   exists s3,
     Compression.CompressionMiddleware microEcho req s = Ret (Some p, None) s3
     /\ rep_Data <$> mreplies s3 !! p = Some d
     /\ MicroReply.HeaderGet p Compression.HeaderEncoding s3 = Ret "" s3)
  /\ (forall encode out,
        ~ (Z.of_nat (length d) < compressMin s)%Z ->
        (accept = "gzip" /\ encode = Compression.compressGzip
         \/ accept = "deflate" /\ encode = Compression.compressDeflate) ->
        encode d = Ok out ->
        exists s3,
          Compression.CompressionMiddleware microEcho req s = Ret (Some p, None) s3
          /\ rep_Data <$> mreplies s3 !! p = Some out
          /\ MicroReply.HeaderGet p Compression.HeaderEncoding s3 = Ret accept s3).
Proof.
  intros Hr Henc Hacc Hread p.
  set (s1 := decoded req o d s).
  pose proof (decoded_lookup req o d s Hr) as Hr1. fold s1 in Hr1.
  pose proof (decompressRequest_ok req o enc d s Hr Henc Hread) as Hdec. fold s1 in Hdec.
  set (po := mkMicroReply (Some (length (hmaps s))) d).
  set (s2 := with_mreplies (fun l => l ++ [po]) (with_hmaps (fun l => l ++ [∅]) s1)).
  assert (microEcho req s1 = Ret (Some p, None) s2) as Hnext
    by apply (microEcho_run req _ s1 Hr1).
  assert (mreplies s2 !! p = Some po) as Hp by apply lookup_snoc.
  assert (hmaps s2 !! length (hmaps s) = Some ∅) as Hh by apply lookup_snoc.
  assert (reply_headers_ok po s2) as Hpok by (exists ∅; exact Hh).
  pose proof (MicroRequest_HeaderGet_ok req o _ _ s s Hr Hacc) as Hok.
  assert (mrequests s2 !! req = Some (req_with_Data o d)) as Hr2 by exact Hr1.
  assert (MicroRequest.HeaderGet req Compression.HeaderAcceptEncoding s2 = Ret accept s2)
    as Hacc2.
  { apply (MicroRequest_HeaderGet_frame req o (req_with_Data o d) _ _ s s2 Hr Hr2);
      [reflexivity | | exact Hacc].
    intros h Hh'. apply lookup_snoc_old. apply (request_headers_ok_lt o s h Hok Hh'). }
  split.
  - intros Hskip. exists s2. split; [|split].
    + rewrite (middleware_outbound microEcho req s s1 s2 (Some p) Hdec Hnext).
      rewrite (M_bind_run _ _ _ _ _ Hacc2).
      assert (Compression.compressReply accept (Some p) s2 = Ret None s2) as Hrun.
      { destruct Hskip as [Hsmall|[Hgz Hfl]].
        - apply (compressReply_small accept p po s2 Hp). exact Hsmall.
        - apply (compressReply_unrecognised accept p po s2 Hp Hgz Hfl). }
      rewrite (M_bind_run _ _ _ _ _ Hrun). reflexivity.
    + rewrite Hp. reflexivity.
    + rewrite (MicroReply_HeaderGet_run p po _ s2 Hp Hpok).
      rewrite (reply_headers_at po _ ∅ s2 eq_refl Hh).
      unfold Header.Get. rewrite lookup_empty. reflexivity.
  - intros encode out Hbig Hc Hout.
    destruct (middleware_encode microEcho req s s1 s2 p po accept encode out
                Hdec Hnext Hp Hpok Hbig Hacc2 Hc Hout)
      as (s3 & Hrun & (po' & Hpo' & Hdata) & Hget).
    exists s3. split; [exact Hrun|]. split; [|exact Hget].
    rewrite Hpo'. simpl. rewrite Hdata. reflexivity.
Qed.

(** X21. A handler that answers with [NewMicroReplyFromRequest] copies the
    [encoding] header of the request into its reply, and the middleware
    sets that header only when it compresses. When the reply is shorter
    than the threshold, or the [accept-encoding] header is neither gzip
    nor deflate, the reply leaves with the decoded payload under the
    [encoding] header the request came with. *)
Theorem copied_encoding_header_is_kept (req : ptr) (o : MicroRequest)
    (enc accept : string) (d : list byte) (s : Store) :
  mrequests s !! req = Some o ->
  MicroRequest.HeaderGet req Compression.HeaderEncoding s = Ret enc s ->
  MicroRequest.HeaderGet req Compression.HeaderAcceptEncoding s = Ret accept s ->
  Compression.readCompressedData enc (req_Data o) = Ok d ->
  (Z.of_nat (length d) < compressMin s)%Z \/ (accept <> "gzip" /\ accept <> "deflate") ->
  let p := length (mreplies s) in
  exists s3,
    Compression.CompressionMiddleware echoWithHeaders req s = Ret (Some p, None) s3
    /\ rep_Data <$> mreplies s3 !! p = Some d
    /\ MicroReply.HeaderGet p Compression.HeaderEncoding s3 = Ret enc s3.
Proof.
  intros Hr Henc Hacc Hread Hskip p.
  set (s1 := decoded req o d s).
  set (o1 := req_with_Data o d).
  pose proof (decoded_lookup req o d s Hr) as Hr1. fold s1 o1 in Hr1.
  pose proof (decompressRequest_ok req o enc d s Hr Henc Hread) as Hdec. fold s1 in Hdec.
  pose proof (MicroRequest_HeaderGet_ok req o _ _ s s Hr Hacc) as Hok.
  assert (request_headers_ok o1 s1) as Hok1 by exact Hok.
  destruct (NewMicroReplyFromRequest_run d req o1 s1 Hr1 Hok1)
    as (s2 & Hnew & Hmaps & Hreps & Hreqs & _ & Hmin & _).
  set (po := mkMicroReply (Some (length (hmaps s1))) d) in *.
  assert (echoWithHeaders req s1 = Ret (Some p, None) s2) as Hnext.
  { unfold echoWithHeaders.
    rewrite (M_bind_run _ _ _ _ _ (req_load_run _ _ _ Hr1)).
    change (req_Data o1) with d.
    rewrite (M_bind_run _ _ _ _ _ Hnew). reflexivity. }
  assert (mreplies s2 !! p = Some po) as Hp by (rewrite Hreps; apply lookup_snoc).
  assert (hmaps s2 !! length (hmaps s1) = Some (request_headers o s)) as Hh
    by (rewrite Hmaps; apply lookup_snoc).
  assert (reply_headers_ok po s2) as Hpok by (eexists; exact Hh).
  assert (mrequests s2 !! req = Some o1) as Hr2 by (rewrite Hreqs; exact Hr1).
  assert (MicroRequest.HeaderGet req Compression.HeaderAcceptEncoding s2 = Ret accept s2)
    as Hacc2.
  { apply (MicroRequest_HeaderGet_frame req o o1 _ _ s s2 Hr Hr2);
      [reflexivity | | exact Hacc].
    intros h Hh'. rewrite Hmaps. apply lookup_snoc_old.
    apply (request_headers_ok_lt o s h Hok Hh'). }
  exists s2. split; [|split].
  - rewrite (middleware_outbound echoWithHeaders req s s1 s2 (Some p) Hdec Hnext).
    rewrite (M_bind_run _ _ _ _ _ Hacc2).
    assert (Compression.compressReply accept (Some p) s2 = Ret None s2) as Hrun.
    { destruct Hskip as [Hsmall|[Hgz Hfl]].
      - apply (compressReply_small accept p po s2 Hp). rewrite Hmin. exact Hsmall.
      - apply (compressReply_unrecognised accept p po s2 Hp Hgz Hfl). }
    rewrite (M_bind_run _ _ _ _ _ Hrun). reflexivity.
  - rewrite Hp. reflexivity.
  - rewrite (MicroReply_HeaderGet_run p po _ s2 Hp Hpok).
    rewrite (reply_headers_at po _ _ s2 eq_refl Hh).
    rewrite (MicroRequest_HeaderGet_run req o _ s Hr Hok) in Henc.
    apply (of_option_frame _ _ s s2 Henc).
Qed.

End FurtherCompression.

(** The handler returns a reply of 2000 bytes beside its error, to a
    request that accepts deflate: the error comes back with a nil reply and
    the reply object is as the handler left it. *)
Lemma next_error_skips_outbound_witness :
  Compression.CompressionMiddleware (H := frame_codecs) failing_handler 0
                                    accept_deflate_store
  = Ret (None, Some (ErrOther "request failed"))
        (final_store (failing_handler 0 accept_deflate_store) init_Store).
Proof.
  apply (@next_error_skips_outbound frame_codecs failing_handler 0 (Some 0)
           (ErrOther "request failed") accept_deflate_store accept_deflate_store).
  - vm_compute; reflexivity.
  - reflexivity.
Defined.

(** The deflate writer fails on the 2000 bytes that the echo handler
    replied. *)
Lemma encoder_failure_leaves_reply_witness :
  Compression.CompressionMiddleware (H := failing_codecs) microEcho 0 accept_deflate_store
  = Ret (None, Some (ErrOther "flate: write failed"))
        (final_store (microEcho 0 accept_deflate_store) init_Store).
Proof.
  apply (@encoder_failure_leaves_reply failing_codecs microEcho 0 0
           (mkMicroReply (Some 1) (repeat x64 2000)) "deflate"
           (ErrOther "flate: write failed") accept_deflate_store accept_deflate_store).
  - vm_compute; reflexivity.
  - reflexivity.
  - reflexivity.
  - vm_compute. discriminate.
  - vm_compute; reflexivity.
  - right. split; reflexivity.
Defined.

(** A handler that returns nil and nil behind the middleware. *)
Lemma nil_reply_without_error_panics_witness :
  Compression.CompressionMiddleware (H := frame_codecs) silent_handler 0
                                    accept_deflate_store
  = Panic.
Proof.
  apply (@nil_reply_without_error_panics frame_codecs silent_handler 0 "deflate"
           accept_deflate_store accept_deflate_store accept_deflate_store).
  - vm_compute; reflexivity.
  - reflexivity.
  - vm_compute; reflexivity.
Defined.

(** The request of the mismatch test after the inbound stage: the header
    still declares gzip, and a second run of the stage fails on the 2000
    decoded bytes. *)
Lemma inbound_stage_changes_payload_only_witness :
  let o := mkMicroRequest "foo" "_INBOX.1" (Some 0) (x1f :: repeat x64 2000) None in
  let s1 := decoded 0 o (repeat x64 2000) mismatch_store in
  Compression.decompressRequest (H := frame_codecs) 0 mismatch_store = Ret None s1
  /\ MicroRequest.HeaderGet 0 Compression.HeaderEncoding s1 = Ret "gzip" s1
  /\ Compression.decompressRequest (H := frame_codecs) 0 s1
     = Ret (Some (ErrOther "gzip: invalid header")) s1.
Proof.
  intros o s1.
  destruct (@inbound_stage_changes_payload_only frame_codecs 0 o "gzip" (repeat x64 2000)
              mismatch_store eq_refl)
    as (Hdec & _ & _ & _ & _ & _ & _ & _ & Henc & Hagain & _).
  - vm_compute; reflexivity.
  - reflexivity.
  - split; [exact Hdec|]. split; [exact Henc|]. apply Hagain. reflexivity.
Defined.

(** A request declared as gzip that asks for no encoding of the reply:
    the echo comes back plain, with an empty [encoding] header. *)
Lemma echo_through_compression_witness :
  exists s3,
    Compression.CompressionMiddleware (H := frame_codecs) microEcho 0 gzip_store
    = Ret (Some 0, None) s3
    /\ rep_Data <$> mreplies s3 !! 0 = Some (repeat x64 2000)
    /\ MicroReply.HeaderGet 0 Compression.HeaderEncoding s3 = Ret "" s3.
Proof.
  destruct (@echo_through_compression frame_codecs 0
              (mkMicroRequest "foo" "_INBOX.1" (Some 0) (x1f :: repeat x64 2000) None)
              "gzip" "" (repeat x64 2000) gzip_store eq_refl)
    as (Hplain & _).
  - vm_compute; reflexivity.
  - vm_compute; reflexivity.
  - reflexivity.
  - apply Hplain. right. split; discriminate.
Defined.

(** The same request answered with [NewMicroReplyFromRequest]: the 2000
    plain bytes leave under the [encoding] header gzip. *)
Lemma copied_encoding_header_is_kept_witness :
  exists s3,
    Compression.CompressionMiddleware (H := frame_codecs) echoWithHeaders 0 gzip_store
    = Ret (Some 0, None) s3
    /\ rep_Data <$> mreplies s3 !! 0 = Some (repeat x64 2000)
    /\ MicroReply.HeaderGet 0 Compression.HeaderEncoding s3 = Ret "gzip" s3.
Proof.
  apply (@copied_encoding_header_is_kept frame_codecs 0
           (mkMicroRequest "foo" "_INBOX.1" (Some 0) (x1f :: repeat x64 2000) None)
           "gzip" "" (repeat x64 2000) gzip_store eq_refl).
  - vm_compute; reflexivity.
  - vm_compute; reflexivity.
  - reflexivity.
  - right. split; discriminate.
Defined.

(** ** The request id middleware *)

Lemma scanTags_found req (before after : list string) tag id acc s :
  (forall t, t ∈ before -> RequestId.Headers_Get req t s = Ret "" s) ->
  RequestId.Headers_Get req tag s = Ret id s -> id <> "" ->
  RequestId.scanTags req (before ++ tag :: after) acc s = Ret id s.
Proof.
  revert acc. induction before as [|t before IH]; intros acc Hbefore Htag Hid; simpl.
  - rewrite (M_bind_run _ _ _ _ _ Htag).
    destruct (decide (id <> "")); [reflexivity | contradiction].
  - rewrite (M_bind_run _ _ _ _ _ (Hbefore t (list_elem_of_here _ _))).
    destruct (decide ("" <> "")) as [Hne|_]; [contradiction Hne; reflexivity|].
    apply IH; [|exact Htag | exact Hid].
    intros t' Ht'. apply Hbefore. apply list_elem_of_further, Ht'.
Qed.

Lemma scanTags_none req (tags : list string) s :
  (forall t, t ∈ tags -> RequestId.Headers_Get req t s = Ret "" s) ->
  RequestId.scanTags req tags "" s = Ret "" s.
Proof.
  induction tags as [|t tags IH]; intros Hall; simpl; [reflexivity|].
  rewrite (M_bind_run _ _ _ _ _ (Hall t (list_elem_of_here _ _))).
  destruct (decide ("" <> "")) as [Hne|_]; [contradiction Hne; reflexivity|].
  apply IH. intros t' Ht'. apply Hall. apply list_elem_of_further, Ht'.
Qed.

Lemma RequestIdFromContext_bound parent id :
  RequestId.RequestIdFromContext (WithValue parent RequestId.requestIdContextKey id) = id.
Proof.
  unfold RequestId.RequestIdFromContext. simpl.
  destruct (decide (RequestId.requestIdContextKey = RequestId.requestIdContextKey));
    [reflexivity | contradiction].
Qed.

Lemma context_Value_other parent key id k :
  k <> key -> context_Value (WithValue parent key id) k = context_Value parent k.
Proof. intros Hk. simpl. destruct (decide (key = k)); [congruence | reflexivity]. Qed.

Lemma request_load_run p o s : requests s !! p = Some o -> request_load p s = Ret o s.
Proof. unfold request_load. intros ->. reflexivity. Qed.

Lemma Headers_Get_transport p req c tag s :
  requests s !! p = Some (mkRequest req c) ->
  RequestId.Headers_Get p tag s = of_option (transport_header req tag s) s.
Proof.
  intros Hp. unfold RequestId.Headers_Get, transport_header.
  rewrite (M_bind_run _ _ _ _ _ (request_load_run _ _ _ Hp)).
  simpl. destruct (micro_Headers req) as [h|]; [|reflexivity].
  unfold M_bind, map_load. destruct (hmaps s !! h); reflexivity.
Qed.

Section RequestIdProperties.
Context `{IdSource}.

(** The tail of the request id middleware once the identifier is known:
    the request is derived with the identifier bound in its context and
    handed to the next link. *)
Lemma RequestId_derive (next : ContextHandlerFunc) req o parent (id : string) s :
  requests s !! req = Some o -> Request_ctx o = Some parent ->
  (parent' <- Request.Context req ;;
   parent'' <- of_option parent' ;;
   req' <- Request.WithContext req
             (Some (WithValue parent'' RequestId.requestIdContextKey id)) ;;
   next req') s
  = next (length (requests s))
         (with_requests
            (fun l => l ++ [mkRequest (Request_Request o)
                              (Some (WithValue parent RequestId.requestIdContextKey id))])
            s).
Proof.
  intros Hr Hctx.
  rewrite (M_bind_run _ _ _ _ _ (Request_Context_run req o s Hr)). rewrite Hctx.
  rewrite (M_bind_run (of_option (Some parent)) _ s parent s eq_refl).
  rewrite (M_bind_run _ _ _ _ _ (Request_WithContext_run req o _ s Hr)). reflexivity.
Qed.

Lemma RequestIdMiddleware_found (tags : list string) (next : ContextHandlerFunc)
    (req : ptr) (o : Request) (parent : context_Context)
    (before after : list string) (tag id : string) (s : Store) :
  requests s !! req = Some o -> Request_ctx o = Some parent ->
  (if decide (length tags = 0) then RequestId.defaultTags else tags)
  = before ++ tag :: after ->
  (forall t, t ∈ before -> RequestId.Headers_Get req t s = Ret "" s) ->
  RequestId.Headers_Get req tag s = Ret id s -> id <> "" ->
  RequestId.RequestIdMiddleware tags next req s
  = next (length (requests s))
         (with_requests
            (fun l => l ++ [mkRequest (Request_Request o)
                              (Some (WithValue parent RequestId.requestIdContextKey id))])
            s).
Proof.
  intros Hr Hctx Htags Hbefore Htag Hid.
  unfold RequestId.RequestIdMiddleware. rewrite Htags.
  rewrite (M_bind_run _ _ _ _ _ (scanTags_found req before after tag id "" s
                                   Hbefore Htag Hid)).
  destruct (decide (String.length id = 0)) as [Hz|_].
  { destruct id; [contradiction Hid; reflexivity | discriminate Hz]. }
  rewrite M_bind_ret_l.
  apply (RequestId_derive next req o parent id s Hr Hctx).
Qed.

(** X22. When one of the tags, in their order, is the first whose header is
    not empty, the middleware calls the next link once, on a new request
    that wraps the same delivery and whose context binds the value of that
    header: [RequestIdFromContext] reads it back, the values of the
    parent context stay readable, the request the middleware received
    keeps its context, and the generator is not called. The tags are the
    four defaults when none is given. *)
Theorem RequestId_taken_from_header (tags : list string) (next : ContextHandlerFunc)
    (req : ptr) (o : Request) (parent : context_Context)
    (before after : list string) (tag id : string) (s : Store) :
  requests s !! req = Some o -> Request_ctx o = Some parent ->
  (if decide (length tags = 0) then RequestId.defaultTags else tags)
  = before ++ tag :: after ->
  (forall t, t ∈ before -> RequestId.Headers_Get req t s = Ret "" s) ->
  RequestId.Headers_Get req tag s = Ret id s -> id <> "" ->
  let ctx := WithValue parent RequestId.requestIdContextKey id in
  let p := length (requests s) in
  let s1 := with_requests (fun l => l ++ [mkRequest (Request_Request o) (Some ctx)]) s in
  RequestId.RequestIdMiddleware tags next req s = next p s1
  /\ Request.Context p s1 = Ret (Some ctx) s1
  /\ RequestId.RequestIdFromContext ctx = id
  /\ (forall k, k <> RequestId.requestIdContextKey ->
                context_Value ctx k = context_Value parent k)
  /\ Request.Context req s1 = Ret (Some parent) s1.
Proof.
  intros Hr Hctx Htags Hbefore Htag Hid ctx p s1.
  pose proof (lookup_lt_Some _ _ _ Hr) as Hlt.
  split; [|split; [|split; [|split]]].
  - apply (RequestIdMiddleware_found tags next req o parent before after tag id s);
      assumption.
  - apply (Request_Context_run p (mkRequest (Request_Request o) (Some ctx)) s1).
    apply lookup_snoc.
  - apply RequestIdFromContext_bound.
  - intros k Hk. apply context_Value_other, Hk.
  - rewrite (Request_Context_run req o s1); [rewrite Hctx; reflexivity|].
    subst s1. simpl. rewrite lookup_snoc_old by exact Hlt. exact Hr.
Qed.

(** X23. When the header is empty or absent under every tag, the middleware
    takes an identifier from the generator and binds it in the same way;
    an identifier is generated once for the delivery. *)
Theorem RequestId_generated (tags : list string) (next : ContextHandlerFunc)
    (req : ptr) (o : Request) (parent : context_Context) (id : string) (s s' : Store) :
  requests s !! req = Some o -> Request_ctx o = Some parent ->
  (forall t, t ∈ (if decide (length tags = 0) then RequestId.defaultTags else tags) ->
             RequestId.Headers_Get req t s = Ret "" s) ->
  xid_New s = Ret id s' -> requests s' = requests s ->
  let ctx := WithValue parent RequestId.requestIdContextKey id in
  let p := length (requests s) in
  let s1 := with_requests (fun l => l ++ [mkRequest (Request_Request o) (Some ctx)]) s' in
  RequestId.RequestIdMiddleware tags next req s = next p s1
  /\ Request.Context p s1 = Ret (Some ctx) s1
  /\ RequestId.RequestIdFromContext ctx = id
  /\ Request.Context req s1 = Ret (Some parent) s1.
Proof.
  intros Hr Hctx Hnone Hgen Hsame ctx p s1.
  pose proof (lookup_lt_Some _ _ _ Hr) as Hlt.
  assert (requests s' !! req = Some o) as Hr' by (rewrite Hsame; exact Hr).
  split; [|split; [|split]].
  - unfold RequestId.RequestIdMiddleware.
    rewrite (M_bind_run _ _ _ _ _ (scanTags_none req _ s Hnone)).
    destruct (decide (String.length "" = 0)) as [_|Hz]; [|contradiction Hz; reflexivity].
    rewrite (M_bind_run _ _ _ _ _ Hgen).
    rewrite (RequestId_derive next req o parent id s' Hr' Hctx).
    subst p s1. rewrite Hsame. reflexivity.
  - apply (Request_Context_run p (mkRequest (Request_Request o) (Some ctx)) s1).
    subst s1 p. simpl. rewrite <- Hsame. apply lookup_snoc.
  - apply RequestIdFromContext_bound.
  - rewrite (Request_Context_run req o s1); [rewrite Hctx; reflexivity|].
    subst s1. simpl. rewrite lookup_snoc_old by (rewrite Hsame; exact Hlt). exact Hr'.
Qed.

(** X24. The request id middleware registered on a context service, from the
    delivery to the handler: the dispatcher wraps the delivery with the
    default context of the service or the background context, never a nil
    one, so that the middleware derives a second request whose context
    extends that one with the identifier found in the headers of the
    delivery; the handler is called once, on the derived request, and the
    dispatcher reports its error. *)
Theorem RequestId_under_dispatcher `{GoRelease} (d : option context_Context)
    (tags : list string)
    (handler : ContextHandlerFunc) (req : micro_Request)
    (before after : list string) (tag id : string) (s : Store) :
  (if decide (length tags = 0) then RequestId.defaultTags else tags)
  = before ++ tag :: after ->
  (forall t, t ∈ before -> transport_header req t s = Some "") ->
  transport_header req tag s = Some id -> id <> "" ->
  let parent := match d with Some c => c | None => Background end in
  let ctx := WithValue parent RequestId.requestIdContextKey id in
  let p := S (length (requests s)) in
  let s2 := with_requests (fun l => l ++ [mkRequest req (Some ctx)])
                          (dispatch_store d req s) in
  contextDispatch d [RequestId.RequestIdMiddleware tags] handler req s
  = (err <- handler p ;; report req err) s2
  /\ Request.Context p s2 = Ret (Some ctx) s2
  /\ RequestId.RequestIdFromContext ctx = id.
Proof.
  intros Htags Hbefore Htag Hid parent ctx p s2.
  set (s0 := dispatch_store d req s).
  assert (requests s0 !! length (requests s) = Some (mkRequest req (Some parent))) as Hp0
    by apply lookup_snoc.
  assert (length (requests s0) = p) as Hlen.
  { subst s0 p. simpl. rewrite length_app. simpl. lia. }
  assert (RequestId.RequestIdMiddleware tags handler (length (requests s)) s0
          = handler p s2) as Hrun.
  { rewrite (RequestIdMiddleware_found tags handler (length (requests s))
               (mkRequest req (Some parent)) parent before after tag id s0 Hp0 eq_refl Htags).
    - rewrite Hlen. reflexivity.
    - intros t Ht. rewrite (Headers_Get_transport _ req (Some parent) t s0 Hp0).
      change (transport_header req t s0) with (transport_header req t s).
      rewrite (Hbefore t Ht). reflexivity.
    - rewrite (Headers_Get_transport _ req (Some parent) tag s0 Hp0).
      change (transport_header req tag s0) with (transport_header req tag s).
      rewrite Htag. reflexivity.
    - exact Hid. }
  split; [|split].
  - unfold contextDispatch. unfold M_bind at 1. unfold request_new.
    change (with_requests _ s) with s0.
    change (wrap_loop [RequestId.RequestIdMiddleware tags] _ handler)
      with (RequestId.RequestIdMiddleware tags handler).
    unfold M_bind. rewrite Hrun. reflexivity.
  - apply (Request_Context_run p (mkRequest req (Some ctx)) s2).
    subst s2. simpl. rewrite <- Hlen. apply lookup_snoc.
  - apply RequestIdFromContext_bound.
Qed.

End RequestIdProperties.

(** The identifier under the tag [Request_Id], the third default, reaches
    the handler. *)
Lemma RequestId_taken_from_header_witness :
  marks_of (RequestId.RequestIdMiddleware (H := fixed_ids) [] id_marking_handler 0
                                          request_id_store)
  = ["abc-123"].
Proof.
  destruct (@RequestId_taken_from_header fixed_ids [] id_marking_handler 0
              (mkRequest (mkMicroReq "foo" "_INBOX.1" (Some 0) []) (Some Background))
              Background ["request_id"; "Request_id"] ["REQUEST_ID"] "Request_Id" "abc-123"
              request_id_store eq_refl eq_refl eq_refl)
    as (Hrun & _).
  - intros t Ht. apply elem_of_cons in Ht as [->|Ht]; [vm_compute; reflexivity|].
    apply elem_of_cons in Ht as [->|Ht]; [vm_compute; reflexivity|].
    apply elem_of_nil in Ht. contradiction.
  - vm_compute; reflexivity.
  - discriminate.
  - rewrite Hrun. reflexivity.
Defined.

(** A delivery with the identifier under a tag of the caller's choice,
    dispatched on a service without a default context. *)
Lemma RequestId_under_dispatcher_witness :
  marks_of (contextDispatch (H := go1_21) None
                            [RequestId.RequestIdMiddleware (H := fixed_ids) ["Request_Id"]]
                            id_marking_handler (mkMicroReq "foo" "_INBOX.1" (Some 0) [])
                            request_id_store)
  = ["abc-123"].
Proof.
  destruct (@RequestId_under_dispatcher fixed_ids go1_21 None ["Request_Id"] id_marking_handler
              (mkMicroReq "foo" "_INBOX.1" (Some 0) []) [] [] "Request_Id" "abc-123"
              request_id_store eq_refl)
    as (Hrun & _).
  - intros t Ht. apply elem_of_nil in Ht. contradiction.
  - vm_compute; reflexivity.
  - discriminate.
  - rewrite Hrun. reflexivity.
Defined.

(** A delivery without headers: the handler reads the generated
    identifier. *)
Lemma RequestId_generated_witness :
  marks_of (RequestId.RequestIdMiddleware (H := fixed_ids) [] id_marking_handler 0 ctx_store)
  = ["9m4e2mr0ui3e8a215n4g"].
Proof.
  destruct (@RequestId_generated fixed_ids [] id_marking_handler 0
              (mkRequest a_request ctx0) Background "9m4e2mr0ui3e8a215n4g"
              ctx_store ctx_store eq_refl eq_refl)
    as (Hrun & _).
  - intros t _. reflexivity.
  - reflexivity.
  - reflexivity.
  - rewrite Hrun. reflexivity.
Defined.

(** ** The content change middleware *)

(** X25. The content change middleware puts its prefix before the payload of
    the reply that the next link returned and leaves the headers of the
    reply as they are; an error of the next link is returned as it is,
    together with the reply that came with it; a nil reply without an
    error is dereferenced, which panics. *)
Theorem ContentChange_prepends (next : MicroHandlerFunc) (req : ptr) (s : Store) :
  (forall p po s2,
      next req s = Ret (Some p, None) s2 -> mreplies s2 !! p = Some po ->
      let s3 := with_mreplies
                  (fun l => <[p := rep_with_Data po (contentPrefix ++ rep_Data po)]> l) s2 in
      ContentChangeMiddleware next req s = Ret (Some p, None) s3
      /\ rep_Data <$> mreplies s3 !! p = Some (contentPrefix ++ rep_Data po)
      /\ (forall k v, MicroReply.HeaderGet p k s2 = Ret v s2 ->
                      MicroReply.HeaderGet p k s3 = Ret v s3))
  /\ (forall res err s2,
         next req s = Ret (res, Some err) s2 ->
         ContentChangeMiddleware next req s = Ret (res, Some err) s2)
  /\ (forall s2,
         next req s = Ret (None, None) s2 ->
         ContentChangeMiddleware next req s = Panic).
Proof.
  split; [|split].
  - intros p po s2 Hnext Hp s3.
    assert (mreplies s3 !! p = Some (rep_with_Data po (contentPrefix ++ rep_Data po))) as Hp3.
    { subst s3. simpl. apply list_lookup_insert_eq. apply lookup_lt_Some in Hp. exact Hp. }
    split; [|split].
    + unfold ContentChangeMiddleware.
      rewrite (M_bind_run _ _ _ _ _ Hnext). simpl.
      rewrite M_bind_ret_l.
      rewrite (M_bind_run _ _ _ _ _ (rep_load_run _ _ _ Hp)).
      rewrite (M_bind_run _ _ _ _ _ (rep_set_Data_run p po _ s2 Hp)). reflexivity.
    + rewrite Hp3. reflexivity.
    + intros k v Hget.
      apply (MicroReply_HeaderGet_frame p po _ k v s2 s3 Hp Hp3);
        [reflexivity | reflexivity | exact Hget].
  - intros res err s2 Hnext. unfold ContentChangeMiddleware.
    rewrite (M_bind_run _ _ _ _ _ Hnext). reflexivity.
  - intros s2 Hnext. unfold ContentChangeMiddleware.
    rewrite (M_bind_run _ _ _ _ _ Hnext). reflexivity.
Qed.

(** The echo of the example: ten bytes come back behind the prefix. *)
Lemma ContentChange_prepends_witness :
  rep_Data <$> mreplies (final_store (ContentChangeMiddleware microEcho 0 small_store)
                                     init_Store) !! 0
  = Some (contentPrefix ++ repeat x64 10).
Proof.
  destruct (ContentChange_prepends microEcho 0 small_store) as (Hok & _).
  destruct (Hok 0 (mkMicroReply (Some 1) (repeat x64 10))
              (final_store (microEcho 0 small_store) init_Store) eq_refl eq_refl)
    as (Hrun & Hdata & _).
  rewrite Hrun. exact Hdata.
Defined.

Section ContentChangeAndCompression.
Context `{Codecs}.

(** X26. The content change middleware registered before the compression
    middleware runs after it on the way out: when the compression
    middleware compresses the reply, the prefix is put before the
    encoder's output, outside the compressed stream, and the reply leaves
    under the [encoding] header of the codec. *)
Theorem ContentChange_around_compression (next : MicroHandlerFunc) (req p : ptr)
    (po : MicroReply) (accept : string) (out : list byte)
    (encode : list byte -> result (list byte)) (s s1 s2 : Store) :
  Compression.decompressRequest req s = Ret None s1 ->
  next req s1 = Ret (Some p, None) s2 ->
  mreplies s2 !! p = Some po -> reply_headers_ok po s2 ->
  ~ (Z.of_nat (length (rep_Data po)) < compressMin s2)%Z ->
  MicroRequest.HeaderGet req Compression.HeaderAcceptEncoding s2 = Ret accept s2 ->
  (accept = "gzip" /\ encode = Compression.compressGzip
   \/ accept = "deflate" /\ encode = Compression.compressDeflate) ->
  encode (rep_Data po) = Ok out ->
  exists s4,
    ContentChangeMiddleware (Compression.CompressionMiddleware next) req s
    = Ret (Some p, None) s4
    /\ rep_Data <$> mreplies s4 !! p = Some (contentPrefix ++ out)
    /\ MicroReply.HeaderGet p Compression.HeaderEncoding s4 = Ret accept s4.
Proof.
  intros Hdec Hnext Hp Hok Hbig Hacc Hc Hout.
  destruct (middleware_encode next req s s1 s2 p po accept encode out
              Hdec Hnext Hp Hok Hbig Hacc Hc Hout)
    as (s3 & Hrun & (po' & Hpo' & Hdata) & Hget).
  set (s4 := with_mreplies
               (fun l => <[p := rep_with_Data po' (contentPrefix ++ rep_Data po')]> l) s3).
  assert (mreplies s4 !! p = Some (rep_with_Data po' (contentPrefix ++ rep_Data po'))) as Hp4.
  { subst s4. simpl. apply list_lookup_insert_eq. apply lookup_lt_Some in Hpo'. exact Hpo'. }
  exists s4. split; [|split].
  - unfold ContentChangeMiddleware.
    rewrite (M_bind_run _ _ _ _ _ Hrun). simpl. rewrite M_bind_ret_l.
    rewrite (M_bind_run _ _ _ _ _ (rep_load_run _ _ _ Hpo')).
    rewrite (M_bind_run _ _ _ _ _ (rep_set_Data_run p po' _ s3 Hpo')). reflexivity.
  - rewrite Hp4. simpl. rewrite Hdata. reflexivity.
  - apply (MicroReply_HeaderGet_frame p po' _ _ _ s3 s4 Hpo' Hp4);
      [reflexivity | reflexivity | exact Hget].
Qed.

End ContentChangeAndCompression.

(** The echo of 2000 bytes to a request that accepts deflate: the reply
    is the prefix followed by the deflate frame, which the deflate decoder
    rejects. *)
Lemma ContentChange_around_compression_witness :
  exists s4,
    ContentChangeMiddleware (Compression.CompressionMiddleware (H := frame_codecs) microEcho)
                            0 accept_deflate_store
    = Ret (Some 0, None) s4
    /\ rep_Data <$> mreplies s4 !! 0 = Some (contentPrefix ++ x78 :: repeat x64 2000)
    /\ MicroReply.HeaderGet 0 Compression.HeaderEncoding s4 = Ret "deflate" s4.
Proof.
  apply (@ContentChange_around_compression frame_codecs microEcho 0 0
           (mkMicroReply (Some 1) (repeat x64 2000)) "deflate" (x78 :: repeat x64 2000)
           (Compression.compressDeflate (H := frame_codecs))
           accept_deflate_store accept_deflate_store
           (final_store (microEcho 0 accept_deflate_store) init_Store)).
  - vm_compute; reflexivity.
  - reflexivity.
  - reflexivity.
  - exists ∅. reflexivity.
  - vm_compute. discriminate.
  - vm_compute; reflexivity.
  - right. split; reflexivity.
  - reflexivity.
Defined.
